(** * video-share.py: a shallow embedding of the Git LFS video sharer

    The program of [Videos/my-projects/video-share.py] is sequential glue
    around the file system, the [git] binary, the clock and the [qrcode]
    library.  It is embedded here as code in a state-and-exception monad
    over an explicit [world]; the library functions it calls ([str]
    methods, [os.path], [pathlib], [shutil], [strftime]) are embedded as
    pure functions on byte strings.

    A string is the UTF-8 encoding of Python's, so [str.strip] takes
    off the encodings of the white-space characters.  A path is walked
    through the file system component by component, as the kernel does
    it; symbolic links and permissions are outside the model.  [%Y] is
    printed as glibc prints it, without padding. *)

From Stdlib Require Import Ascii String ZArith Lia.
From stdpp Require Import base option list gmap strings.

Open Scope string_scope.

(** stdpp keeps [String.append] from unfolding; the proofs here compute
    with it. *)
#[global] Arguments String.append !s1 s2 : simpl nomatch.

(** ** Python [str] methods *)

Module PyStr.

(** The double quote, written by its code: 34. *)
Definition dq : string := String (ascii_of_nat 34) EmptyString.

(** The line feed. *)
Definition nl : string := String (ascii_of_nat 10) EmptyString.

Definition chr_slash : ascii := ascii_of_nat 47.
Definition chr_dot : ascii := ascii_of_nat 46.
Definition chr_dq : ascii := ascii_of_nat 34.

(** [s[n:]] *)
Fixpoint drop (n : nat) (s : string) : string :=
  match n, s with
  | O, _ => s
  | S _, EmptyString => EmptyString
  | S k, String _ r => drop k r
  end.

(** [s[:n]] *)
Fixpoint take (n : nat) (s : string) : string :=
  match n, s with
  | O, _ => EmptyString
  | S _, EmptyString => EmptyString
  | S k, String c r => String c (take k r)
  end.

(** [s.startswith(p)] *)
Fixpoint startswith (p s : string) : bool :=
  match p, s with
  | EmptyString, _ => true
  | String _ _, EmptyString => false
  | String a p', String b s' => Ascii.eqb a b && startswith p' s'
  end.

(** [s.endswith(p)] *)
Definition endswith (p s : string) : bool :=
  (String.length p <=? String.length s)%nat
  && String.eqb (drop (String.length s - String.length p) s) p.

(** [s[:-n]] for [n > 0] *)
Definition drop_last (n : nat) (s : string) : string :=
  take (String.length s - n) s.

Fixpoint lstrip_by (p : ascii -> bool) (s : string) : string :=
  match s with
  | EmptyString => EmptyString
  | String c r => if p c then lstrip_by p r else s
  end.

Fixpoint rstrip_by (p : ascii -> bool) (s : string) : string :=
  match s with
  | EmptyString => EmptyString
  | String c r =>
      match rstrip_by p r with
      | EmptyString => if p c then EmptyString else String c EmptyString
      | r' => String c r'
      end
  end.

(** The bytes of a string, written by their codes. *)
Definition utf8 (l : list nat) : string :=
  List.fold_right (fun n s => String (ascii_of_nat n) s) EmptyString l.

(** The characters [str.isspace] accepts, which are those [str.strip]
    takes off, each in its UTF-8 encoding: U+0009 to U+000D, U+001C to
    U+0020, U+0085, U+00A0, U+1680, U+2000 to U+200A, U+2028, U+2029,
    U+202F, U+205F and U+3000. *)
Definition whitespace : list string :=
  List.map utf8
    [ [9]; [10]; [11]; [12]; [13]; [28]; [29]; [30]; [31]; [32];
      [194; 133]; [194; 160];
      [225; 154; 128];
      [226; 128; 128]; [226; 128; 129]; [226; 128; 130]; [226; 128; 131];
      [226; 128; 132]; [226; 128; 133]; [226; 128; 134]; [226; 128; 135];
      [226; 128; 136]; [226; 128; 137]; [226; 128; 138];
      [226; 128; 168]; [226; 128; 169]; [226; 128; 175];
      [226; 129; 159];
      [227; 128; 128] ]%nat.

(** The string read from its last byte to its first. *)
Fixpoint reversed (s : string) : string :=
  match s with
  | EmptyString => EmptyString
  | String c r => reversed r ++ String c EmptyString
  end.

(** The number of bytes of the one of [pats] that [s] begins with; 0
    when it begins with none. *)
Definition space_at (pats : list string) (s : string) : nat :=
  match List.find (fun pat => startswith pat s) pats with
  | Some pat => String.length pat
  | None => 0
  end.

(** [s] without the characters of [pats] it begins with; a character
    has one, two or three bytes. *)
Fixpoint lstrip_of (pats : list string) (s : string) : string :=
  match s with
  | EmptyString => EmptyString
  | String _ r1 =>
      match space_at pats s, r1 with
      | 1, _ => lstrip_of pats r1
      | 2, String _ r2 => lstrip_of pats r2
      | 3, String _ (String _ r3) => lstrip_of pats r3
      | _, _ => s
      end
  end.

(** [s.lstrip()] *)
Definition lstrip (s : string) : string := lstrip_of whitespace s.

(** [s.rstrip()]: the same from the other end, where a character shows
    the bytes of its encoding in reverse. *)
Definition rstrip (s : string) : string :=
  reversed (lstrip_of (List.map reversed whitespace) (reversed s)).

(** [s.strip()] *)
Definition strip (s : string) : string := rstrip (lstrip s).

(** [s.strip(c)] for a one-character argument *)
Definition strip_char (c : ascii) (s : string) : string :=
  rstrip_by (Ascii.eqb c) (lstrip_by (Ascii.eqb c) s).

(** [s.lstrip(c)] *)
Definition lstrip_char (c : ascii) (s : string) : string :=
  lstrip_by (Ascii.eqb c) s.

(** [s.replace(old, new)] for a non-empty [old]: the occurrences are
    replaced from the left and do not overlap.  [skip] counts the
    characters of a replaced occurrence still to pass over. *)
Fixpoint replace_from (old new : string) (skip : nat) (s : string) : string :=
  match s with
  | EmptyString => EmptyString
  | String c r =>
      match skip with
      | S k => replace_from old new k r
      | O =>
          if startswith old s
          then new ++ replace_from old new (String.length old - 1) r
          else String c (replace_from old new 0 r)
      end
  end.

Definition replace (old new s : string) : string := replace_from old new 0 s.

(** [s.split(c)]: never the empty list. *)
Fixpoint split (c : ascii) (s : string) : list string :=
  match s with
  | EmptyString => [EmptyString]
  | String a r =>
      if Ascii.eqb a c then EmptyString :: split c r
      else match split c r with
           | [] => [String a EmptyString]
           | h :: t => String a h :: t
           end
  end.

(** [sep.join(l)] *)
Fixpoint join (sep : string) (l : list string) : string :=
  match l with
  | [] => EmptyString
  | [x] => x
  | x :: r => x ++ sep ++ join sep r
  end.

(** [s.rfind(c)]; [None] is Python's -1. *)
Fixpoint rfind (c : ascii) (s : string) : option nat :=
  match s with
  | EmptyString => None
  | String a r =>
      match rfind c r with
      | Some i => Some (S i)
      | None => if Ascii.eqb a c then Some 0%nat else None
      end
  end.

(** [c in s] for a character *)
Fixpoint has_char (c : ascii) (s : string) : bool :=
  match s with
  | EmptyString => false
  | String a r => Ascii.eqb a c || has_char c r
  end.


(** The same as a test. *)
Fixpoint contains (t s : string) : bool :=
  startswith t s
  || match s with
     | EmptyString => false
     | String _ r => contains t r
     end.

End PyStr.

(** ** [os.path] on POSIX ([posixpath]) *)

Module PosixPath.
Import PyStr.

Definition sep : string := "/".
Definition curdir : string := ".".
Definition pardir : string := "..".

(** [os.path.isabs] *)
Definition isabs (p : string) : bool := startswith sep p.

(** [os.path.join(a, b)] *)
Definition join2 (a b : string) : string :=
  if startswith sep b then b
  else if String.eqb a EmptyString || endswith sep a then a ++ b
  else a ++ sep ++ b.

(** [os.path.basename]: what follows the last slash. *)
Definition basename (p : string) : string :=
  match rfind chr_slash p with
  | Some i => drop (S i) p
  | None => p
  end.

(** One turn of the loop of [normpath] over the components. *)
Definition normpath_step (initial_slashes : nat) (new_comps : list string)
    (comp : string) : list string :=
  if String.eqb comp EmptyString || String.eqb comp curdir then new_comps
  else if negb (String.eqb comp pardir)
          || (Nat.eqb initial_slashes 0 && bool_decide (new_comps = []))
          || (negb (bool_decide (new_comps = []))
              && String.eqb (List.last new_comps EmptyString) pardir)
  then (new_comps ++ [comp])%list
  else List.removelast new_comps.

Definition initial_slashes_of (path : string) : nat :=
  if startswith sep path then
    if startswith "//" path && negb (startswith "///" path) then 2 else 1
  else 0.

Definition or_dot (p : string) : string :=
  if String.eqb p EmptyString then curdir else p.

(** [os.path.normpath] *)
Definition normpath (path : string) : string :=
  if String.eqb path EmptyString then curdir
  else
    let initial_slashes := initial_slashes_of path in
    let comps :=
      fold_left (normpath_step initial_slashes) (split chr_slash path) [] in
    or_dot (take initial_slashes "//" ++ join sep comps).

(** [os.path.abspath], with the result of [os.getcwd()] as [cwd]. *)
Definition abspath (cwd path : string) : string :=
  normpath (if isabs path then path else join2 cwd path).

(** [os.path.commonprefix] of two lists of components: it compares the
    smaller list with the greater one position by position, which gives
    their longest common prefix. *)
Fixpoint commonprefix (l1 l2 : list string) : list string :=
  match l1, l2 with
  | a :: r1, b :: r2 =>
      if String.eqb a b then a :: commonprefix r1 r2 else []
  | _, _ => []
  end.

Definition tail_list (abs : string) : list string :=
  let t := lstrip_char chr_slash abs in
  if String.eqb t EmptyString then [] else split chr_slash t.

(** [os.path.relpath(path, start)]; [None] is the [ValueError] for an
    empty [path]. *)
Definition relpath (cwd path start : string) : option string :=
  if String.eqb path EmptyString then None
  else
    let start_list := tail_list (abspath cwd start) in
    let path_list := tail_list (abspath cwd path) in
    let i := length (commonprefix start_list path_list) in
    let rel_list :=
      (List.repeat pardir (length start_list - i) ++ List.skipn i path_list)%list in
    Some (if bool_decide (rel_list = []) then curdir else join sep rel_list).

End PosixPath.

(** ** [pathlib.PurePosixPath] *)

Module Pathlib.
Import PyStr.

(** A parsed path: its root ([/], [//] or nothing) and its components. *)
Record Path : Type := mkPath { root : string; tail : list string }.

(** [posixpath.splitroot]: the root of a path string. *)
Definition splitroot (p : string) : string * string :=
  if negb (startswith "/" p) then (EmptyString, p)
  else if negb (startswith "/" (drop 1 p)) || startswith "/" (drop 2 p)
  then ("/", drop 1 p)
  else ("//", drop 2 p).

Definition keep_component (x : string) : bool :=
  negb (String.eqb x EmptyString) && negb (String.eqb x ".").

(** [Path(s)] *)
Definition parse (s : string) : Path :=
  let '(r, rel) := splitroot s in
  mkPath r (List.filter keep_component (split chr_slash rel)).

(** [str(p)] *)
Definition to_str (p : Path) : string :=
  match root p, tail p with
  | EmptyString, [] => "."
  | r, t => r ++ join "/" t
  end.

(** [p / seg]: a segment with a root replaces [p]; any other segment
    adds its components. *)
Definition truediv (p : Path) (seg : string) : Path :=
  if startswith "/" seg then parse seg
  else mkPath (root p) (tail p ++ tail (parse seg))%list.

(** [p.name] *)
Definition name (p : Path) : string := List.last (tail p) EmptyString.

(** [p.parent] *)
Definition parent (p : Path) : Path := mkPath (root p) (List.removelast (tail p)).

(** [p.stem]: the name without its last suffix. *)
Definition stem (p : Path) : string :=
  let n := name p in
  match rfind chr_dot n with
  | Some i =>
      if (0 <? i)%nat && (i <? String.length n - 1)%nat then take i n else n
  | None => n
  end.

Fixpoint strip_prefix (pre l : list string) : option (list string) :=
  match pre, l with
  | [], _ => Some l
  | a :: pre', b :: l' => if String.eqb a b then strip_prefix pre' l' else None
  | _ :: _, [] => None
  end.

(** [p.relative_to(other)]; [None] is the [ValueError] raised when
    [other] is not [p] or one of its parents. *)
Definition relative_to (p other : Path) : option Path :=
  if String.eqb (root p) (root other) then
    match strip_prefix (tail other) (tail p) with
    | Some t => Some (mkPath EmptyString t)
    | None => None
    end
  else None.

End Pathlib.

(** ** [datetime] and [strftime] *)

Module Datetime.

(** What [datetime.now()] returns: a reading of the local clock, without
    a time zone.  [fold] is set in the second of two passes of the clock
    through the same readings, as in the hour that is repeated when
    daylight saving time ends. *)
Record datetime : Type := mkDatetime {
  year : N; month : N; day : N;
  hour : N; minute : N; second : N; microsecond : N;
  fold : bool }.

(** The ranges the [datetime] constructor enforces. *)
Definition valid (d : datetime) : Prop :=
  (1 <= year d <= 9999 /\ 1 <= month d <= 12 /\ 1 <= day d <= 31
   /\ hour d < 24 /\ minute d < 60 /\ second d < 60
   /\ microsecond d < 1000000)%N.

Definition digit (n : N) : ascii := ascii_of_N (48 + n mod 10).

(** [%m], [%d], [%H], [%M], [%S]: two digits, zero-padded. *)
Definition pad2 (n : N) : string :=
  String (digit (n / 10)) (String (digit n) EmptyString).

(** [%Y] as glibc prints it: the digits of the year, without padding; a
    [datetime] has no year above 9999. *)
Definition year_str (n : N) : string :=
  if (n <? 10)%N then String (digit n) EmptyString
  else if (n <? 100)%N then pad2 n
  else if (n <? 1000)%N then String (digit (n / 100)) (pad2 n)
  else String (digit (n / 1000)) (String (digit (n / 100)) (pad2 n)).

(** [d.strftime('%Y%m%d_%H%M%S')] *)
Definition strftime_stamp (d : datetime) : string :=
  year_str (year d) ++ pad2 (month d) ++ pad2 (day d) ++ "_"
  ++ pad2 (hour d) ++ pad2 (minute d) ++ pad2 (second d).

(** Two readings that show the same second. *)
Definition same_second (a b : datetime) : Prop :=
  year a = year b /\ month a = month b /\ day a = day b
  /\ hour a = hour b /\ minute a = minute b /\ second a = second b.


End Datetime.

(** ** The world the program runs in *)

Module OS.
Import PyStr.

(** What a file holds: bytes, or the image of a QR code with its payload. *)
Inductive content : Type :=
| Raw (bytes : string)
| QrPng (payload : string).

Inductive node : Type :=
| Dir
| File (c : content).

(** [subprocess.CompletedProcess] *)
Record completed : Type := mkCompleted {
  returncode : Z; stdout : string; stderr : string }.

(** Exceptions by what [except Exception] catches: every [Exception]
    (with its [str]), and [SystemExit], which it lets through. *)
Inductive exn : Type :=
| Exception (msg : string)
| SystemExit (code : Z).

(** What the program does to the outside, with paths resolved; a
    subprocess is logged with the directory it ran in and its exit
    status. *)
Inductive event : Type :=
| Mkdir (p : list string)
| Chdir (p : list string)
| Spawn (dir : list string) (argv : list string) (rc : Z)
| WriteFile (p : list string) (c : content)
| Print (msg : string)
| Input (prompt : string).

(** The process and its surroundings.  Paths are lists of components
    from the root; [trace] is in order of time. *)
Record world : Type := mkWorld {
  cwd : list string;
  fs : gmap (list string) node;
  clock : Datetime.datetime;
  stdin : list string;
  trace : list event }.

(** What the model does not decide: what a subprocess answers (or that
    it cannot be started), and whether [qrcode] can hold a payload
    ([Some msg]: it raises [DataOverflowError] with that message). *)
Record env : Type := mkEnv {
  subprocess_run : list string -> world -> exn + completed;
  qr_overflow : string -> option string }.

Inductive outcome (A : Type) : Type :=
| Ok (a : A)
| Raise (e : exn).
Arguments Ok {A} a.
Arguments Raise {A} e.

(** State and exceptions. *)
Definition M (A : Type) : Type := world -> outcome A * world.

Definition ret {A} (a : A) : M A := fun w => (Ok a, w).

Definition bind {A B} (c : M A) (k : A -> M B) : M B :=
  fun w =>
    match c w with
    | (Ok a, w') => k a w'
    | (Raise e, w') => (Raise e, w')
    end.

Definition raise {A} (e : exn) : M A := fun w => (Raise e, w).

(** [try: c  except Exception as e: h(str(e))] *)
Definition try_except {A} (c : M A) (h : string -> M A) : M A :=
  fun w =>
    match c w with
    | (Raise (Exception msg), w') => h msg w'
    | r => r
    end.

(** [try: c  except: h] *)
Definition try_except_all {A} (c : M A) (h : M A) : M A :=
  fun w =>
    match c w with
    | (Raise _, w') => h w'
    | r => r
    end.

Definition emit (e : event) : M unit :=
  fun w => (Ok tt, mkWorld (cwd w) (fs w) (clock w) (stdin w) (trace w ++ [e])).

Definition set_fs (f : gmap (list string) node) (w : world) : world :=
  mkWorld (cwd w) f (clock w) (stdin w) (trace w).

Definition set_cwd (d : list string) (w : world) : world :=
  mkWorld d (fs w) (clock w) (stdin w) (trace w).

Definition log (e : event) (w : world) : world :=
  mkWorld (cwd w) (fs w) (clock w) (stdin w) (trace w ++ [e]).

(** One component of a path walked from [acc]. *)
Definition walk_step (acc : list string) (comp : string) : list string :=
  if String.eqb comp EmptyString || String.eqb comp "." then acc
  else if String.eqb comp ".." then List.removelast acc
  else (acc ++ [comp])%list.

(** The components a path string names, from the root. *)
Definition resolve (cwd : list string) (p : string) : list string :=
  fold_left walk_step (split chr_slash p)
            (if startswith "/" p then [] else cwd).

(** A list of components from the root as a path string. *)
Definition abs_str (l : list string) : string := "/" ++ join "/" l.

(** [os.getcwd()] *)
Definition getcwd (w : world) : string := abs_str (cwd w).

(** A path string that can only name a directory: it is empty, or ends
    in a slash, in [.] or in [..]. *)
Definition dir_syntax (p : string) : bool :=
  let l := List.last (split chr_slash p) EmptyString in
  String.eqb l EmptyString || String.eqb l "." || String.eqb l "..".

Definition is_dir (f : gmap (list string) node) (p : list string) : bool :=
  bool_decide (p = [])
  || match f !! p with Some Dir => true | _ => false end.

Definition quoted (p : string) : string := "'" ++ p ++ "'".
Definition enoent (p : string) : exn :=
  Exception ("[Errno 2] No such file or directory: " ++ quoted p).
Definition eexist (p : string) : exn :=
  Exception ("[Errno 17] File exists: " ++ quoted p).
Definition enotdir (p : string) : exn :=
  Exception ("[Errno 20] Not a directory: " ++ quoted p).
Definition eisdir (p : string) : exn :=
  Exception ("[Errno 21] Is a directory: " ++ quoted p).

(** The walk of the kernel along a path: every component is looked up
    in a directory, so what the walk stands on before a component, the
    empty one after a final slash included, must be one.  [Stuck true]:
    it stands on something that is not a directory ([ENOTDIR]);
    [Stuck false]: on nothing ([ENOENT]). *)
Inductive walked : Type :=
| At (a : list string)
| Stuck (on_file : bool).

Definition namei_step (f : gmap (list string) node) (st : walked)
    (comp : string) : walked :=
  match st with
  | At a =>
      if is_dir f a then At (walk_step a comp)
      else Stuck (bool_decide (is_Some (f !! a)))
  | Stuck b => Stuck b
  end.

Definition namei (f : gmap (list string) node) (cwd : list string)
    (p : string) : walked :=
  fold_left (namei_step f) (split chr_slash p)
            (At (if startswith "/" p then [] else cwd)).

(** The walk along [p] arrives. *)
Definition reached (w : world) (p : string) : bool :=
  match namei (fs w) (cwd w) p with
  | At _ => true
  | Stuck _ => false
  end.

(** The error of a walk along [p] that does not. *)
Definition blocked (w : world) (p : string) : option exn :=
  match namei (fs w) (cwd w) p with
  | At _ => None
  | Stuck true => Some (enotdir p)
  | Stuck false => Some (enoent p)
  end.

(** A system call on the path [p]: the walk first. *)
Definition along {A} (p : string) (c : M A) : M A :=
  fun w =>
    match blocked w p with
    | Some e => (Raise e, w)
    | None => c w
    end.

(** [print(msg)] *)
Definition print (msg : string) : M unit := emit (Print msg).

(** [input(prompt)]: the next line of standard input, or [EOFError]. *)
Definition input (prompt : string) : M string :=
  fun w =>
    match stdin w with
    | [] => (Raise (Exception "EOF when reading a line"), log (Input prompt) w)
    | l :: r =>
        (Ok l, mkWorld (cwd w) (fs w) (clock w) r (trace w ++ [Input prompt]))
    end.

(** [datetime.now()] *)
Definition now : M Datetime.datetime := fun w => (Ok (clock w), w).

(** Something is at [a]. *)
Definition present (f : gmap (list string) node) (a : list string) : bool :=
  is_dir f a || bool_decide (is_Some (f !! a)).

(** The walk along [p] arrives at something. *)
Definition exists_at (w : world) (p : string) : bool :=
  negb (String.eqb p EmptyString)
  && reached w p && present (fs w) (resolve (cwd w) p).

(** The walk along [p] arrives at a directory. *)
Definition isdir_at (w : world) (p : string) : bool :=
  reached w p && is_dir (fs w) (resolve (cwd w) p).

(** [os.path.exists(p)] *)
Definition path_exists (p : string) : M bool :=
  fun w => (Ok (exists_at w p), w).

(** [Path.mkdir(exist_ok=True)] on [str(path)] *)
Definition mkdir_exist_ok (p : string) : M unit :=
  along p (fun w =>
    let a := resolve (cwd w) p in
    if is_dir (fs w) a then (Ok tt, w)
    else match fs w !! a with
         | Some _ => (Raise (eexist p), w)
         | None =>
             if is_dir (fs w) (List.removelast a)
             then (Ok tt, log (Mkdir a) (set_fs (<[a := Dir]> (fs w)) w))
             else (Raise (enoent p), w)
         end).

(** [os.chdir(p)] *)
Definition chdir (p : string) : M unit :=
  along p (fun w =>
    let a := resolve (cwd w) p in
    if is_dir (fs w) a then (Ok tt, log (Chdir a) (set_cwd a w))
    else match fs w !! a with
         | Some _ => (Raise (enotdir p), w)
         | None => (Raise (enoent p), w)
         end).

(** Create or truncate the file at [p] and give it the content [c]:
    [open(p, 'w')] with its writes, and [image.save(p)]. *)
Definition write_file (p : string) (c : content) : M unit :=
  along p (fun w =>
    let a := resolve (cwd w) p in
    if String.eqb p EmptyString then (Raise (enoent p), w)
    else if dir_syntax p || is_dir (fs w) a then (Raise (eisdir p), w)
    else if is_dir (fs w) (List.removelast a)
    then (Ok tt, log (WriteFile a c) (set_fs (<[a := File c]> (fs w)) w))
    else (Raise (enoent p), w)).

(** [shutil.copy2(src, dst)] for a [dst] given as a [Path]: into [dst]
    when it is a directory; the same file on both sides is an error; the
    source is opened first. *)
Definition copy2 (src dst : string) : M unit :=
  fun w =>
    let dst' :=
      if isdir_at w dst
      then PosixPath.join2 dst (PosixPath.basename src) else dst in
    let shown :=
      if isdir_at w dst then quoted dst'
      else "PosixPath(" ++ quoted dst' ++ ")" in
    let s := resolve (cwd w) src in
    let d := resolve (cwd w) dst' in
    along src (fun w =>
      match fs w !! s with
      | Some (File c) =>
          if dir_syntax src then (Raise (enotdir src), w)
          else if reached w dst' && bool_decide (s = d)
          then (Raise (Exception (quoted src ++ " and " ++ shown
                                  ++ " are the same file")), w)
          else write_file dst' c w
      | Some Dir => (Raise (eisdir src), w)
      | None =>
          if bool_decide (s = []) then (Raise (eisdir src), w)
          else (Raise (enoent src), w)
      end) w.

(** [subprocess.run(command, capture_output=True, text=True)] *)
Definition run (E : env) (command : list string) : M completed :=
  fun w =>
    match subprocess_run E command w with
    | inl e => (Raise e, w)
    | inr r => (Ok r, log (Spawn (cwd w) command (returncode r)) w)
    end.

End OS.

Notation "x <- c ;; k" := (OS.bind c (fun x => k))
  (at level 100, c at next level, right associativity).
Notation "c ;; k" := (OS.bind c (fun _ => k))
  (at level 100, right associativity).

(** ** The program: class [GitLFSVideoShare] and [main] *)

Module VideoShare.
Import PyStr Pathlib OS.

(** The attributes of an instance. *)
Record GitLFSVideoShare : Type := mkSharer {
  repo_path : Path;
  videos_dir : Path;
  pages_dir : Path;
  github_pages_url : option string }.

(** The attributes [__init__] sets for the repository at [p]. *)
Definition sharer_at (p : Path) (url : option string) : GitLFSVideoShare :=
  mkSharer p (truediv p "videos") (truediv p "pages") url.

(** The dictionary [share_video] returns. *)
Record share_info : Type := mkInfo {
  info_video_path : string;
  info_page_path : string;
  info_page_url : string;
  info_qr_path : string }.

(** What [.gitattributes] is given. *)
Definition gitattributes : string :=
  "*.mp4 filter=lfs diff=lfs merge=lfs -text" ++ nl
  ++ "*.mkv filter=lfs diff=lfs merge=lfs -text" ++ nl
  ++ "*.mov filter=lfs diff=lfs merge=lfs -text" ++ nl.

(** The lines of the page template, between the triple quotes. *)
Definition html_lines (title video_relative_path : string) : list string :=
  [ EmptyString;
    "<!DOCTYPE html>";
    "<html lang=" ++ dq ++ "zh-CN" ++ dq ++ ">";
    "<head>";
    "    <meta charset=" ++ dq ++ "UTF-8" ++ dq ++ ">";
    "    <meta name=" ++ dq ++ "viewport" ++ dq ++ " content=" ++ dq ++ "width=device-width, initial-scale=1.0" ++ dq ++ ">";
    "    <title>" ++ title ++ "</title>";
    "    <style>";
    "        body {";
    "            margin: 0;";
    "            padding: 0;";
    "            background: #000;";
    "            display: flex;";
    "            flex-direction: column;";
    "            justify-content: center;";
    "            align-items: center;";
    "            min-height: 100vh;";
    "            color: #fff;";
    "            font-family: system-ui, -apple-system, sans-serif;";
    "        }";
    "        .video-container {";
    "            width: 100%;";
    "            max-width: 1920px;";
    "            margin: 20px auto;";
    "            padding: 0 20px;";
    "            box-sizing: border-box;";
    "        }";
    "        video {";
    "            width: 100%;";
    "            max-height: 85vh;";
    "            background: #000;";
    "        }";
    "        h1 {";
    "            margin: 20px;";
    "            font-size: 24px;";
    "            text-align: center;";
    "        }";
    "    </style>";
    "</head>";
    "<body>";
    "    <h1>" ++ title ++ "</h1>";
    "    <div class=" ++ dq ++ "video-container" ++ dq ++ ">";
    "        <video controls preload=" ++ dq ++ "metadata" ++ dq ++ ">";
    "            <source src=" ++ dq ++ "/" ++ video_relative_path ++ dq ++ " type=" ++ dq ++ "video/mp4" ++ dq ++ ">";
    "            您的浏览器不支持视频播放。";
    "        </video>";
    "    </div>";
    "</body>";
    "</html>";
    EmptyString ].

(** [html_content] of [create_player_page] *)
Definition html_content (title video_relative_path : string) : string :=
  join nl (html_lines title video_relative_path).


(** [page_name] of [create_player_page] *)
Definition page_name (d : Datetime.datetime) (title : string) : string :=
  Datetime.strftime_stamp d ++ "_" ++ stem (parse title) ++ ".html".

(** The file name of the QR image. *)
Definition qr_name (video_name : string) : string :=
  stem (parse video_name) ++ "_qr.png".

(** [f"{self.github_pages_url}"] *)
Definition fmt_url (u : option string) : string :=
  match u with
  | Some s => s
  | None => "None"
  end.

(** [page_url] of [share_video] *)
Definition page_url_of (u : option string) (page_relative_path : Path) : string :=
  fmt_url u ++ "/" ++ to_str page_relative_path.

(** The rewriting of the remote URL in [_get_github_url]. *)
Definition pages_url_of_remote (stdout : string) : string :=
  let url := strip stdout in
  let url := if endswith ".git" url then drop_last 4 url else url in
  let url :=
    if startswith "git@github.com:" url then "https://" ++ drop 15 url
    else url in
  replace "github.com" "github.io" url.

Definition cmd_git_init : list string := ["git"; "init"].
Definition cmd_git_lfs_install : list string := ["git"; "lfs"; "install"].
Definition cmd_git_config : list string :=
  ["git"; "config"; "--get"; "remote.origin.url"].
Definition cmd_git_add : list string := ["git"; "add"; "."].
Definition cmd_git_commit (video_name : string) : list string :=
  ["git"; "commit"; "-m"; "Add video: " ++ video_name].

Definition prompt_repo : string := "请输入GitHub仓库本地路径: ".
Definition prompt_url : string :=
  "请输入GitHub Pages URL (格式: https://username.github.io/repo): ".
Definition prompt_video : string :=
  nl ++ "请输入视频文件路径（直接拖入文件即可）: ".
Definition msg_missing : string := "错误：文件不存在！".

Section Program.
Context (E : env).

(** [_run_command] *)
Definition _run_command (command : list string) : M string :=
  result <- run E command ;;
  if negb (returncode result =? 0)%Z
  then raise (Exception ("命令失败: " ++ stderr result))
  else ret (strip (stdout result)).

(** [_get_github_url] *)
Definition _get_github_url : M string :=
  r <- try_except_all
         (result <- run E cmd_git_config ;;
          if (returncode result =? 0)%Z
          then ret (Some (pages_url_of_remote (stdout result)))
          else ret None)
         (ret None) ;;
  match r with
  | Some url => ret url
  | None => line <- input prompt_url ;; ret (strip line)
  end.

(** [setup_repository] *)
Definition setup_repository (self : GitLFSVideoShare) : M GitLFSVideoShare :=
  try_except
    (mkdir_exist_ok (to_str (videos_dir self)) ;;
     mkdir_exist_ok (to_str (pages_dir self)) ;;
     chdir (to_str (repo_path self)) ;;
     initialised <- path_exists (to_str (truediv (repo_path self) ".git")) ;;
     (if negb initialised
      then
        print "初始化Git仓库..." ;;
        _run_command cmd_git_init ;;
        write_file ".gitattributes" (Raw gitattributes) ;;
        _run_command cmd_git_lfs_install ;;
        ret tt
      else ret tt) ;;
     url <- _get_github_url ;;
     ret (mkSharer (repo_path self) (videos_dir self) (pages_dir self)
                   (Some url)))
    (fun msg => print ("仓库设置失败: " ++ msg) ;; raise (SystemExit 1)).

(** [__init__] *)
Definition init (repo_path : string) : M GitLFSVideoShare :=
  setup_repository (sharer_at (parse repo_path) None).

(** [create_player_page] *)
Definition create_player_page (self : GitLFSVideoShare) (video_path : Path)
    (title : string) : M Path :=
  here <- (fun w => (Ok (getcwd w), w)) ;;
  match PosixPath.relpath here (to_str video_path) (to_str (repo_path self)) with
  | None => raise (Exception "no path specified")
  | Some video_relative_path =>
      timestamp <- now ;;
      let page_path := truediv (pages_dir self) (page_name timestamp title) in
      write_file (to_str page_path)
                 (Raw (html_content title video_relative_path)) ;;
      ret page_path
  end.

(** The body of the [try] of [share_video]. *)
Definition share_video_body (self : GitLFSVideoShare) (video_path : string)
    : M share_info :=
  let video_name := name (parse video_path) in
  let target_path := truediv (videos_dir self) video_name in
  copy2 video_path (to_str target_path) ;;
  page_path <- create_player_page self target_path video_name ;;
  match relative_to page_path (repo_path self) with
  | None =>
      raise (Exception (quoted (to_str page_path) ++ " is not in the subpath of "
                        ++ quoted (to_str (repo_path self))))
  | Some page_relative_path =>
      let page_url := page_url_of (github_pages_url self) page_relative_path in
      match qr_overflow E page_url with
      | Some msg => raise (Exception msg)
      | None =>
          let qr_path :=
            truediv (truediv (repo_path self) "qrcodes") (qr_name video_name) in
          mkdir_exist_ok (to_str (parent qr_path)) ;;
          write_file (to_str qr_path) (QrPng page_url) ;;
          _run_command cmd_git_add ;;
          _run_command (cmd_git_commit video_name) ;;
          ret (mkInfo (to_str target_path) (to_str page_path) page_url
                      (to_str qr_path))
      end
  end.

(** [share_video] *)
Definition share_video (self : GitLFSVideoShare) (video_path : string)
    : M share_info :=
  try_except (share_video_body self video_path)
             (fun msg => raise (Exception ("分享失败: " ++ msg))).

(** What [main] does once the sharer exists. *)
Definition main_share (sharer : GitLFSVideoShare) : M unit :=
  line <- input prompt_video ;;
  let video_path := strip_char chr_dq (strip line) in
  found <- path_exists video_path ;;
  if negb found then print msg_missing
  else
    print (nl ++ "处理中...") ;;
    info <- share_video sharer video_path ;;
    print (nl ++ "=== 分享成功！===") ;;
    print ("视频路径: " ++ info_video_path info) ;;
    print ("播放页面: " ++ info_page_path info) ;;
    print ("访问地址: " ++ info_page_url info) ;;
    print ("二维码位置: " ++ info_qr_path info) ;;
    print (nl ++ "注意：需要手动push到GitHub并启用GitHub Pages才能访问") ;;
    print "1. git push origin main" ;;
    print "2. 在GitHub仓库设置中启用GitHub Pages".

(** [main] *)
Definition main : M unit :=
  print ("=== GitHub LFS 视频分享工具 ===" ++ nl) ;;
  line <- input prompt_repo ;;
  let repo_path := strip line in
  try_except
    (sharer <- init repo_path ;; main_share sharer)
    (fun msg => print (nl ++ "错误：" ++ msg)).

End Program.

End VideoShare.

(** ** Fixed worlds, for running the program *)

Module Scenario.
Import PyStr OS VideoShare Datetime.

(** A [git] whose commands all succeed; [git config --get
    remote.origin.url] prints [remote], or fails when there is none. *)
Definition git_ok (remote : option string) : env :=
  mkEnv
    (fun command _ =>
       if bool_decide (command = cmd_git_config) then
         match remote with
         | Some url => inr (mkCompleted 0 (url ++ nl) EmptyString)
         | None => inr (mkCompleted 1 EmptyString EmptyString)
         end
       else inr (mkCompleted 0 EmptyString EmptyString))
    (fun _ => None).

(** A [git] whose [git add] fails. *)
Definition git_add_fails : env :=
  mkEnv
    (fun command _ =>
       if bool_decide (command = cmd_git_add)
       then inr (mkCompleted 128 EmptyString "fatal: index locked")
       else inr (mkCompleted 0 EmptyString EmptyString))
    (fun _ => None).

Definition t0 : datetime := mkDatetime 2024 1 2 3 4 5 0 false.
Definition t1 : datetime := mkDatetime 2024 1 2 3 4 6 0 false.


(** [/home/u] with three videos and an empty directory [myrepo]. *)
Definition home_fs : gmap (list string) node :=
  <[ ["home"; "u"; "clip.mp4"] := File (Raw "VIDEO") ]>
    (<[ ["home"; "u"; "talk.mkv"] := File (Raw "MATROSKA") ]>
       (<[ ["home"; "u"; "clip.mov"] := File (Raw "QUICKTIME") ]>
          (<[ ["home"; "u"; "myrepo"] := Dir ]>
             (<[ ["home"; "u"] := Dir ]> (<[ ["home"] := Dir ]> ∅))))).

(** The same once the tool has set [myrepo] up and [git init] has run;
    the operator has since edited [.gitattributes]. *)
Definition initialised_fs : gmap (list string) node :=
  <[ ["home"; "u"; "myrepo"; ".gitattributes"] := File (Raw "*.mp4 -text") ]>
    (<[ ["home"; "u"; "myrepo"; ".git"] := Dir ]>
       (<[ ["home"; "u"; "myrepo"; "pages"] := Dir ]>
          (<[ ["home"; "u"; "myrepo"; "videos"] := Dir ]> home_fs))).

Definition fresh (lines : list string) : world :=
  mkWorld ["home"; "u"] home_fs t0 lines [].

Definition initialised (lines : list string) : world :=
  mkWorld ["home"; "u"] initialised_fs t0 lines [].

(** The sharer [init] returns for [/home/u/myrepo] and a pages URL. *)
Definition sharer0 : GitLFSVideoShare :=
  sharer_at (Pathlib.parse "/home/u/myrepo") (Some "https://alice.github.io/demo").

(** Inside the repository, set up, at clock reading [t]. *)
Definition in_repo (t : datetime) (f : gmap (list string) node) : world :=
  mkWorld ["home"; "u"; "myrepo"] f t [] [].

Definition set_clock (t : datetime) (w : world) : world :=
  mkWorld (cwd w) (fs w) t (stdin w) (trace w).

(** The dictionary of an outcome, if it has one. *)
Definition info_of (r : outcome share_info) : share_info :=
  match r with
  | Ok i => i
  | Raise _ => mkInfo EmptyString EmptyString EmptyString EmptyString
  end.

(** The sharer of an outcome, if it has one. *)
Definition sharer_of (r : outcome GitLFSVideoShare) : GitLFSVideoShare :=
  match r with
  | Ok s => s
  | Raise _ => sharer_at (Pathlib.parse EmptyString) None
  end.

(** The events a run added to the trace of [w]. *)
Definition added (w w' : world) : list event :=
  List.skipn (length (trace w)) (trace w').

(** The same world with [lines] waiting on standard input. *)
Definition typed (lines : list string) (w : world) : world :=
  mkWorld (cwd w) (fs w) (clock w) lines (trace w).

(** The repository with [clip.mp4] already in [videos/]. *)
Definition shared_fs : gmap (list string) node :=
  <[ ["home"; "u"; "myrepo"; "videos"; "clip.mp4"] := File (Raw "VIDEO") ]>
    initialised_fs.


End Scenario.

(** ** Shapes of names and paths *)

Module Shape.
Import PyStr Pathlib.

(** What [pathlib] keeps as a component: not empty, not [.], no slash. *)
Definition component (x : string) : Prop :=
  x <> EmptyString /\ x <> "." /\ has_char chr_slash x = false.

(** A component that is a file name: not [..] either. *)
Definition regular (x : string) : Prop :=
  component x /\ x <> "..".

(** The paths [parse] gives. *)
Definition wf_path (p : Path) : Prop :=
  (root p = EmptyString \/ root p = "/" \/ root p = "//")
  /\ Forall component (tail p).

(** The components [normpath] is left with after [l], from [acc]. *)
Definition stack (k : nat) (l acc : list string) : list string :=
  fold_left (PosixPath.normpath_step k) l acc.

(** The components [resolve] is left with after [l], from [acc]. *)
Definition walk (l acc : list string) : list string :=
  fold_left OS.walk_step l acc.

(** Where [resolve] starts from for a parsed path. *)
Definition base_of (cwd : list string) (p : Path) : list string :=
  if String.eqb (root p) EmptyString then cwd else [].

(** The stamp: the date, an underscore, the six digits of the time. *)
Definition stamp_date (d : Datetime.datetime) : string :=
  Datetime.year_str (Datetime.year d) ++ Datetime.pad2 (Datetime.month d)
  ++ Datetime.pad2 (Datetime.day d).

Definition stamp_time (d : Datetime.datetime) : string :=
  Datetime.pad2 (Datetime.hour d) ++ Datetime.pad2 (Datetime.minute d)
  ++ Datetime.pad2 (Datetime.second d).

End Shape.

(** ** What a share that succeeds leaves behind *)

Module Expected.
Import PyStr Pathlib OS VideoShare.

(** Where the copy of the video lands below the repository [r]: in
    [videos/], or, when a directory of its name is already there,
    inside that directory. *)
Definition video_target (r : list string) (n : string) (nested : bool)
    : list string :=
  (r ++ ["videos"; n] ++ (if nested then [n] else []))%list.

Definition page_target (r : list string) (d : Datetime.datetime) (n : string)
    : list string :=
  (r ++ ["pages"; page_name d n])%list.

Definition qr_dir (r : list string) : list string := (r ++ ["qrcodes"])%list.

Definition qr_target (r : list string) (n : string) : list string :=
  (r ++ ["qrcodes"; qr_name n])%list.

(** The page's path from the repository root, as a string. *)
Definition page_rel (d : Datetime.datetime) (n : string) : string :=
  "pages" ++ "/" ++ page_name d n.

(** The video's path from the repository root, as a string. *)
Definition video_rel (n : string) : string := "videos" ++ "/" ++ n.

Definition page_url (u : option string) (d : Datetime.datetime) (n : string)
    : string :=
  fmt_url u ++ "/" ++ page_rel d n.

Definition page_html (n : string) : string := html_content n (video_rel n).

(** The events of a share of the video named [n] with content [c],
    run in [here] for the repository [r]; [made] tells whether
    [qrcodes/] had to be created. *)
Definition share_events (r here : list string) (u : option string)
    (d : Datetime.datetime) (n : string) (c : content) (nested made : bool)
    : list event :=
  ([WriteFile (video_target r n nested) c;
    WriteFile (page_target r d n) (Raw (page_html n))]
   ++ (if made then [Mkdir (qr_dir r)] else [])
   ++ [WriteFile (qr_target r n) (QrPng (page_url u d n));
       Spawn here cmd_git_add 0;
       Spawn here (cmd_git_commit n) 0])%list.

(** The file system after that share. *)
Definition share_fs (r : list string) (u : option string)
    (d : Datetime.datetime) (n : string) (c : content) (nested made : bool)
    (f : gmap (list string) node) : gmap (list string) node :=
  <[qr_target r n := File (QrPng (page_url u d n))]>
    ((if made then <[qr_dir r := Dir]> else id)
       (<[page_target r d n := File (Raw (page_html n))]>
          (<[video_target r n nested := File c]> f))).

(** The path whose existence [setup_repository] takes for the sign of
    an initialised repository, resolved in the directory [r] it has
    changed to. *)
Definition git_dir_checked (r : list string) (p : Path) : list string :=
  resolve r (to_str (truediv p ".git")).

(** What [setup_repository] does when it does not find that path. *)
Definition fresh_events (r : list string) : list event :=
  [Print "初始化Git仓库...";
   Spawn r cmd_git_init 0;
   WriteFile (r ++ [".gitattributes"])%list (Raw gitattributes);
   Spawn r cmd_git_lfs_install 0].

(** The events of [_get_github_url], run in [r]. *)
Definition url_event (r : list string) (e : event) : Prop :=
  e = Input prompt_url \/ exists rc, e = Spawn r cmd_git_config rc.

(** The events of a [_get_github_url] that returns, run in [r]: the
    command gives the URL; or it fails, or cannot be started, and the
    operator is asked. *)
Definition url_lookup (r : list string) (evs : list event) : Prop :=
  evs = [Spawn r cmd_git_config 0]
  \/ (exists rc, rc <> 0%Z /\ evs = [Spawn r cmd_git_config rc; Input prompt_url])
  \/ evs = [Input prompt_url].

Definition mkdir_events (made : bool) (a : list string) : list event :=
  if made then [Mkdir a] else [].

(** The events of a [setup_repository] that succeeds, started in [r0]
    for the repository [r]. *)
Definition setup_events (r : list string) (made_videos made_pages fresh : bool)
    (evs_url : list event) : list event :=
  (mkdir_events made_videos (r ++ ["videos"])
   ++ mkdir_events made_pages (r ++ ["pages"])
   ++ [Chdir r]
   ++ (if fresh then fresh_events r else [])
   ++ evs_url)%list.

(** The world once [main] has printed its banner and read the
    repository path, the lines [rest] still to be read. *)
Definition started (w : world) (rest : list string) : world :=
  mkWorld (cwd w) (fs w) (clock w) rest
          (trace w ++ [Print ("=== GitHub LFS 视频分享工具 ===" ++ nl);
                       Input prompt_repo])%list.

(** The dictionary that share returns, for the repository path [p]. *)
Definition share_result (p : Path) (u : option string)
    (d : Datetime.datetime) (n : string) : share_info :=
  mkInfo (to_str (mkPath (root p) (tail p ++ ["videos"; n])))
         (to_str (mkPath (root p) (tail p ++ ["pages"; page_name d n])))
         (page_url u d n)
         (to_str (mkPath (root p) (tail p ++ ["qrcodes"; qr_name n]))).

End Expected.

(** ** What a run leaves in the trace *)

Module Trace.
Import OS.

(** The events a computation adds from [w], and its outcome. *)
Definition events_of {A} (c : M A) (w : world) (evs : list event) : Prop :=
  trace (snd (c w)) = (trace w ++ evs)%list.

(** The files written, in order. *)
Definition writes (evs : list event) : list (list string * content) :=
  omap (fun e => match e with WriteFile p c => Some (p, c) | _ => None end) evs.

(** The commands run, in order, each with its directory and exit status. *)
Definition spawns (evs : list event) : list (list string * list string * Z) :=
  omap (fun e => match e with Spawn d a rc => Some (d, a, rc) | _ => None end) evs.

(** The directories created, in order. *)
Definition mkdirs (evs : list event) : list (list string) :=
  omap (fun e => match e with Mkdir p => Some p | _ => None end) evs.

(** No command of the event failed. *)
Definition spawn_ok (e : event) : Prop :=
  match e with
  | Spawn _ _ rc => rc = 0%Z
  | _ => True
  end.

Definition quiet (evs : list event) : Prop := Forall spawn_ok evs.

(** [evs] ends with a failed command, the only one that failed. *)
Definition ends_failed (evs : list event) : Prop :=
  exists evs0 d cmd rc,
    evs = (evs0 ++ [Spawn d cmd rc])%list /\ quiet evs0 /\ rc <> 0%Z.

(** A computation in which a failed command is the last thing that
    happens, and raises. *)
Definition failfast {A} (c : M A) : Prop :=
  forall w, exists evs,
    events_of c w evs
    /\ (quiet evs
        \/ (ends_failed evs /\ exists msg, fst (c w) = Raise (Exception msg))).

(** The event happens in directory [d] and does not leave it. *)
Definition local (d : list string) (e : event) : Prop :=
  match e with
  | Spawn d' _ _ => d' = d
  | Chdir _ => False
  | _ => True
  end.

(** A computation that stays in the directory it starts in. *)
Definition stays {A} (c : M A) : Prop :=
  forall w,
    cwd (snd (c w)) = cwd w
    /\ exists evs, events_of c w evs /\ Forall (local (cwd w)) evs.

(** A directory stays a directory and a file a file. *)
Definition same_kind (x y : node) : bool :=
  match x, y with
  | Dir, Dir => true
  | File _, File _ => true
  | _, _ => false
  end.

(** A computation that removes nothing: what is at a path when it
    starts is still there when it ends, as a directory or as a file. *)
Definition keeps_nodes {A} (c : M A) : Prop :=
  forall w a x,
    fs w !! a = Some x ->
    exists y, fs (snd (c w)) !! a = Some y /\ same_kind x y = true.

(** The commands the program has. *)
Definition own_command (argv : list string) : Prop :=
  argv = VideoShare.cmd_git_init
  \/ argv = VideoShare.cmd_git_lfs_install
  \/ argv = VideoShare.cmd_git_config
  \/ argv = VideoShare.cmd_git_add
  \/ exists video_name, argv = VideoShare.cmd_git_commit video_name.

Definition own_event (e : event) : Prop :=
  match e with
  | Spawn _ argv _ => own_command argv
  | _ => True
  end.

(** A computation that runs no other command. *)
Definition owned {A} (c : M A) : Prop :=
  forall w, exists evs, events_of c w evs /\ Forall own_event evs.

(** A computation that leaves a file wherever it has written one. *)
Definition leaves_files {A} (c : M A) : Prop :=
  forall w, exists evs,
    events_of c w evs
    /\ forall q c0, In (WriteFile q c0) evs ->
                    exists c1, fs (snd (c w)) !! q = Some (File c1).

End Trace.

(** * Facts *)

(** ** Strings *)

Section StrFacts.
Import PyStr.

Lemma append_nil_r (s : string) : s ++ EmptyString = s.
Proof. induction s; simpl; congruence. Qed.

Lemma append_assoc (a b c : string) : (a ++ b) ++ c = a ++ b ++ c.
Proof. induction a; simpl; congruence. Qed.

Lemma append_length (a b : string) :
  String.length (a ++ b) = (String.length a + String.length b)%nat.
Proof. induction a; simpl; congruence. Qed.

Lemma append_inv_same_length (a a' b b' : string) :
  String.length a = String.length a' -> a ++ b = a' ++ b' -> a = a' /\ b = b'.
Proof.
  revert a'. induction a as [|c a IH]; intros [|c' a'] Hl H;
    simpl in *; try discriminate; [easy|].
  injection H as -> H. injection Hl as Hl.
  destruct (IH _ Hl H) as [-> ->]. easy.
Qed.

Lemma append_inv_head (a b b' : string) : a ++ b = a ++ b' -> b = b'.
Proof. intros H. now apply (append_inv_same_length a a b b'). Qed.

Lemma append_inv_tail (a a' b : string) : a ++ b = a' ++ b -> a = a'.
Proof.
  intros H. apply (append_inv_same_length a a' b b); [|exact H].
  apply (f_equal String.length) in H. rewrite !append_length in H. lia.
Qed.






Lemma split_not_nil (c : ascii) (s : string) : split c s <> [].
Proof.
  destruct s as [|a r]; simpl; [easy|].
  destruct (Ascii.eqb a c); [easy|]. now destruct (split c r).
Qed.

Lemma split_app_sep (c : ascii) (a b : string) :
  split c (a ++ String c b) = (split c a ++ split c b)%list.
Proof.
  induction a as [|x a IH]; simpl.
  - now rewrite Ascii.eqb_refl.
  - destruct (Ascii.eqb x c); [now rewrite IH|].
    rewrite IH. pose proof (split_not_nil c a). now destruct (split c a).
Qed.

Lemma split_no_sep (c : ascii) (s : string) :
  has_char c s = false -> split c s = [s].
Proof.
  induction s as [|x s IH]; simpl; [easy|].
  intros [Hx Hs]%orb_false_elim. rewrite Hx, (IH Hs). easy.
Qed.

Lemma split_parts_no_sep (c : ascii) (s : string) :
  Forall (fun x => has_char c x = false) (split c s).
Proof.
  induction s as [|x s IH]; simpl; [now repeat constructor|].
  destruct (Ascii.eqb x c) eqn:Hx; [now constructor|].
  pose proof (split_not_nil c s). destruct (split c s) as [|h t]; [easy|].
  inversion IH; subst. constructor; [|easy]. simpl. now rewrite Hx.
Qed.

Lemma split_join (c : ascii) (l : list string) :
  l <> [] -> Forall (fun x => has_char c x = false) l ->
  split c (join (String c EmptyString) l) = l.
Proof.
  induction l as [|x l IH]; [easy|]. intros _ H. inversion H; subst.
  destruct l as [|y l]; [now apply split_no_sep|].
  change (split c (x ++ String c (join (String c EmptyString) (y :: l))) = x :: y :: l).
  rewrite split_app_sep, split_no_sep by easy.
  rewrite IH by easy. reflexivity.
Qed.

Lemma lstrip_char_cons (c : ascii) (s : string) :
  lstrip_char c (String c s) = lstrip_char c s.
Proof. unfold lstrip_char. simpl. now rewrite Ascii.eqb_refl. Qed.

Lemma lstrip_char_id (c : ascii) (s : string) :
  startswith (String c EmptyString) s = false -> lstrip_char c s = s.
Proof.
  unfold lstrip_char. destruct s as [|a r]; simpl; [easy|].
  rewrite andb_true_r. now intros ->.
Qed.

Lemma startswith_cons_no (c : ascii) (s : string) :
  has_char c s = false -> startswith (String c EmptyString) s = false.
Proof.
  destruct s as [|a r]; [easy|]. simpl.
  intros [Ha _]%orb_false_elim. rewrite andb_true_r.
  now rewrite Ascii.eqb_sym.
Qed.

End StrFacts.

(** ** The time stamp *)

Section StampFacts.
Import PyStr Datetime Shape.





Lemma digit_code (n : N) : N_of_ascii (digit n) = (48 + n mod 10)%N.
Proof.
  unfold digit. apply N_ascii_embedding.
  assert (Hd : (n mod 10 < 10)%N) by (apply N.mod_lt; lia).
  generalize dependent (n mod 10)%N. intros; lia.
Qed.

(** A digit is no other character. *)
Lemma digit_not (n : N) (c : ascii) :
  (N_of_ascii c < 48 \/ 57 < N_of_ascii c)%N -> Ascii.eqb (digit n) c = false.
Proof.
  intros Hc. apply Ascii.eqb_neq. intros E. apply (f_equal N_of_ascii) in E.
  rewrite digit_code in E.
  assert (Hd : (n mod 10 < 10)%N) by (apply N.mod_lt; lia).
  generalize dependent (n mod 10)%N. generalize dependent (N_of_ascii c).
  intros; lia.
Qed.

Lemma year_str_length (n : N) : (String.length (year_str n) <= 4)%nat.
Proof. unfold year_str. repeat destruct (_ <? _)%N; cbn; lia. Qed.

Lemma stamp_parts (d : datetime) :
  strftime_stamp d = stamp_date d ++ "_" ++ stamp_time d.
Proof. unfold strftime_stamp, stamp_date. now rewrite !append_assoc. Qed.

Lemma stamp_date_digits (d : datetime) (c : ascii) :
  (N_of_ascii c < 48 \/ 57 < N_of_ascii c)%N -> has_char c (stamp_date d) = false.
Proof.
  intros Hc. unfold stamp_date, year_str, pad2.
  repeat destruct (_ <? _)%N; cbn [String.append has_char];
    now rewrite !(digit_not _ _ Hc).
Qed.

Lemma stamp_time_digits (d : datetime) (c : ascii) :
  (N_of_ascii c < 48 \/ 57 < N_of_ascii c)%N -> has_char c (stamp_time d) = false.
Proof.
  intros Hc. unfold stamp_time, pad2. cbn [String.append has_char].
  now rewrite !(digit_not _ _ Hc).
Qed.

(** Two strings cut at the first occurrence of a character. *)
Lemma cut_at_first (c : ascii) (x1 x2 y1 y2 : string) :
  has_char c x1 = false -> has_char c x2 = false ->
  x1 ++ String c y1 = x2 ++ String c y2 -> x1 = x2 /\ y1 = y2.
Proof.
  revert x2. induction x1 as [|a x1 IH]; intros [|b x2] H1 H2 H;
    cbn [String.append has_char] in *.
  - now injection H.
  - injection H as <- _. now rewrite Ascii.eqb_refl in H2.
  - injection H as -> _. now rewrite Ascii.eqb_refl in H1.
  - injection H as -> H. apply orb_false_elim in H1 as [_ H1].
    apply orb_false_elim in H2 as [_ H2].
    destruct (IH _ H1 H2 H) as [-> ->]. easy.
Qed.

Lemma underscore_no_digit :
  (N_of_ascii "_" < 48 \/ 57 < N_of_ascii "_")%N.
Proof. right. cbn. lia. Qed.

(** Stamps followed by anything are equal only when the stamps are. *)
Lemma stamp_prefix_inv (d1 d2 : datetime) (x1 x2 : string) :
  strftime_stamp d1 ++ x1 = strftime_stamp d2 ++ x2 ->
  strftime_stamp d1 = strftime_stamp d2 /\ x1 = x2.
Proof.
  rewrite !stamp_parts, !append_assoc. intros H.
  apply (cut_at_first "_") in H as [Hd H];
    [|apply stamp_date_digits, underscore_no_digit..].
  apply append_inv_same_length in H as [Ht H]; [|reflexivity].
  now rewrite Hd, Ht, H.
Qed.



End StampFacts.


(** ** [pathlib] *)

Section PathFacts.
Import PyStr Pathlib Shape.

Lemma take_drop (n : nat) (s : string) : take n s ++ drop n s = s.
Proof.
  revert s. induction n as [|n IH]; intros [|c s]; simpl; try easy.
  now rewrite IH.
Qed.

Lemma startswith_slash_inv (s : string) :
  startswith "/" s = true -> s = "/" ++ drop 1 s.
Proof.
  destruct s as [|c s]; cbn [startswith]; [easy|]. rewrite andb_true_r.
  now intros <-%Ascii.eqb_eq.
Qed.

Lemma component_no_leading_slash (x : string) :
  component x -> startswith "/" x = false.
Proof. intros (_ & _ & Hs). now apply (startswith_cons_no chr_slash). Qed.

Lemma last_split_cons_sep (c : ascii) (s : string) :
  List.last (split c (String c s)) EmptyString = List.last (split c s) EmptyString.
Proof.
  simpl. rewrite Ascii.eqb_refl. pose proof (split_not_nil c s).
  now destruct (split c s).
Qed.

Lemma last_filter_keep {A} (f : A -> bool) (l : list A) (d : A) :
  l <> [] -> f (List.last l d) = true ->
  List.last (List.filter f l) d = List.last l d.
Proof.
  induction l as [|x l IH]; [easy|]. intros _ Hf.
  destruct l as [|y l]; [simpl in *; now rewrite Hf|].
  change (List.last (x :: y :: l) d) with (List.last (y :: l) d) in *.
  specialize (IH ltac:(easy) Hf).
  change (List.filter f (x :: y :: l))
    with (if f x then x :: List.filter f (y :: l) else List.filter f (y :: l)).
  destruct (f x); [|exact IH].
  destruct (List.filter f (y :: l)) eqn:E; [|exact IH].
  exfalso. assert (Hin : In (List.last (y :: l) d) (List.filter f (y :: l))).
  { apply filter_In. split; [|exact Hf].
    destruct (exists_last (l:=y :: l) ltac:(easy)) as (l' & z & ->).
    rewrite last_last. apply in_or_app. right. now left. }
  now rewrite E in Hin.
Qed.

Lemma last_split_rel (s : string) :
  List.last (split chr_slash (snd (splitroot s))) EmptyString
  = List.last (split chr_slash s) EmptyString.
Proof.
  unfold splitroot. destruct (startswith "/" s) eqn:H1; cbn [negb snd]; [|easy].
  pose proof (startswith_slash_inv _ H1) as E1.
  destruct (negb (startswith "/" (drop 1 s)) || startswith "/" (drop 2 s)) eqn:H2;
    cbn [snd].
  - rewrite E1 at 2. symmetry. apply (last_split_cons_sep chr_slash).
  - apply orb_false_elim in H2 as [H2 _]. apply negb_false_iff in H2.
    pose proof (startswith_slash_inv _ H2) as E2.
    assert (E3 : drop 2 s = drop 1 (drop 1 s))
      by (destruct s as [|a [|b s]]; reflexivity).
    rewrite E1 at 2. rewrite E2. rewrite E3.
    change ("/" ++ "/" ++ drop 1 (drop 1 s))
      with (String chr_slash (String chr_slash (drop 1 (drop 1 s)))).
    now rewrite !last_split_cons_sep.
Qed.

Lemma parse_wf (s : string) : wf_path (parse s).
Proof.
  unfold parse, wf_path.
  destruct (splitroot s) as [r rel] eqn:E. simpl. split.
  - unfold splitroot in E.
    destruct (negb (startswith "/" s)); [injection E as <- _; auto|].
    destruct (_ || _); injection E as <- _; auto.
  - apply List.Forall_forall. intros x [Hin Hk]%filter_In.
    pose proof (split_parts_no_sep chr_slash rel) as Hs.
    rewrite List.Forall_forall in Hs. specialize (Hs _ Hin).
    unfold keep_component in Hk. apply andb_prop in Hk as [Hk1 Hk2].
    apply negb_true_iff in Hk1, Hk2.
    apply String.eqb_neq in Hk1, Hk2. easy.
Qed.

Lemma parse_component (x : string) : component x -> parse x = mkPath EmptyString [x].
Proof.
  intros Hx. pose proof (component_no_leading_slash _ Hx) as Hs.
  destruct Hx as (Hne & Hdot & Hsl).
  unfold parse, splitroot. rewrite Hs. simpl.
  rewrite split_no_sep by exact Hsl. simpl. unfold keep_component.
  apply String.eqb_neq in Hne, Hdot. now rewrite Hne, Hdot.
Qed.

Lemma truediv_component (p : Path) (x : string) :
  component x -> truediv p x = mkPath (root p) (tail p ++ [x]).
Proof.
  intros Hx. unfold truediv.
  rewrite (component_no_leading_slash _ Hx), (parse_component _ Hx). easy.
Qed.

(** A path string that does not have the shape of a directory ends in
    a file name, which is its [name]. *)
Lemma name_regular (s : string) :
  OS.dir_syntax s = false ->
  regular (name (parse s))
  /\ name (parse s) = List.last (split chr_slash s) EmptyString.
Proof.
  unfold OS.dir_syntax. intros H.
  apply orb_false_elim in H as [H H3]. apply orb_false_elim in H as [H1 H2].
  set (l := List.last (split chr_slash s) EmptyString) in *.
  assert (El : name (parse s) = l).
  { unfold name, parse. destruct (splitroot s) as [r rel] eqn:E. simpl.
    pose proof (last_split_rel s) as Hl. rewrite E in Hl. simpl in Hl.
    rewrite last_filter_keep; [exact Hl|apply split_not_nil|].
    rewrite Hl. fold l. unfold keep_component. now rewrite H1, H2. }
  split; [|exact El]. rewrite El.
  apply String.eqb_neq in H1, H2, H3. repeat split; try easy.
  pose proof (split_parts_no_sep chr_slash s) as Hs.
  rewrite List.Forall_forall in Hs. apply Hs.
  subst l. pose proof (split_not_nil chr_slash s) as Hn.
  destruct (exists_last Hn) as (l' & z & ->).
  rewrite last_last. apply in_or_app. right. now left.
Qed.

End PathFacts.

(** ** Folding a step over path components

    [normpath] and [resolve] both fold a step over the components of a
    path string; what they share is proved once. *)

Section CompsFacts.
Import PyStr Pathlib Shape.

Context (step : list string -> string -> list string).
Hypothesis step_empty : forall acc, step acc EmptyString = acc.
Hypothesis step_dot : forall acc, step acc "." = acc.
Hypothesis step_reg : forall acc x, regular x -> step acc x = (acc ++ [x])%list.

Lemma regular_component (x : string) : regular x -> component x.
Proof. now intros [H _]. Qed.

Lemma Forall_regular_component (l : list string) :
  Forall regular l -> Forall component l.
Proof. apply List.Forall_impl, regular_component. Qed.

Lemma Forall_component_no_sep (l : list string) :
  Forall component l -> Forall (fun x => has_char chr_slash x = false) l.
Proof. apply List.Forall_impl. now intros x (_ & _ & H). Qed.

Lemma comps_regular (l acc : list string) :
  Forall regular l -> fold_left step l acc = (acc ++ l)%list.
Proof.
  revert acc. induction l as [|x l IH]; intros acc H.
  - now rewrite app_nil_r.
  - inversion H; subst. cbn [fold_left].
    rewrite step_reg, IH by easy. now rewrite <- app_assoc.
Qed.

Lemma comps_split_join (t acc : list string) :
  Forall component t ->
  fold_left step (split chr_slash (join "/" t)) acc = fold_left step t acc.
Proof.
  intros Ht. destruct t as [|x t]; [apply step_empty|].
  now rewrite (split_join chr_slash) by (easy || now apply Forall_component_no_sep).
Qed.

Lemma comps_to_str (p : Path) (acc : list string) :
  wf_path p ->
  fold_left step (split chr_slash (to_str p)) acc = fold_left step (tail p) acc.
Proof.
  destruct p as [r t]. intros [Hr Ht]. cbn [root tail] in *. unfold to_str.
  cbn [root tail].
  destruct Hr as [->|[->| ->]].
  - destruct t as [|x t]; [apply step_dot|]. now apply comps_split_join.
  - change ("/" ++ join "/" t) with (String chr_slash (join "/" t)).
    cbn [split]. rewrite Ascii.eqb_refl. cbn [fold_left].
    rewrite step_empty. now apply comps_split_join.
  - change ("//" ++ join "/" t)
      with (String chr_slash (String chr_slash (join "/" t))).
    cbn [split]. rewrite Ascii.eqb_refl. cbn [fold_left].
    rewrite !step_empty. now apply comps_split_join.
Qed.

Lemma endswith_sep_inv (a : string) :
  endswith "/" a = true -> exists x, a = x ++ "/".
Proof.
  unfold endswith. intros [_ H]%andb_prop. apply String.eqb_eq in H.
  set (n := (String.length a - String.length "/")%nat) in *.
  exists (take n a). rewrite <- H. symmetry. apply take_drop.
Qed.

Lemma comps_split_join2 (a q : string) (acc : list string) :
  startswith "/" q = false ->
  fold_left step (split chr_slash (PosixPath.join2 a q)) acc
  = fold_left step (split chr_slash q) (fold_left step (split chr_slash a) acc).
Proof.
  intros Hq. unfold PosixPath.join2, PosixPath.sep. rewrite Hq.
  destruct (String.eqb a EmptyString || endswith "/" a) eqn:E.
  - apply orb_prop in E as [->%String.eqb_eq | (x & ->)%endswith_sep_inv].
    + cbn [split fold_left]. now rewrite step_empty.
    + rewrite append_assoc.
      change ("/" ++ q) with (String chr_slash q).
      change (x ++ "/") with (x ++ String chr_slash EmptyString).
      rewrite !split_app_sep, !fold_left_app. cbn [split fold_left].
      now rewrite step_empty.
  - change ("/" ++ q) with (String chr_slash q).
    now rewrite split_app_sep, fold_left_app.
Qed.

End CompsFacts.

(** ** [os.path.relpath] below the start directory *)

Section RelpathFacts.
Import PyStr Pathlib Shape PosixPath.

Lemma step_skip_empty (k : nat) (acc : list string) :
  normpath_step k acc EmptyString = acc.
Proof. reflexivity. Qed.

Lemma step_skip_dot (k : nat) (acc : list string) :
  normpath_step k acc "." = acc.
Proof. reflexivity. Qed.

Lemma step_regular (k : nat) (acc : list string) (x : string) :
  regular x -> normpath_step k acc x = (acc ++ [x])%list.
Proof.
  intros ((H1 & H2 & _) & H3). unfold normpath_step, curdir, pardir.
  apply String.eqb_neq in H1, H2, H3. now rewrite H1, H2, H3.
Qed.

Lemma step_pardir (k : nat) (acc : list string) :
  k <> 0%nat -> Forall regular acc ->
  normpath_step k acc ".." = List.removelast acc.
Proof.
  intros Hk Hacc. unfold normpath_step, curdir, pardir.
  change (String.eqb ".." EmptyString) with false.
  change (String.eqb ".." ".") with false.
  change (String.eqb ".." "..") with true. cbn [orb negb].
  apply Nat.eqb_neq in Hk. rewrite Hk. cbn [andb orb].
  destruct acc as [|a acc]; [reflexivity|].
  rewrite bool_decide_eq_false_2 by easy. cbn [negb andb].
  assert (Hl : regular (List.last (a :: acc) EmptyString)).
  { rewrite List.Forall_forall in Hacc. apply Hacc.
    destruct (exists_last (l:=a :: acc) ltac:(easy)) as (l' & z & ->).
    rewrite last_last. apply in_or_app. right. now left. }
  destruct Hl as [_ Hl]. apply String.eqb_neq in Hl. now rewrite Hl.
Qed.

Lemma stack_cons (k : nat) (x : string) (l acc : list string) :
  stack k (x :: l) acc = stack k l (normpath_step k acc x).
Proof. reflexivity. Qed.

Lemma stack_app (k : nat) (l1 l2 acc : list string) :
  stack k (l1 ++ l2) acc = stack k l2 (stack k l1 acc).
Proof. apply fold_left_app. Qed.

Lemma stack_regular (k : nat) (l acc : list string) :
  Forall regular l -> stack k l acc = (acc ++ l)%list.
Proof. apply comps_regular, step_regular. Qed.

Lemma stack_split_join (k : nat) (t acc : list string) :
  Forall component t ->
  stack k (split chr_slash (join "/" t)) acc = stack k t acc.
Proof. apply comps_split_join, step_skip_empty. Qed.

Lemma stack_to_str (k : nat) (p : Path) (acc : list string) :
  wf_path p -> stack k (split chr_slash (to_str p)) acc = stack k (tail p) acc.
Proof. apply comps_to_str; [apply step_skip_empty|apply step_skip_dot]. Qed.

Lemma stack_split_join2 (k : nat) (a q : string) (acc : list string) :
  startswith "/" q = false ->
  stack k (split chr_slash (join2 a q)) acc
  = stack k (split chr_slash q) (stack k (split chr_slash a) acc).
Proof. apply comps_split_join2, step_skip_empty. Qed.

Lemma Forall_removelast {A} (P : A -> Prop) (l : list A) :
  Forall P l -> Forall P (List.removelast l).
Proof.
  induction 1 as [|x l Hx Hl IH]; [constructor|].
  destruct l; [constructor|]. cbn [List.removelast]. now constructor.
Qed.

Lemma step_keeps_regular (k : nat) (acc : list string) (x : string) :
  k <> 0%nat -> Forall regular acc -> has_char chr_slash x = false ->
  Forall regular (normpath_step k acc x).
Proof.
  intros Hk Hacc Hx.
  destruct (String.eqb_spec x EmptyString) as [->|H1]; [easy|].
  destruct (String.eqb_spec x ".") as [->|H2]; [easy|].
  destruct (String.eqb_spec x "..") as [->|H3].
  - rewrite step_pardir by easy. now apply Forall_removelast.
  - rewrite step_regular by easy. apply Forall_app. split; [easy|].
    now repeat constructor.
Qed.

Lemma stack_keeps_regular (k : nat) (l acc : list string) :
  k <> 0%nat -> Forall regular acc ->
  Forall (fun x => has_char chr_slash x = false) l ->
  Forall regular (stack k l acc).
Proof.
  intros Hk. revert acc. induction l as [|x l IH]; intros acc Hacc Hl; [easy|].
  inversion Hl; subst. rewrite stack_cons.
  apply IH; [|easy]. now apply step_keeps_regular.
Qed.

Lemma stack_any_root (k : nat) (l acc : list string) :
  k <> 0%nat -> stack k l acc = stack 1 l acc.
Proof.
  intros Hk. revert acc. induction l as [|x l IH]; intros acc; [easy|].
  rewrite !stack_cons, IH.
  f_equal. unfold normpath_step. apply Nat.eqb_neq in Hk. now rewrite Hk.
Qed.

Lemma initial_slashes_abs (s : string) :
  startswith "/" s = true ->
  initial_slashes_of s = 1%nat \/ initial_slashes_of s = 2%nat.
Proof.
  unfold initial_slashes_of, sep. intros ->. destruct (_ && _); auto.
Qed.

Lemma startswith_app (c : ascii) (x y : string) :
  x <> EmptyString ->
  startswith (String c EmptyString) (x ++ y) = startswith (String c EmptyString) x.
Proof. destruct x; [easy|]. reflexivity. Qed.

Lemma join_cons_app (x : string) (t : list string) :
  exists rest, join "/" (x :: t) = x ++ rest.
Proof.
  destruct t as [|y t]; [exists EmptyString; cbn; now rewrite append_nil_r|].
  now exists ("/" ++ join "/" (y :: t)).
Qed.

Lemma join_not_leading_slash (t : list string) :
  Forall component t -> startswith "/" (join "/" t) = false.
Proof.
  destruct t as [|x t]; [easy|]. intros H. inversion H as [|? ? Hx _]; subst.
  destruct (join_cons_app x t) as [rest ->].
  rewrite (startswith_app chr_slash) by apply Hx.
  now apply component_no_leading_slash.
Qed.

Lemma join_cons_not_empty (x : string) (t : list string) :
  x <> EmptyString -> String.eqb (join "/" (x :: t)) EmptyString = false.
Proof.
  intros Hx. destruct (join_cons_app x t) as [rest ->].
  destruct x; [easy|]. reflexivity.
Qed.

Lemma tail_list_join (comps : list string) :
  Forall regular comps -> tail_list (join "/" comps) = comps.
Proof.
  intros H%Forall_regular_component. unfold tail_list.
  rewrite lstrip_char_id by now apply join_not_leading_slash.
  destruct comps as [|x t]; [reflexivity|].
  inversion H as [|? ? Hx _]; subst.
  rewrite join_cons_not_empty by apply Hx.
  apply (split_join chr_slash); [easy|now apply Forall_component_no_sep].
Qed.

Lemma tail_list_slash (s : string) :
  tail_list (String chr_slash s) = tail_list s.
Proof. unfold tail_list. now rewrite lstrip_char_cons. Qed.

Lemma tail_list_norm (k : nat) (comps : list string) :
  k = 1%nat \/ k = 2%nat -> Forall regular comps ->
  tail_list (or_dot (take k "//" ++ join sep comps)) = comps.
Proof.
  intros [-> | ->] H; unfold sep.
  - change (or_dot (take 1 "//" ++ join "/" comps))
      with (String chr_slash (join "/" comps)).
    rewrite tail_list_slash. now apply tail_list_join.
  - change (or_dot (take 2 "//" ++ join "/" comps))
      with (String chr_slash (String chr_slash (join "/" comps))).
    rewrite !tail_list_slash. now apply tail_list_join.
Qed.

Lemma tail_list_normpath (s : string) :
  startswith "/" s = true ->
  tail_list (normpath s) = stack 1 (split chr_slash s) [].
Proof.
  intros Hs. unfold normpath.
  assert (String.eqb s EmptyString = false) as -> by now destruct s.
  pose proof (initial_slashes_abs _ Hs) as Hk.
  fold (stack (initial_slashes_of s) (split chr_slash s) []).
  assert (Hk0 : initial_slashes_of s <> 0%nat) by (destruct Hk; lia).
  rewrite tail_list_norm.
  - now apply stack_any_root.
  - exact Hk.
  - apply stack_keeps_regular; [exact Hk0|constructor|apply split_parts_no_sep].
Qed.

Lemma to_str_isabs (p : Path) :
  wf_path p -> startswith "/" (to_str p) = negb (String.eqb (root p) EmptyString).
Proof.
  destruct p as [r t]. intros [Hr Ht]. cbn [root tail] in *. unfold to_str.
  cbn [root tail]. destruct Hr as [->|[->| ->]]; [|reflexivity..].
  destruct t; [reflexivity|]. now apply join_not_leading_slash.
Qed.

Lemma to_str_not_empty (p : Path) :
  wf_path p -> String.eqb (to_str p) EmptyString = false.
Proof.
  destruct p as [r t]. intros [Hr Ht]. cbn [root tail] in *. unfold to_str.
  cbn [root tail]. destruct Hr as [->|[->| ->]]; [|reflexivity..].
  destruct t as [|x t]; [reflexivity|]. inversion Ht as [|? ? Hx _]; subst.
  apply join_cons_not_empty, Hx.
Qed.

Lemma tail_list_abspath (cwdl : list string) (p : Path) :
  Forall regular cwdl -> wf_path p ->
  tail_list (abspath (OS.abs_str cwdl) (to_str p))
  = stack 1 (tail p) (base_of cwdl p).
Proof.
  intros Hc Hp. unfold abspath, isabs, sep, base_of. rewrite (to_str_isabs _ Hp).
  destruct (String.eqb (root p) EmptyString) eqn:Hr; cbn [negb].
  - assert (Hq : startswith "/" (to_str p) = false)
      by now rewrite (to_str_isabs _ Hp), Hr.
    rewrite tail_list_normpath.
    + rewrite stack_split_join2, stack_to_str by easy. f_equal.
      unfold OS.abs_str. change ("/" ++ join "/" cwdl)
        with (String chr_slash (join "/" cwdl)).
      cbn [split]. rewrite Ascii.eqb_refl, stack_cons, step_skip_empty.
      rewrite stack_split_join by now apply Forall_regular_component.
      now rewrite stack_regular.
    + unfold join2, sep. rewrite Hq. unfold OS.abs_str.
      now destruct (_ || _).
  - rewrite tail_list_normpath by now rewrite (to_str_isabs _ Hp), Hr.
    now apply stack_to_str.
Qed.

Lemma commonprefix_app (s x : list string) : commonprefix s (s ++ x) = s.
Proof.
  induction s as [|a s IH]; [now destruct x|].
  cbn. now rewrite String.eqb_refl, IH.
Qed.

Lemma wf_path_extend (p : Path) (x : list string) :
  wf_path p -> Forall regular x -> wf_path (mkPath (root p) (tail p ++ x)).
Proof.
  intros [Hr Ht] Hx. split; [exact Hr|]. cbn [tail].
  apply Forall_app. split; [exact Ht|now apply Forall_regular_component].
Qed.

(** Below the start directory, [relpath] is what was added to it. *)
Lemma relpath_below (cwdl : list string) (p : Path) (x : list string) :
  Forall regular cwdl -> wf_path p -> Forall regular x -> x <> [] ->
  relpath (OS.abs_str cwdl) (to_str (mkPath (root p) (tail p ++ x))) (to_str p)
  = Some (join "/" x).
Proof.
  intros Hc Hp Hx Hne.
  pose proof (wf_path_extend p x Hp Hx) as Hp'.
  unfold relpath. rewrite (to_str_not_empty _ Hp').
  rewrite !tail_list_abspath by easy. unfold base_of. cbn [root tail].
  rewrite stack_app, (stack_regular 1 x) by easy.
  rewrite commonprefix_app, Nat.sub_diag. cbn [List.repeat app].
  rewrite drop_app_length.
  now rewrite bool_decide_eq_false_2.
Qed.

End RelpathFacts.

(** ** Computations that stay in their directory *)

Section StaysFacts.
Import OS Trace.

Lemma stays_intro {A} (c : M A) :
  (forall w, cwd (snd (c w)) = cwd w
             /\ exists evs, trace (snd (c w)) = (trace w ++ evs)%list
                            /\ Forall (local (cwd w)) evs) ->
  stays c.
Proof. intros H w. apply H. Qed.

Lemma stays_ret {A} (a : A) : stays (ret a).
Proof. intros w. split; [easy|]. exists []. split; [|easy]. symmetry. apply app_nil_r. Qed.

Lemma stays_raise {A} (e : exn) : stays (@raise A e).
Proof. intros w. split; [easy|]. exists []. split; [|easy]. symmetry. apply app_nil_r. Qed.

Lemma stays_bind {A B} (c : M A) (k : A -> M B) :
  stays c -> (forall a, stays (k a)) -> stays (bind c k).
Proof.
  intros Hc Hk w. unfold bind.
  destruct (Hc w) as (Hcwd & evs & Hev & Hloc). unfold events_of in *.
  destruct (c w) as [[a|e] w1]; cbn [fst snd] in *.
  - destruct (Hk a w1) as (Hcwd2 & evs2 & Hev2 & Hloc2). unfold events_of in *.
    split; [congruence|]. exists (evs ++ evs2)%list. split.
    + now rewrite Hev2, Hev, app_assoc.
    + apply Forall_app. split; [easy|]. now rewrite <- Hcwd.
  - split; [easy|]. now exists evs.
Qed.

Lemma stays_try_except {A} (c : M A) (h : string -> M A) :
  stays c -> (forall msg, stays (h msg)) -> stays (try_except c h).
Proof.
  intros Hc Hh w. unfold try_except.
  destruct (Hc w) as (Hcwd & evs & Hev & Hloc). unfold events_of in *.
  destruct (c w) as [[a|[msg|code]] w1]; cbn [fst snd] in *;
    try (split; [easy|]; now exists evs).
  destruct (Hh msg w1) as (Hcwd2 & evs2 & Hev2 & Hloc2). unfold events_of in *.
  split; [congruence|]. exists (evs ++ evs2)%list. split.
  - now rewrite Hev2, Hev, app_assoc.
  - apply Forall_app. split; [easy|]. now rewrite <- Hcwd.
Qed.

Lemma stays_try_except_all {A} (c : M A) (h : M A) :
  stays c -> stays h -> stays (try_except_all c h).
Proof.
  intros Hc Hh w. unfold try_except_all.
  destruct (Hc w) as (Hcwd & evs & Hev & Hloc). unfold events_of in *.
  destruct (c w) as [[a|e] w1]; cbn [fst snd] in *;
    try (split; [easy|]; now exists evs).
  destruct (Hh w1) as (Hcwd2 & evs2 & Hev2 & Hloc2). unfold events_of in *.
  split; [congruence|]. exists (evs ++ evs2)%list. split.
  - now rewrite Hev2, Hev, app_assoc.
  - apply Forall_app. split; [easy|]. now rewrite <- Hcwd.
Qed.

(** A step that adds nothing to the trace. *)
Ltac stays_silent :=
  split; [reflexivity|]; exists []; split;
  [symmetry; apply app_nil_r|constructor].

(** A step that adds one event. *)
Ltac stays_one e :=
  split; [reflexivity|]; exists [e]; split;
  [reflexivity|repeat constructor].

Lemma stays_print (msg : string) : stays (print msg).
Proof. apply stays_intro. intros w. now stays_one (Print msg). Qed.

Lemma stays_input (prompt : string) : stays (input prompt).
Proof.
  apply stays_intro. intros w. unfold input.
  destruct (stdin w); now stays_one (Input prompt).
Qed.

Lemma stays_now : stays now.
Proof. apply stays_intro. intros w. stays_silent. Qed.

Lemma stays_getcwd : stays (fun w => (Ok (getcwd w), w)).
Proof. apply stays_intro. intros w. stays_silent. Qed.

Lemma stays_path_exists (p : string) : stays (path_exists p).
Proof. apply stays_intro. intros w. stays_silent. Qed.

Lemma stays_mkdir_exist_ok (p : string) : stays (mkdir_exist_ok p).
Proof.
  apply stays_intro. intros w. unfold mkdir_exist_ok, along.
  destruct (blocked w p); [stays_silent|].
  destruct (is_dir _ _); [stays_silent|].
  destruct (fs w !! _); [stays_silent|].
  destruct (is_dir _ _); [|stays_silent].
  now stays_one (Mkdir (resolve (cwd w) p)).
Qed.

Lemma stays_write_file (p : string) (c : content) : stays (write_file p c).
Proof.
  apply stays_intro. intros w. unfold write_file, along.
  destruct (blocked w p); [stays_silent|].
  destruct (String.eqb _ _); [stays_silent|].
  destruct (_ || _); [stays_silent|].
  destruct (is_dir _ _); [|stays_silent].
  now stays_one (WriteFile (resolve (cwd w) p) c).
Qed.

Lemma stays_copy2 (src dst : string) : stays (copy2 src dst).
Proof.
  apply stays_intro. intros w. unfold copy2, along.
  destruct (blocked w src); [stays_silent|].
  destruct (fs w !! resolve (cwd w) src) as [[|c]|].
  - stays_silent.
  - destruct (dir_syntax src); [stays_silent|].
    destruct (_ && _); [stays_silent|].
    apply stays_write_file.
  - destruct (bool_decide _); stays_silent.
Qed.

Lemma stays_run (E : env) (command : list string) : stays (run E command).
Proof.
  apply stays_intro. intros w. unfold run.
  destruct (subprocess_run E command w) as [e|r].
  - stays_silent.
  - now stays_one (Spawn (cwd w) command (returncode r)).
Qed.

End StaysFacts.

(** ** Computations in which a failed command is the end *)

Section FailfastFacts.
Import OS Trace.

Lemma failfast_intro {A} (c : M A) :
  (forall w, exists evs,
      trace (snd (c w)) = (trace w ++ evs)%list
      /\ (quiet evs
          \/ (ends_failed evs /\ exists msg, fst (c w) = Raise (Exception msg)))) ->
  failfast c.
Proof. intros H w. apply H. Qed.

Ltac ff_silent :=
  exists []; split; [symmetry; apply app_nil_r|left; constructor].

Ltac ff_one e :=
  exists [e]; split; [reflexivity|left; repeat constructor].

Lemma failfast_ret {A} (a : A) : failfast (ret a).
Proof. apply failfast_intro. intros w. ff_silent. Qed.

Lemma failfast_raise {A} (e : exn) : failfast (@raise A e).
Proof. apply failfast_intro. intros w. ff_silent. Qed.

Lemma quiet_app (a b : list event) : quiet a -> quiet b -> quiet (a ++ b).
Proof. intros Ha Hb. apply Forall_app. now split. Qed.

Lemma ends_failed_app (a b : list event) :
  quiet a -> ends_failed b -> ends_failed (a ++ b).
Proof.
  intros Ha (evs0 & d & cmd & rc & -> & Hq & Hrc).
  exists (a ++ evs0)%list, d, cmd, rc. rewrite app_assoc.
  repeat split; [now apply quiet_app|exact Hrc].
Qed.

Lemma failfast_bind {A B} (c : M A) (k : A -> M B) :
  failfast c -> (forall a, failfast (k a)) -> failfast (bind c k).
Proof.
  intros Hc Hk w. unfold bind, events_of.
  destruct (Hc w) as (evs & Hev & Hcase). unfold events_of in Hev.
  destruct (c w) as [[a|e] w1]; cbn [fst snd] in *.
  - destruct Hcase as [Hq|[_ [msg Hm]]]; [|discriminate].
    destruct (Hk a w1) as (evs2 & Hev2 & Hcase2). unfold events_of in Hev2.
    exists (evs ++ evs2)%list. split; [now rewrite Hev2, Hev, app_assoc|].
    destruct Hcase2 as [Hq2|[Hf2 Hm2]].
    + left. now apply quiet_app.
    + right. split; [now apply ends_failed_app|exact Hm2].
  - exists evs. split; [exact Hev|].
    destruct Hcase as [Hq|[Hf [msg Hm]]]; [now left|right].
    split; [exact Hf|]. exists msg. congruence.
Qed.

(** [except Exception as e: raise Exception(f(str(e)))] *)
Lemma failfast_reraise {A} (c : M A) (f : string -> string) :
  failfast c ->
  failfast (try_except c (fun msg => raise (Exception (f msg)))).
Proof.
  intros Hc w. unfold try_except, raise, events_of.
  destruct (Hc w) as (evs & Hev & Hcase). unfold events_of in Hev.
  destruct (c w) as [[a|[msg|code]] w1]; cbn [fst snd] in *;
    exists evs; (split; [exact Hev|]); try exact Hcase.
  destruct Hcase as [Hq|[Hf _]]; [now left|right].
  split; [exact Hf|]. now exists (f msg).
Qed.

Lemma failfast_now : failfast now.
Proof. apply failfast_intro. intros w. ff_silent. Qed.

Lemma failfast_getcwd : failfast (fun w => (Ok (getcwd w), w)).
Proof. apply failfast_intro. intros w. ff_silent. Qed.

Lemma failfast_print (msg : string) : failfast (print msg).
Proof. apply failfast_intro. intros w. ff_one (Print msg). Qed.

Lemma failfast_mkdir_exist_ok (p : string) : failfast (mkdir_exist_ok p).
Proof.
  apply failfast_intro. intros w. unfold mkdir_exist_ok, along.
  destruct (blocked w p); [ff_silent|].
  destruct (is_dir _ _); [ff_silent|].
  destruct (fs w !! _); [ff_silent|].
  destruct (is_dir _ _); [|ff_silent].
  ff_one (Mkdir (resolve (cwd w) p)).
Qed.

Lemma failfast_write_file (p : string) (c : content) : failfast (write_file p c).
Proof.
  apply failfast_intro. intros w. unfold write_file, along.
  destruct (blocked w p); [ff_silent|].
  destruct (String.eqb _ _); [ff_silent|].
  destruct (_ || _); [ff_silent|].
  destruct (is_dir _ _); [|ff_silent].
  ff_one (WriteFile (resolve (cwd w) p) c).
Qed.

Lemma failfast_copy2 (src dst : string) : failfast (copy2 src dst).
Proof.
  apply failfast_intro. intros w. unfold copy2, along.
  destruct (blocked w src); [ff_silent|].
  destruct (fs w !! resolve (cwd w) src) as [[|c]|].
  - ff_silent.
  - destruct (dir_syntax src); [ff_silent|].
    destruct (_ && _); [ff_silent|].
    apply failfast_write_file.
  - destruct (bool_decide _); ff_silent.
Qed.

End FailfastFacts.

(** One step of a proof of [stays], by the head of the computation;
    [tac] is for the functions of the program. *)
Ltac stays_step tac :=
  lazymatch goal with
  | |- Trace.stays (OS.ret _) => apply stays_ret
  | |- Trace.stays (OS.raise _) => apply stays_raise
  | |- Trace.stays (OS.print _) => apply stays_print
  | |- Trace.stays (OS.input _) => apply stays_input
  | |- Trace.stays OS.now => apply stays_now
  | |- Trace.stays (fun w => (OS.Ok (OS.getcwd w), w)) => apply stays_getcwd
  | |- Trace.stays (OS.path_exists _) => apply stays_path_exists
  | |- Trace.stays (OS.mkdir_exist_ok _) => apply stays_mkdir_exist_ok
  | |- Trace.stays (OS.write_file _ _) => apply stays_write_file
  | |- Trace.stays (OS.copy2 _ _) => apply stays_copy2
  | |- Trace.stays (OS.run _ _) => apply stays_run
  | |- Trace.stays (OS.bind _ _) => apply stays_bind; [|intros ?]
  | |- Trace.stays (OS.try_except _ _) => apply stays_try_except; [|intros ?]
  | |- Trace.stays (OS.try_except_all _ _) => apply stays_try_except_all
  | |- Trace.stays (if ?b then _ else _) => destruct b
  | |- Trace.stays (match ?x with _ => _ end) => destruct x
  | _ => tac
  end.

Ltac stays_with tac := repeat stays_step tac.

(** The same for [failfast]. *)
Ltac failfast_step tac :=
  lazymatch goal with
  | |- Trace.failfast (OS.ret _) => apply failfast_ret
  | |- Trace.failfast (OS.raise _) => apply failfast_raise
  | |- Trace.failfast (OS.print _) => apply failfast_print
  | |- Trace.failfast OS.now => apply failfast_now
  | |- Trace.failfast (fun w => (OS.Ok (OS.getcwd w), w)) => apply failfast_getcwd
  | |- Trace.failfast (OS.mkdir_exist_ok _) => apply failfast_mkdir_exist_ok
  | |- Trace.failfast (OS.write_file _ _) => apply failfast_write_file
  | |- Trace.failfast (OS.copy2 _ _) => apply failfast_copy2
  | |- Trace.failfast (OS.bind _ _) => apply failfast_bind; [|intros ?]
  | |- Trace.failfast (OS.try_except _ (fun msg => OS.raise _)) =>
      apply failfast_reraise
  | |- Trace.failfast (if ?b then _ else _) => destruct b
  | |- Trace.failfast (match ?x with _ => _ end) => destruct x
  | _ => tac
  end.

Ltac failfast_with tac := repeat failfast_step tac.

(** ** The program, step by step *)

Section ProgramFacts.
Import PyStr Pathlib OS Trace VideoShare.
Context (E : env).

Lemma run_command_started (command : list string) (w : world) (r : completed) :
  subprocess_run E command w = inr r ->
  _run_command E command w
  = (if (returncode r =? 0)%Z then Ok (strip (stdout r))
     else Raise (Exception ("命令失败: " ++ stderr r)),
     log (Spawn (cwd w) command (returncode r)) w).
Proof.
  intros H. unfold _run_command, bind, run. rewrite H.
  now destruct (returncode r =? 0)%Z.
Qed.

Lemma run_command_not_started (command : list string) (w : world) (e : exn) :
  subprocess_run E command w = inl e -> _run_command E command w = (Raise e, w).
Proof. intros H. unfold _run_command, bind, run. now rewrite H. Qed.

Lemma stays_run_command (command : list string) : stays (_run_command E command).
Proof. unfold _run_command. stays_with fail. Qed.

Lemma failfast_run_command (command : list string) :
  failfast (_run_command E command).
Proof.
  apply failfast_intro. intros w.
  destruct (subprocess_run E command w) as [e|r] eqn:Hr.
  - rewrite (run_command_not_started _ _ _ Hr). exists [].
    split; [symmetry; apply app_nil_r|left; constructor].
  - rewrite (run_command_started _ _ _ Hr). cbn [fst snd].
    exists [Spawn (cwd w) command (returncode r)]. split; [reflexivity|].
    destruct (Z.eqb_spec (returncode r) 0) as [H0|H0].
    + left. now repeat constructor.
    + right. split; [|eexists; reflexivity].
      exists [], (cwd w), command, (returncode r).
      split; [reflexivity|]. split; [constructor|exact H0].
Qed.

Lemma stays_get_github_url : stays (_get_github_url E).
Proof. unfold _get_github_url. stays_with fail. Qed.

Lemma stays_create_player_page (self : GitLFSVideoShare) (video_path : Path)
    (title : string) : stays (create_player_page self video_path title).
Proof. unfold create_player_page. stays_with fail. Qed.

Lemma failfast_create_player_page (self : GitLFSVideoShare) (video_path : Path)
    (title : string) : failfast (create_player_page self video_path title).
Proof. unfold create_player_page. failfast_with fail. Qed.

Lemma stays_share_video (self : GitLFSVideoShare) (video_path : string) :
  stays (share_video E self video_path).
Proof.
  unfold share_video, share_video_body.
  stays_with
    ltac:(idtac; lazymatch goal with
          | |- stays (create_player_page _ _ _) => apply stays_create_player_page
          | |- stays (_run_command _ _) => apply stays_run_command
          end).
Qed.

Lemma failfast_share_video (self : GitLFSVideoShare) (video_path : string) :
  failfast (share_video E self video_path).
Proof.
  unfold share_video, share_video_body.
  failfast_with
    ltac:(idtac; lazymatch goal with
          | |- failfast (create_player_page _ _ _) =>
              apply failfast_create_player_page
          | |- failfast (_run_command _ _) => apply failfast_run_command
          end).
Qed.

Lemma stays_main_share (sharer : GitLFSVideoShare) : stays (main_share E sharer).
Proof.
  unfold main_share.
  stays_with
    ltac:(idtac; lazymatch goal with
          | |- stays (share_video _ _ _) => apply stays_share_video
          end).
Qed.

End ProgramFacts.

(** ** Resolving the paths the program builds *)

Section ResolveFacts.
Import PyStr Pathlib Shape OS.

Lemma walk_step_empty (acc : list string) : walk_step acc EmptyString = acc.
Proof. reflexivity. Qed.

Lemma walk_step_dot (acc : list string) : walk_step acc "." = acc.
Proof. reflexivity. Qed.

Lemma walk_step_regular (acc : list string) (x : string) :
  regular x -> walk_step acc x = (acc ++ [x])%list.
Proof.
  intros ((H1 & H2 & _) & H3). unfold walk_step.
  apply String.eqb_neq in H1, H2, H3. now rewrite H1, H2, H3.
Qed.

Lemma resolve_to_str (cwd : list string) (p : Path) :
  wf_path p -> resolve cwd (to_str p) = walk (tail p) (base_of cwd p).
Proof.
  intros Hp. unfold resolve, walk, base_of. rewrite (to_str_isabs _ Hp).
  rewrite (comps_to_str walk_step walk_step_empty walk_step_dot) by easy.
  now destruct (String.eqb (root p) EmptyString).
Qed.

Lemma resolve_extend (cwd : list string) (p : Path) (x : list string) :
  wf_path p -> Forall regular x ->
  resolve cwd (to_str (mkPath (root p) (tail p ++ x)))
  = (resolve cwd (to_str p) ++ x)%list.
Proof.
  intros Hp Hx. rewrite !resolve_to_str by (easy || now apply wf_path_extend).
  unfold walk, base_of. cbn [root tail]. rewrite fold_left_app.
  now apply (comps_regular walk_step walk_step_regular).
Qed.

Lemma resolve_join2 (cwd : list string) (a q : string) :
  String.eqb a EmptyString = false -> regular q ->
  resolve cwd (PosixPath.join2 a q) = (resolve cwd a ++ [q])%list.
Proof.
  intros Ha Hq. pose proof (regular_component _ Hq) as Hc.
  pose proof (component_no_leading_slash _ Hc) as Hs.
  unfold resolve.
  rewrite (comps_split_join2 walk_step walk_step_empty) by exact Hs.
  assert (startswith "/" (PosixPath.join2 a q) = startswith "/" a) as ->.
  { unfold PosixPath.join2, PosixPath.sep. rewrite Hs.
    apply String.eqb_neq in Ha.
    destruct (_ || _); now apply (startswith_app chr_slash). }
  destruct Hc as (_ & _ & Hn). rewrite (split_no_sep _ _ Hn).
  cbn [fold_left]. now apply walk_step_regular.
Qed.

Lemma is_dir_root (f : gmap (list string) node) : is_dir f [] = true.
Proof. unfold is_dir. now rewrite bool_decide_eq_true_2. Qed.

Lemma namei_stuck (f : gmap (list string) node) (l : list string) (b : bool) :
  fold_left (namei_step f) l (Stuck b) = Stuck b.
Proof. induction l as [|x l IH]; [reflexivity|exact IH]. Qed.

(** Where the walk arrives is where the path resolves to. *)
Lemma namei_fold_at (f : gmap (list string) node) (l acc a : list string) :
  fold_left (namei_step f) l (At acc) = At a -> a = fold_left walk_step l acc.
Proof.
  revert acc. induction l as [|x l IH]; intros acc; cbn [fold_left namei_step].
  - now intros [= <-].
  - destruct (is_dir f acc); [apply IH|]. now rewrite namei_stuck.
Qed.

Lemma namei_at (f : gmap (list string) node) (cwd : list string) (p : string)
    (a : list string) :
  namei f cwd p = At a -> a = resolve cwd p.
Proof. apply namei_fold_at. Qed.

(** A path with a root is walked from the root. *)
Lemma namei_absolute (f : gmap (list string) node) (cwd1 cwd2 : list string)
    (p : string) :
  startswith "/" p = true -> namei f cwd1 p = namei f cwd2 p.
Proof. unfold namei. now intros ->. Qed.

Lemma namei_step_skip (f : gmap (list string) node) (a : list string) :
  is_dir f a = true -> namei_step f (At a) EmptyString = At a.
Proof. cbn [namei_step]. now intros ->. Qed.

(** The walk along [str(p)] goes through the components of [p]. *)
Lemma namei_to_str (f : gmap (list string) node) (cwd : list string) (p : Path) :
  wf_path p ->
  namei f cwd (to_str p)
  = match tail p with
    | [] => namei_step f (At (base_of cwd p)) EmptyString
    | t => fold_left (namei_step f) t (At (base_of cwd p))
    end.
Proof.
  destruct p as [r t]. intros [Hr Ht]. unfold namei, base_of.
  cbn [root tail] in *.
  pose proof (Forall_component_no_sep _ Ht) as Hs.
  destruct Hr as [->|[->| ->]].
  - destruct t as [|x t]; [reflexivity|].
    change (to_str (mkPath EmptyString (x :: t))) with (join "/" (x :: t)).
    rewrite (join_not_leading_slash (x :: t)) by exact Ht.
    now rewrite (split_join chr_slash).
  - change (to_str (mkPath "/" t)) with (String chr_slash (join "/" t)).
    cbn [startswith Ascii.eqb Bool.eqb andb split].
    rewrite Ascii.eqb_refl. cbn [fold_left String.eqb].
    rewrite namei_step_skip by apply is_dir_root.
    destruct t as [|x t]; [reflexivity|].
    now rewrite (split_join chr_slash).
  - change (to_str (mkPath "//" t))
      with (String chr_slash (String chr_slash (join "/" t))).
    cbn [startswith Ascii.eqb Bool.eqb andb split].
    rewrite Ascii.eqb_refl. cbn [fold_left String.eqb].
    rewrite !namei_step_skip by apply is_dir_root.
    destruct t as [|x t]; [reflexivity|].
    now rewrite (split_join chr_slash).
Qed.

(** One component more is one step more. *)
Lemma namei_extend (f : gmap (list string) node) (cwd : list string) (p : Path)
    (x : string) :
  wf_path p -> regular x ->
  namei f cwd (to_str (mkPath (root p) (tail p ++ [x])))
  = namei_step f (namei f cwd (to_str p)) x.
Proof.
  intros Hp Hx.
  assert (Hx' : Forall regular [x]) by (constructor; [exact Hx|constructor]).
  rewrite !namei_to_str by (exact Hp || now apply wf_path_extend).
  cbn [root tail]. unfold base_of. cbn [root].
  destruct (tail p) as [|y t] eqn:Et.
  - cbn [app fold_left namei_step]. rewrite walk_step_empty.
    set (b := if String.eqb (root p) EmptyString then cwd else []).
    destruct (is_dir f b) eqn:Hd; cbn [namei_step]; now rewrite ?Hd.
  - rewrite <- Et. destruct (tail p ++ [x])%list as [|z l] eqn:El.
    + now destruct (tail p).
    + rewrite <- El. apply fold_left_app.
Qed.

(** A system call that succeeds got there. *)
Lemma along_ok {A} (p : string) (c : M A) (w w' : world) (a : A) :
  along p c w = (Ok a, w') -> reached w p = true /\ c w = (Ok a, w').
Proof.
  unfold along, blocked, reached.
  destruct (namei (fs w) (cwd w) p) as [q|[|]]; [easy|discriminate..].
Qed.

Lemma blocked_exception (w : world) (p : string) (e : exn) :
  blocked w p = Some e -> exists msg, e = Exception msg.
Proof.
  unfold blocked.
  destruct (namei _ _ _) as [q|[|]]; [discriminate|intros [= <-]; now eexists..].
Qed.

Lemma reached_blocked (w : world) (p : string) :
  reached w p = true -> blocked w p = None.
Proof. unfold reached, blocked. now destruct (namei _ _ _). Qed.

Lemma blocked_reached (w : world) (p : string) :
  reached w p = false -> exists e, blocked w p = Some e.
Proof.
  unfold reached, blocked.
  destruct (namei _ _ _) as [q|[|]]; [discriminate|now eexists..].
Qed.

Lemma rfind_none (c : ascii) (s : string) :
  has_char c s = false -> rfind c s = None.
Proof.
  induction s as [|a r IH]; [easy|]. cbn [has_char rfind].
  intros [Ha Hr]%orb_false_elim. now rewrite (IH Hr), Ha.
Qed.

Lemma split_single (c : ascii) (s h : string) :
  split c s = [h] -> has_char c s = false.
Proof.
  revert h. induction s as [|a r IH]; intros h; [easy|]. cbn [split has_char].
  pose proof (split_not_nil c r) as Hn.
  destruct (Ascii.eqb a c).
  - destruct (split c r); [easy|discriminate].
  - destruct (split c r) as [|h' t] eqn:E; [easy|].
    intros H. injection H as _ ->. now rewrite (IH h').
Qed.

Lemma last_split (c : ascii) (s : string) :
  List.last (split c s) EmptyString
  = match rfind c s with Some i => drop (S i) s | None => s end.
Proof.
  induction s as [|a r IH]; [reflexivity|]. cbn [split rfind].
  pose proof (split_not_nil c r) as Hn.
  destruct (Ascii.eqb a c) eqn:Ha.
  - destruct (split c r) as [|h t] eqn:E; [easy|].
    change (List.last (EmptyString :: h :: t) EmptyString)
      with (List.last (h :: t) EmptyString).
    rewrite IH. now destruct (rfind c r).
  - destruct (split c r) as [|h t] eqn:E; [easy|].
    destruct (rfind c r) as [i|] eqn:Hr.
    + destruct t as [|h' t].
      * apply split_single in E. apply rfind_none in E. congruence.
      * exact IH.
    + destruct t as [|h' t]; [now rewrite <- IH|].
      destruct (has_char c r) eqn:Hh.
      * exfalso. clear IH. revert Hr Hh. clear. induction r as [|b r IH]; [easy|].
        cbn [rfind has_char]. destruct (rfind c r); [easy|].
        destruct (Ascii.eqb b c); [easy|]. cbn [orb]. auto.
      * rewrite (split_no_sep _ _ Hh) in E. discriminate.
Qed.

Lemma basename_last (s : string) :
  PosixPath.basename s = List.last (split chr_slash s) EmptyString.
Proof. unfold PosixPath.basename. now rewrite last_split. Qed.

Lemma has_char_app (c : ascii) (a b : string) :
  has_char c (a ++ b) = has_char c a || has_char c b.
Proof. induction a as [|x a IH]; [easy|]. cbn. now rewrite IH, orb_assoc. Qed.

Lemma has_char_take (c : ascii) (n : nat) (s : string) :
  has_char c s = false -> has_char c (take n s) = false.
Proof.
  revert s. induction n as [|n IH]; intros [|a s]; cbn; try easy.
  intros [-> H]%orb_false_elim. now apply IH.
Qed.

Lemma long_regular (x : string) :
  (2 < String.length x)%nat -> has_char chr_slash x = false -> regular x.
Proof.
  intros Hl Hs. repeat split; try exact Hs; intros ->; cbn in Hl; lia.
Qed.


Lemma stem_no_slash (n : string) :
  regular n -> has_char chr_slash (stem (parse n)) = false.
Proof.
  intros Hn. pose proof (regular_component _ Hn) as Hc.
  rewrite (parse_component _ Hc). unfold stem, name. cbn [tail List.last].
  destruct Hc as (_ & _ & Hs).
  destruct (rfind chr_dot n); [|exact Hs].
  destruct (_ && _); [|exact Hs]. now apply has_char_take.
Qed.

Lemma slash_no_digit : (N_of_ascii chr_slash < 48 \/ 57 < N_of_ascii chr_slash)%N.
Proof. left. reflexivity. Qed.

Lemma stamp_no_slash (d : Datetime.datetime) :
  has_char chr_slash (Datetime.strftime_stamp d) = false.
Proof.
  rewrite stamp_parts, !has_char_app.
  now rewrite (stamp_date_digits _ _ slash_no_digit),
    (stamp_time_digits _ _ slash_no_digit).
Qed.

Lemma page_name_regular (d : Datetime.datetime) (n : string) :
  regular n -> regular (VideoShare.page_name d n).
Proof.
  intros Hn. unfold VideoShare.page_name. apply long_regular.
  - rewrite !append_length. cbn. lia.
  - rewrite !has_char_app, stamp_no_slash, (stem_no_slash _ Hn). reflexivity.
Qed.

Lemma qr_name_regular (n : string) : regular n -> regular (VideoShare.qr_name n).
Proof.
  intros Hn. unfold VideoShare.qr_name. apply long_regular.
  - rewrite append_length. cbn. lia.
  - rewrite has_char_app, (stem_no_slash _ Hn). reflexivity.
Qed.

End ResolveFacts.

(** ** Steps that succeed *)

Section OkFacts.
Import PyStr Pathlib Shape OS.

Lemma bind_ok {A B} (c : M A) (k : A -> M B) (w w2 : world) (b : B) :
  bind c k w = (Ok b, w2) ->
  exists a w1, c w = (Ok a, w1) /\ k a w1 = (Ok b, w2).
Proof.
  unfold bind. destruct (c w) as [[a|e] w1]; [|discriminate].
  intros H. now exists a, w1.
Qed.

Lemma write_file_ok (p : string) (c : content) (w w' : world) (u : unit) :
  write_file p c w = (Ok u, w') ->
  w' = log (WriteFile (resolve (cwd w) p) c)
           (set_fs (<[resolve (cwd w) p := File c]> (fs w)) w).
Proof.
  unfold write_file. intros [_ H]%along_ok. revert H. cbn beta zeta.
  destruct (String.eqb _ _); [discriminate|].
  destruct (_ || _); [discriminate|].
  destruct (is_dir _ _); [|discriminate]. now intros [= _ <-].
Qed.

Lemma mkdir_exist_ok_ok (p : string) (w w' : world) (u : unit) :
  mkdir_exist_ok p w = (Ok u, w') ->
  exists made : bool,
    made = negb (is_dir (fs w) (resolve (cwd w) p))
    /\ w' = if made
            then log (Mkdir (resolve (cwd w) p))
                     (set_fs (<[resolve (cwd w) p := Dir]> (fs w)) w)
            else w.
Proof.
  unfold mkdir_exist_ok. intros [_ H]%along_ok. revert H. cbn beta zeta.
  destruct (is_dir (fs w) (resolve (cwd w) p));
    [intros [= _ <-]; now exists false|].
  destruct (fs w !! _); [discriminate|].
  destruct (is_dir _ _); [|discriminate].
  intros [= _ <-]. now exists true.
Qed.

Lemma copy2_ok (src dst : string) (w w' : world) (u : unit) :
  copy2 src dst w = (Ok u, w') ->
  exists (c : content) (nested : bool),
    fs w !! resolve (cwd w) src = Some (File c)
    /\ dir_syntax src = false
    /\ nested = is_dir (fs w) (resolve (cwd w) dst)
    /\ let d := resolve (cwd w)
                  (if nested then PosixPath.join2 dst (PosixPath.basename src)
                   else dst) in
       w' = log (WriteFile d c) (set_fs (<[d := File c]> (fs w)) w).
Proof.
  unfold copy2. intros [_ H]%along_ok. revert H. cbn beta zeta.
  destruct (fs w !! resolve (cwd w) src) as [[|c]|]; [discriminate| |].
  - destruct (dir_syntax src); [discriminate|].
    destruct (_ && _); [discriminate|].
    intros H. exists c, (is_dir (fs w) (resolve (cwd w) dst)).
    split; [reflexivity|]. split; [reflexivity|]. split; [reflexivity|].
    unfold isdir_at in H.
    destruct (reached w dst) eqn:Hr; cbn [andb] in H.
    + apply write_file_ok in H. now destruct (is_dir _ _).
    + pose proof H as [Hr' _]%along_ok. congruence.
  - destruct (bool_decide _); discriminate.
Qed.

Lemma run_command_ok (E : env) (command : list string) (w w' : world)
    (out : string) :
  VideoShare._run_command E command w = (Ok out, w') ->
  w' = log (Spawn (cwd w) command 0) w.
Proof.
  destruct (subprocess_run E command w) as [e|r] eqn:Hr.
  - now rewrite (run_command_not_started _ _ _ _ Hr).
  - rewrite (run_command_started _ _ _ _ Hr).
    destruct (Z.eqb_spec (returncode r) 0) as [->|]; [|discriminate].
    now intros [= _ <-].
Qed.

Lemma component_videos : regular "videos".
Proof. now repeat split. Qed.

Lemma component_pages : regular "pages".
Proof. now repeat split. Qed.

Lemma component_qrcodes : regular "qrcodes".
Proof. now repeat split. Qed.

Lemma strip_prefix_app (a b : list string) : strip_prefix a (a ++ b) = Some b.
Proof.
  induction a as [|x a IH]; [reflexivity|]. cbn. now rewrite String.eqb_refl.
Qed.

Lemma relative_to_extend (p : Path) (x : list string) :
  relative_to (mkPath (root p) (tail p ++ x)) p = Some (mkPath EmptyString x).
Proof.
  unfold relative_to. cbn [root tail].
  now rewrite String.eqb_refl, strip_prefix_app.
Qed.

End OkFacts.

(** ** A share that succeeds *)

Section ShareOk.
Import PyStr Pathlib Shape OS VideoShare Expected.
Context (E : env).

Lemma regular_two (a b : string) : regular a -> regular b -> Forall regular [a; b].
Proof. intros Ha Hb. constructor; [exact Ha|]. constructor; [exact Hb|constructor]. Qed.

Lemma create_player_page_ok (p : Path) (u : option string) (n : string)
    (w w' : world) (page_path : Path) :
  wf_path p -> Forall regular (cwd w) -> regular n ->
  create_player_page (sharer_at p u) (mkPath (root p) (tail p ++ ["videos"; n])) n w
  = (Ok page_path, w') ->
  page_path = mkPath (root p) (tail p ++ ["pages"; page_name (clock w) n])
  /\ let a := page_target (resolve (cwd w) (to_str p)) (clock w) n in
     w' = log (WriteFile a (Raw (page_html n)))
              (set_fs (<[a := File (Raw (page_html n))]> (fs w)) w).
Proof.
  intros Hp Hc Hn. unfold create_player_page, bind, getcwd, OS.now.
  cbn [repo_path pages_dir sharer_at].
  pose proof (regular_two _ _ component_videos Hn) as Hv.
  pose proof (page_name_regular (clock w) n Hn) as Hpg.
  pose proof (regular_two _ _ component_pages Hpg) as Hg.
  rewrite relpath_below by easy.
  rewrite (truediv_component p "pages") by apply component_pages.
  rewrite truediv_component by apply Hpg. cbn [root tail].
  rewrite <- app_assoc. cbn [app].
  set (pp := mkPath _ _).
  destruct (write_file _ _ w) as [[[]|e] w1] eqn:Hw; [|discriminate].
  intros [= <- <-]. split; [reflexivity|].
  apply write_file_ok in Hw. subst w1. subst pp.
  rewrite (resolve_extend _ p) by easy.
  reflexivity.
Qed.

Lemma share_video_ok (p : Path) (u : option string) (video : string)
    (w w' : world) (info : share_info) :
  wf_path p -> Forall regular (cwd w) ->
  share_video E (sharer_at p u) video w = (Ok info, w') ->
  let n := name (parse video) in
  let r := resolve (cwd w) (to_str p) in
  regular n
  /\ exists (c : content) (nested made : bool),
      fs w !! resolve (cwd w) video = Some (File c)
      /\ nested = is_dir (fs w) (video_target r n false)
      /\ trace w' = (trace w ++ share_events r (cwd w) u (clock w) n c nested made)%list
      /\ fs w' = share_fs r u (clock w) n c nested made (fs w)
      /\ cwd w' = cwd w
      /\ info = share_result p u (clock w) n.
Proof.
  intros Hp Hc H n r. unfold share_video, try_except in H.
  destruct (share_video_body E (sharer_at p u) video w) as [[a|[m|code]] w1] eqn:Hb;
    try discriminate H.
  injection H as -> ->.
  unfold share_video_body in Hb. fold n in Hb.
  cbn [videos_dir repo_path github_pages_url sharer_at] in Hb.
  apply bind_ok in Hb as ([] & w1 & Hcopy & Hb).
  apply copy2_ok in Hcopy as (c & nested & Hsrc & Hds & Hnest & Hw1).
  destruct (name_regular _ Hds) as [Hn Hlast]. fold n in Hn, Hlast.
  split; [exact Hn|]. 
  rewrite (truediv_component p "videos") in * by apply component_videos.
  rewrite (truediv_component _ n) in * by apply Hn. cbn [root tail] in *.
  rewrite <- app_assoc in *. cbn [app] in *.
  apply bind_ok in Hb as (page_path & w2 & Hpage & Hb).
  pose proof (regular_two _ _ component_videos Hn) as Hv.
  pose proof (qr_name_regular n Hn) as Hq.
  pose proof (regular_two _ _ component_qrcodes Hq) as Hqq.
  assert (Ed : resolve (cwd w)
                 (if nested
                  then PosixPath.join2
                         (to_str (mkPath (root p) (tail p ++ ["videos"; n])))
                         (PosixPath.basename video)
                  else to_str (mkPath (root p) (tail p ++ ["videos"; n])))
               = video_target r n nested).
  { rewrite basename_last, <- Hlast. unfold video_target.
    destruct nested.
    - rewrite resolve_join2, resolve_extend by
        (easy || apply to_str_not_empty; now apply wf_path_extend).
      now rewrite <- app_assoc.
    - rewrite resolve_extend by easy. now rewrite app_nil_r. }
  rewrite Ed in Hw1. clear Ed.
  rewrite resolve_extend in Hnest by easy. fold r in Hnest.
  assert (Hnested : nested = is_dir (fs w) (video_target r n false))
    by (unfold video_target; now rewrite app_nil_r).
  clear Hnest.
  assert (Hc1 : cwd w1 = cwd w) by now subst w1.
  assert (Hk1 : clock w1 = clock w) by now subst w1.
  apply create_player_page_ok in Hpage as [-> Hw2];
    [|easy|now rewrite Hc1|easy].
  rewrite Hc1, Hk1 in Hw2. fold r in Hw2. cbn zeta in Hw2.
  rewrite relative_to_extend, Hk1 in Hb.
  change (page_url_of u (mkPath EmptyString ["pages"; page_name (clock w) n]))
    with (page_url u (clock w) n) in Hb.
  destruct (qr_overflow E (page_url u (clock w) n)); [unfold raise in Hb; discriminate Hb|].
  rewrite (truediv_component p "qrcodes") in Hb by apply component_qrcodes.
  rewrite (truediv_component _ (qr_name n)) in Hb by apply Hq.
  cbn [root tail] in Hb. rewrite <- app_assoc in Hb. cbn [app] in Hb.
  unfold parent in Hb. cbn [root tail] in Hb.
  rewrite (removelast_app (tail p) (l':=["qrcodes"; qr_name n])) in Hb by easy.
  cbn [List.removelast] in Hb.
  apply bind_ok in Hb as ([] & w3 & Hmk & Hb).
  apply mkdir_exist_ok_ok in Hmk as (made & _ & Hw3).
  apply bind_ok in Hb as ([] & w4 & Hwr & Hb).
  apply write_file_ok in Hwr.
  apply bind_ok in Hb as (o1 & w5 & Hadd & Hb).
  apply run_command_ok in Hadd.
  apply bind_ok in Hb as (o2 & w6 & Hcommit & Hb).
  apply run_command_ok in Hcommit.
  injection Hb as <- <-.
  assert (Hc2 : cwd w2 = cwd w) by now subst w2.
  rewrite Hc2 in Hw3.
  rewrite (resolve_extend _ p ["qrcodes"]) in Hw3
    by (easy || (constructor; [apply component_qrcodes|constructor])).
  fold r in Hw3. fold (qr_dir r) in Hw3.
  assert (Hc3 : cwd w3 = cwd w) by (subst w3; now destruct made).
  rewrite Hc3 in Hwr. rewrite (resolve_extend _ p) in Hwr by easy.
  fold r in Hwr. fold (qr_target r n) in Hwr.
  assert (Hc4 : cwd w4 = cwd w) by now subst w4.
  rewrite Hc4 in Hadd.
  assert (Hc5 : cwd w5 = cwd w) by now subst w5.
  rewrite Hc5 in Hcommit.
  exists c, nested, made. split; [exact Hsrc|]. split; [exact Hnested|].
  clear Hnested. subst w6 w5 w4 w3 w2 w1. unfold share_events, share_fs.
  destruct made; cbn [trace fs cwd log set_fs]; rewrite <- ?app_assoc;
    repeat split.
Qed.
End ShareOk.

(** ** A set-up that succeeds *)

Section SetupOk.
Import PyStr Pathlib Shape OS VideoShare Expected.
Context (E : env).

Lemma chdir_ok (p : string) (w w' : world) (u : unit) :
  chdir p w = (Ok u, w') ->
  w' = log (Chdir (resolve (cwd w) p)) (set_cwd (resolve (cwd w) p) w).
Proof.
  unfold chdir. intros [_ H]%along_ok. revert H. cbn beta zeta.
  destruct (is_dir _ _); [now intros [= _ <-]|].
  destruct (fs w !! _); discriminate.
Qed.

(** Where [chdir] goes is a directory that the walk has reached. *)
Lemma chdir_reached (p : string) (w w' : world) (u : unit) :
  chdir p w = (Ok u, w') ->
  namei (fs w) (cwd w) p = At (resolve (cwd w) p)
  /\ is_dir (fs w) (resolve (cwd w) p) = true.
Proof.
  unfold chdir. intros [Hr H]%along_ok. revert H. cbn beta zeta.
  unfold reached in Hr.
  destruct (namei (fs w) (cwd w) p) as [a|b] eqn:Hn; [|discriminate].
  rewrite (namei_at _ _ _ _ Hn).
  destruct (is_dir _ _); [easy|].
  destruct (fs w !! _); discriminate.
Qed.

Lemma resolve_regular (here : list string) (x : string) :
  regular x -> resolve here x = (here ++ [x])%list.
Proof.
  intros Hx. pose proof (regular_component _ Hx) as Hc.
  unfold resolve. rewrite (component_no_leading_slash _ Hc).
  destruct Hc as (_ & _ & Hs). rewrite (split_no_sep _ _ Hs).
  cbn [fold_left]. now apply walk_step_regular.
Qed.

Lemma regular_gitattributes : regular ".gitattributes".
Proof. now repeat split. Qed.

Lemma regular_git : regular ".git".
Proof. now repeat split. Qed.

Lemma get_github_url_inv (w w' : world) (r : outcome string) :
  _get_github_url E w = (r, w') ->
  fs w' = fs w /\ cwd w' = cwd w
  /\ exists evs, trace w' = (trace w ++ evs)%list
                 /\ Forall (url_event (cwd w)) evs /\ evs <> [].
Proof.
  unfold _get_github_url, bind, try_except_all, run, ret, input.
  assert (Hu : url_event (cwd w) (Input prompt_url)) by now left.
  destruct (subprocess_run E cmd_git_config w) as [e|res].
  - destruct (stdin w) eqn:Hs; intros [= _ <-]; repeat split;
      exists [Input prompt_url]; (split; [reflexivity|]);
      (split; [|discriminate]);
      (constructor; [exact Hu|constructor]).
  - assert (Hs : url_event (cwd w) (Spawn (cwd w) cmd_git_config (returncode res)))
      by (right; now eexists).
    destruct (returncode res =? 0)%Z.
    + intros [= _ <-]. repeat split. eexists. split; [reflexivity|].
      split; [|discriminate]. constructor; [exact Hs|constructor].
    + cbn [stdin log cwd fs clock trace].
      destruct (stdin w); intros [= _ <-]; repeat split; cbn [trace log];
        rewrite <- app_assoc; eexists; (split; [reflexivity|]);
        (split; [|discriminate]);
        (constructor; [exact Hs|constructor; [exact Hu|constructor]]).
Qed.

Lemma get_github_url_ok (w w' : world) (url : string) :
  _get_github_url E w = (Ok url, w') ->
  exists evs, trace w' = (trace w ++ evs)%list /\ url_lookup (cwd w) evs.
Proof.
  unfold _get_github_url, bind, try_except_all, run, ret, input, url_lookup.
  destruct (subprocess_run E cmd_git_config w) as [e|res].
  - destruct (stdin w) eqn:Hs; intros [= _ <-]. eexists. split; [reflexivity|].
    now do 2 right.
  - destruct (Z.eqb_spec (returncode res) 0) as [H0|H0].
    + intros [= _ <-]. eexists. split; [reflexivity|]. left. now rewrite H0.
    + cbn [stdin log cwd fs clock trace].
      destruct (stdin w); intros [= _ <-]. cbn [trace log].
      rewrite <- app_assoc. eexists. split; [reflexivity|].
      right. left. now exists (returncode res).
Qed.

Lemma present_insert_ne (f : gmap (list string) node) (a b : list string)
    (x : node) :
  a <> b -> present (<[a := x]> f) b = present f b.
Proof.
  intros Hne. unfold present, is_dir. now rewrite lookup_insert_ne.
Qed.

Lemma is_dir_insert_ne (f : gmap (list string) node) (a b : list string)
    (x : node) :
  a <> b -> is_dir (<[a := x]> f) b = is_dir f b.
Proof. intros Hne. unfold is_dir. now rewrite lookup_insert_ne. Qed.

Lemma git_dir_checked_absolute (here r : list string) (p : Path) :
  wf_path p -> root p <> EmptyString ->
  git_dir_checked here p = (resolve r (to_str p) ++ [".git"])%list.
Proof.
  intros Hp Hr. unfold git_dir_checked.
  rewrite truediv_component by apply regular_component, regular_git.
  rewrite resolve_extend by (exact Hp || (constructor; [apply regular_git|constructor])).
  f_equal. rewrite !resolve_to_str by exact Hp. unfold base_of.
  apply String.eqb_neq in Hr. now rewrite Hr.
Qed.

(** A [setup_repository] that succeeds: what it has done, in order.
    [fresh] tells whether it took the repository for a new one. *)
Lemma init_ok (repo : string) (w w' : world) (self : GitLFSVideoShare) :
  init E repo w = (Ok self, w') ->
  let p := parse repo in
  let r := resolve (cwd w) (to_str p) in
  exists (url : string) (fresh : bool) (evs_url : list event),
    let made_videos := negb (is_dir (fs w) (r ++ ["videos"])) in
    let made_pages := negb (is_dir (fs w) (r ++ ["pages"])) in
    self = sharer_at p (Some url)
    /\ cwd w' = r
    /\ trace w' = (trace w ++ setup_events r made_videos made_pages fresh evs_url)%list
    /\ Forall (url_event r) evs_url /\ evs_url <> []
    /\ (present (fs w) (git_dir_checked r p) = false -> fresh = true)
    /\ (root p <> EmptyString ->
        fresh = negb (present (fs w) (r ++ [".git"])))
    /\ url_lookup r evs_url.
Proof.
  intros H p r. pose proof (parse_wf repo) as Hp. fold p in Hp.
  unfold init, setup_repository, try_except in H. fold p in H.
  match type of H with
  | match ?body w with _ => _ end = _ =>
      destruct (body w) as [[a|[msg|code]] w0] eqn:Hb
  end; try discriminate H.
  injection H as -> ->.
  cbn [videos_dir pages_dir repo_path sharer_at] in Hb.
  rewrite !truediv_component in Hb
    by (apply regular_component;
        first [apply component_videos|apply component_pages|apply regular_git]).
  apply bind_ok in Hb as ([] & w1 & Hm1 & Hb).
  apply mkdir_exist_ok_ok in Hm1 as (made_videos & Hmv & Hw1).
  apply bind_ok in Hb as ([] & w2 & Hm2 & Hb).
  apply mkdir_exist_ok_ok in Hm2 as (made_pages & Hmp & Hw2).
  apply bind_ok in Hb as ([] & w3 & Hcd & Hb).
  pose proof (chdir_reached _ _ _ _ Hcd) as [Hn2 Hd2].
  apply chdir_ok in Hcd.
  apply bind_ok in Hb as (initialised & w4 & Hex & Hb).
  assert (Hone : forall x, regular x -> Forall regular [x])
    by (intros x Hx; constructor; [exact Hx|constructor]).
  rewrite resolve_extend in Hw1, Hmv by auto using component_videos.
  fold r in Hw1, Hmv.
  assert (Hc1 : cwd w1 = cwd w) by (subst w1; now destruct made_videos).
  rewrite Hc1, resolve_extend in Hw2, Hmp by auto using component_pages.
  fold r in Hw2, Hmp.
  assert (Hmp' : made_pages = negb (is_dir (fs w) (r ++ ["pages"]))).
  { rewrite Hmp. subst w1. destruct made_videos; [|reflexivity].
    cbn [fs log set_fs]. rewrite is_dir_insert_ne; [reflexivity|].
    intros [_ ?]%app_inj_tail. discriminate. }
  clear Hmp.
  assert (Hc2 : cwd w2 = cwd w) by (subst w2; now destruct made_pages).
  rewrite Hc2 in Hcd, Hn2, Hd2. fold r in Hcd, Hn2, Hd2.
  assert (Hc3 : cwd w3 = r) by now subst w3.
  assert (Hf3 : fs w3 = fs w2) by now subst w3.
  unfold path_exists in Hex. injection Hex as <- <-.
  assert (Hg : resolve r (to_str (mkPath (root p) (tail p ++ [".git"])))
               = git_dir_checked r p).
  { unfold git_dir_checked.
    now rewrite truediv_component by apply regular_component, regular_git. }
  assert (Hlast : forall x, x <> ".git" -> (r ++ [x])%list <> git_dir_checked r p).
  { intros x Hx. rewrite <- Hg, resolve_extend by auto using regular_git.
    intros [_ ?]%app_inj_tail. congruence. }
  assert (Hpres : present (fs w3) (git_dir_checked r p)
                  = present (fs w) (git_dir_checked r p)).
  { subst w3 w2 w1. destruct made_videos, made_pages; cbn [fs log set_fs set_cwd];
      rewrite ?present_insert_ne by (apply Hlast; discriminate); reflexivity. }
  set (git := to_str (mkPath (root p) (tail p ++ [".git"]))) in *.
  assert (Hfound : exists_at w3 git
                   = reached w3 git && present (fs w) (git_dir_checked r p)).
  { unfold exists_at. subst git.
    rewrite to_str_not_empty by (apply wf_path_extend; auto using regular_git).
    now rewrite Hc3, Hg, Hpres. }
  clear Hpres Hlast.
  apply bind_ok in Hb as ([] & w5 & Hfresh & Hb).
  apply bind_ok in Hb as (url & w6 & Hurl & Hb).
  injection Hb as <- <-.
  pose proof (get_github_url_ok _ _ _ Hurl) as (evs' & Ht6' & Hlook).
  apply get_github_url_inv in Hurl as (_ & Hc6 & evs_url & Ht6 & Hev & Hne).
  rewrite Ht6 in Ht6'. apply app_inv_head in Ht6'. subst evs'.
  exists url, (negb (exists_at w3 git)), evs_url. cbn zeta.
  rewrite <- Hmv, <- Hmp'.
  split; [reflexivity|].
  assert (Hw5 : cwd w5 = r
                /\ trace w5
                   = (trace w3
                      ++ (if negb (exists_at w3 git)
                          then fresh_events r else []))%list).
  { destruct (negb (exists_at w3 git)).
    - apply bind_ok in Hfresh as ([] & v1 & Hpr & Hfresh).
      injection Hpr as <-.
      apply bind_ok in Hfresh as (o1 & v2 & Hi & Hfresh).
      apply run_command_ok in Hi.
      apply bind_ok in Hfresh as ([] & v3 & Hwr & Hfresh).
      apply write_file_ok in Hwr.
      apply bind_ok in Hfresh as (o2 & v4 & Hl & Hfresh).
      apply run_command_ok in Hl.
      injection Hfresh as <-.
      assert (Hv2 : cwd v2 = r) by (subst v2; exact Hc3).
      rewrite Hv2, (resolve_regular _ _ regular_gitattributes) in Hwr.
      assert (Hv3 : cwd v3 = r) by (subst v3; exact Hv2).
      rewrite Hv3 in Hl. cbn [cwd log] in Hi. rewrite Hc3 in Hi.
      subst v4 v3 v2. cbn [cwd trace log set_fs]. split; [reflexivity|].
      unfold fresh_events. now rewrite <- !app_assoc.
    - injection Hfresh as <-. split; [exact Hc3|]. now rewrite app_nil_r. }
  destruct Hw5 as [Hc5 Ht5]. rewrite Hc5 in Hc6, Hev, Hlook.
  split; [exact Hc6|].
  split; [|split; [exact Hev|split; [exact Hne|split; [|split; [|exact Hlook]]]]].
  - rewrite Ht6, Ht5. subst w3 w2 w1. unfold setup_events, mkdir_events.
    destruct made_videos, made_pages; cbn [trace log set_fs set_cwd];
      now rewrite <- ?app_assoc.
  - intros Hno. now rewrite Hfound, Hno, andb_false_r.
  - intros Hroot. rewrite Hfound.
    rewrite (git_dir_checked_absolute _ (cwd w) _ Hp Hroot). fold r.
    assert (Hr : reached w3 git = true); [|now rewrite Hr].
    unfold reached. rewrite Hc3, Hf3. subst git.
    rewrite namei_extend by (exact Hp || apply regular_git).
    rewrite (namei_absolute _ r (cwd w)), Hn2.
    + cbn [namei_step]. now rewrite Hd2.
    + rewrite to_str_isabs by exact Hp.
      apply String.eqb_neq in Hroot. now rewrite Hroot.
Qed.
End SetupOk.

(** * The claims *)

Section Claims.
Import PyStr Pathlib Shape Datetime OS Trace VideoShare Expected Scenario.

Lemma regular_cwd_repo : Forall regular ["home"; "u"; "myrepo"].
Proof. repeat (constructor; [now repeat split|]). constructor. Qed.

Lemma regular_cwd_home : Forall regular ["home"; "u"].
Proof. repeat (constructor; [now repeat split|]). constructor. Qed.

Lemma valid_t0 : valid t0.
Proof. unfold valid, t0; cbn. lia. Qed.

Lemma valid_t1 : valid t1.
Proof. unfold valid, t1; cbn. lia. Qed.

Lemma t0_t1_differ : ~ same_second t0 t1.
Proof. now intros (_ & _ & _ & _ & _ & H). Qed.

Lemma page_name_inv (d1 d2 : datetime) (n1 n2 : string) :
  page_name d1 n1 = page_name d2 n2 ->
  strftime_stamp d1 = strftime_stamp d2 /\ stem (parse n1) = stem (parse n2).
Proof.
  unfold page_name. intros [Hs H]%stamp_prefix_inv.
  split; [exact Hs|]. apply append_inv_head in H. now apply append_inv_tail in H.
Qed.

Lemma added_app (w w' : world) (evs : list event) :
  trace w' = (trace w ++ evs)%list -> added w w' = evs.
Proof. intros H. unfold added. rewrite H. apply drop_app_length. Qed.




Lemma in_share_events_page (r here : list string) (u : option string)
    (d : datetime) (n : string) (c : content) (nested made : bool) :
  In (WriteFile (page_target r d n) (Raw (page_html n)))
     (share_events r here u d n c nested made).
Proof. unfold share_events. cbn [app]. apply in_cons, in_eq. Qed.


Lemma in_share_events_qr (r here : list string) (u : option string)
    (d : datetime) (n : string) (c : content) (nested made : bool) :
  In (WriteFile (qr_target r n) (QrPng (page_url u d n)))
     (share_events r here u d n c nested made).
Proof.
  unfold share_events. cbn [app]. do 2 apply in_cons.
  apply in_or_app. right. apply in_eq.
Qed.







Lemma target_path_shape (repo : string) (u : option string) (n : string) :
  regular n ->
  truediv (videos_dir (sharer_at (parse repo) u)) n
  = mkPath (root (parse repo)) (tail (parse repo) ++ ["videos"; n]).
Proof.
  intros Hn. cbn [videos_dir sharer_at].
  rewrite (truediv_component _ "videos") by apply component_videos.
  rewrite (truediv_component _ n) by apply Hn. cbn [root tail].
  now rewrite <- app_assoc.
Qed.

Lemma writes_share_events (r here : list string) (u : option string)
    (d : datetime) (n : string) (c : content) (nested made : bool) :
  writes (share_events r here u d n c nested made)
  = [(video_target r n nested, c);
     (page_target r d n, Raw (page_html n));
     (qr_target r n, QrPng (page_url u d n))].
Proof. unfold share_events, writes. now destruct made. Qed.


Lemma share_targets_distinct (r : list string) (d : datetime) (n : string)
    (nested : bool) :
  video_target r n nested <> page_target r d n
  /\ video_target r n nested <> qr_dir r
  /\ video_target r n nested <> qr_target r n
  /\ page_target r d n <> qr_dir r
  /\ page_target r d n <> qr_target r n
  /\ qr_dir r <> qr_target r n.
Proof.
  unfold video_target, page_target, qr_dir, qr_target.
  repeat split; intros Heq%app_inv_head; destruct nested; discriminate Heq.
Qed.





Lemma page_path_shape (repo : string) (u : option string) (d : datetime)
    (n : string) :
  regular n ->
  truediv (pages_dir (sharer_at (parse repo) u)) (page_name d n)
  = mkPath (root (parse repo)) (tail (parse repo) ++ ["pages"; page_name d n]).
Proof.
  intros Hn. cbn [pages_dir sharer_at].
  rewrite (truediv_component _ "pages") by apply component_pages.
  rewrite (truediv_component _ (page_name d n)) by now apply page_name_regular.
  cbn [root tail]. now rewrite <- app_assoc.
Qed.

(** C2 as it is stated fails: for the share of [/home/u/clip.mp4] into
    [/home/u/myrepo] at 2024-01-02 03:04:05, with the base URL
    [https://alice.github.io/demo], the page's path from the root is
    [pages/20240102_030405_clip.html], and the QR image holds the base
    URL, a slash and that path, which is not the two put end to end. *)
Lemma C2_counterexample :
  let w := in_repo t0 initialised_fs in
  let res := share_video (git_ok None) sharer0 "/home/u/clip.mp4" w in
  let base := "https://alice.github.io/demo" in
  exists (info : share_info) (rel : Path) (payload : string),
    fst res = Ok info
    /\ github_pages_url sharer0 = Some base
    /\ relative_to (parse (info_page_path info)) (repo_path sharer0) = Some rel
    /\ In (WriteFile ["home"; "u"; "myrepo"; "qrcodes"; "clip_qr.png"]
                     (QrPng payload))
          (added w (snd res))
    /\ payload <> base ++ to_str rel.
Proof.
  intros w res base.
  exists (info_of (fst res)),
         (mkPath EmptyString ["pages"; "20240102_030405_clip.html"]),
         "https://alice.github.io/demo/pages/20240102_030405_clip.html".
  split; [vm_compute; reflexivity|]. split; [reflexivity|].
  split; [vm_compute; reflexivity|]. split.
  - assert (E : added w (snd res)
                = share_events ["home"; "u"; "myrepo"] ["home"; "u"; "myrepo"]
                    (Some base) t0 "clip.mp4" (Raw "VIDEO") false true)
      by (vm_compute; reflexivity).
    rewrite E.
    exact (in_share_events_qr ["home"; "u"; "myrepo"] ["home"; "u"; "myrepo"]
             (Some base) t0 "clip.mp4" (Raw "VIDEO") false true).
  - vm_compute. discriminate.
Qed.

(** C2, amended. In every share that succeeds, the string put into the
    QR image is the hosting base URL, then a slash, then the path of the
    page written relative to the repository root; the same string is
    returned as [page_url]. *)
Theorem C2_qr_payload_is_base_slash_page_path (E : env) (repo : string)
    (u : option string) (video : string) (w w' : world) (info : share_info) :
  Forall regular (cwd w) ->
  share_video E (sharer_at (parse repo) u) video w = (Ok info, w') ->
  let self := sharer_at (parse repo) u in
  let n := name (parse video) in
  let page_path := truediv (pages_dir self) (page_name (clock w) n) in
  let r := resolve (cwd w) (to_str (repo_path self)) in
  exists (rel : Path) (html : string),
    relative_to page_path (repo_path self) = Some rel
    /\ info_page_path info = to_str page_path
    /\ In (WriteFile (resolve (cwd w) (to_str page_path)) (Raw html)) (added w w')
    /\ In (WriteFile (qr_target r n)
                     (QrPng (fmt_url (github_pages_url self) ++ "/" ++ to_str rel)))
          (added w w')
    /\ info_page_url info = fmt_url (github_pages_url self) ++ "/" ++ to_str rel.
Proof.
  intros Hc H self n page_path r.
  pose proof (parse_wf repo) as Hp.
  apply share_video_ok in H as (Hn & c & nested & made & _ & _ & Ht & _ & _ & ->);
    [|exact Hp|exact Hc].
  fold n in Hn, Ht |- *.
  assert (Hpp : page_path
                = mkPath (root (parse repo))
                         (tail (parse repo) ++ ["pages"; page_name (clock w) n]))
    by now apply page_path_shape.
  assert (Hres : resolve (cwd w) (to_str page_path)
                 = page_target (resolve (cwd w) (to_str (parse repo))) (clock w) n).
  { rewrite Hpp, resolve_extend; [reflexivity|exact Hp|].
    apply regular_two; [apply component_pages|now apply page_name_regular]. }
  exists (mkPath EmptyString ["pages"; page_name (clock w) n]), (page_html n).
  rewrite (added_app _ _ _ Ht), Hres. repeat split.
  - rewrite Hpp. apply relative_to_extend.
  - now rewrite Hpp.
  - exact (in_share_events_page _ _ _ _ _ _ _ _).
  - exact (in_share_events_qr _ _ _ _ _ _ _ _).
Qed.

Lemma C2_witness :
  let w := in_repo t0 initialised_fs in
  let res := share_video (git_ok None) sharer0 "/home/u/clip.mp4" w in
  let n := name (parse "/home/u/clip.mp4") in
  let page_path := truediv (pages_dir sharer0) (page_name (clock w) n) in
  let r := resolve (cwd w) (to_str (repo_path sharer0)) in
  exists (rel : Path) (html : string),
    relative_to page_path (repo_path sharer0) = Some rel
    /\ info_page_path (info_of (fst res)) = to_str page_path
    /\ In (WriteFile (resolve (cwd w) (to_str page_path)) (Raw html))
          (added w (snd res))
    /\ In (WriteFile (qr_target r n)
                     (QrPng (fmt_url (github_pages_url sharer0) ++ "/" ++ to_str rel)))
          (added w (snd res))
    /\ info_page_url (info_of (fst res))
       = fmt_url (github_pages_url sharer0) ++ "/" ++ to_str rel.
Proof.
  intros w res.
  apply (C2_qr_payload_is_base_slash_page_path (git_ok None) "/home/u/myrepo"
           (Some "https://alice.github.io/demo") "/home/u/clip.mp4" w (snd res)
           (info_of (fst res))).
  - repeat (constructor; [now repeat split|]). constructor.
  - vm_compute. reflexivity.
Defined.

(** C8 as it is stated fails: after [clip.mp4] is shared at 03:04:05,
    sharing [clip.mov] one second later writes [qrcodes/clip_qr.png]
    again, with another payload: a file the first share created is
    changed by the second. *)
Lemma C8_counterexample :
  let w := in_repo t0 initialised_fs in
  let res1 := share_video (git_ok None) sharer0 "/home/u/clip.mp4" w in
  let w1 := set_clock t1 (snd res1) in
  let res2 := share_video (git_ok None) sharer0 "/home/u/clip.mov" w1 in
  let qr := ["home"; "u"; "myrepo"; "qrcodes"; "clip_qr.png"] in
  exists (info1 info2 : share_info) (c1 c2 : content),
    fst res1 = Ok info1 /\ fst res2 = Ok info2
    /\ In (qr, c1) (writes (added w (snd res1)))
    /\ fs (snd res1) !! qr = Some (File c1)
    /\ fs (snd res2) !! qr = Some (File c2)
    /\ c1 <> c2.
Proof.
  intros w res1 w1 res2 qr.
  exists (info_of (fst res1)), (info_of (fst res2)),
         (QrPng "https://alice.github.io/demo/pages/20240102_030405_clip.html"),
         (QrPng "https://alice.github.io/demo/pages/20240102_030406_clip.html").
  split; [vm_compute; reflexivity|]. split; [vm_compute; reflexivity|].
  split; [vm_compute; tauto|].
  split; [vm_compute; reflexivity|]. split; [vm_compute; reflexivity|].
  discriminate.
Qed.

Lemma stems_differ_names_differ (n1 n2 : string) :
  stem (parse n1) <> stem (parse n2) -> n1 <> n2.
Proof. intros H ->. now apply H. Qed.

Lemma qr_name_differ (n1 n2 : string) :
  stem (parse n1) <> stem (parse n2) -> qr_name n1 <> qr_name n2.
Proof. unfold qr_name. intros H Heq%append_inv_tail. now apply H. Qed.

Lemma page_name_differ (d1 d2 : datetime) (n1 n2 : string) :
  stem (parse n1) <> stem (parse n2) -> page_name d1 n1 <> page_name d2 n2.
Proof. intros H [_ Heq]%page_name_inv. now apply H. Qed.

(** The files of two shares whose videos have different stems are
    different files. *)
Lemma share_targets_differ (r : list string) (d1 d2 : datetime) (n1 n2 : string)
    (nested1 nested2 : bool) (q : list string) :
  stem (parse n1) <> stem (parse n2) ->
  q = video_target r n1 nested1 \/ q = page_target r d1 n1 \/ q = qr_target r n1 ->
  video_target r n2 nested2 <> q /\ page_target r d2 n2 <> q
  /\ qr_dir r <> q /\ qr_target r n2 <> q.
Proof.
  intros Hs Hq.
  pose proof (stems_differ_names_differ _ _ Hs) as Hn.
  pose proof (qr_name_differ _ _ Hs) as Hqn.
  pose proof (page_name_differ d1 d2 _ _ Hs) as Hpn.
  unfold video_target, page_target, qr_dir, qr_target in *.
  destruct Hq as [-> | [-> | ->]]; repeat split;
    intros Heq%app_inv_head; destruct nested1, nested2;
    cbn [app] in Heq; try discriminate Heq;
    injection Heq; intros; congruence.
Qed.

(** C8, amended. A share that succeeds writes exactly three files: the
    copy of the video, one page and one QR image; and a share of a video
    with another stem, run in the same directory, leaves those three
    files as they are. *)
Theorem C8_files_kept_by_shares_of_other_stems (E : env) (repo : string)
    (u : option string) (video1 video2 : string) (w1 w1' w2 w2' : world)
    (info1 info2 : share_info) :
  Forall regular (cwd w1) -> cwd w2 = cwd w1 ->
  share_video E (sharer_at (parse repo) u) video1 w1 = (Ok info1, w1') ->
  share_video E (sharer_at (parse repo) u) video2 w2 = (Ok info2, w2') ->
  stem (parse (name (parse video1))) <> stem (parse (name (parse video2))) ->
  let n := name (parse video1) in
  let r := resolve (cwd w1) (to_str (parse repo)) in
  (exists (c : content) (nested : bool),
      writes (added w1 w1')
      = [(video_target r n nested, c);
         (page_target r (clock w1) n, Raw (page_html n));
         (qr_target r n, QrPng (page_url u (clock w1) n))])
  /\ forall (q : list string) (c : content),
      In (q, c) (writes (added w1 w1')) -> fs w2' !! q = fs w2 !! q.
Proof.
  intros Hc Hcwd H1 H2 Hs n r.
  pose proof (parse_wf repo) as Hp.
  apply share_video_ok in H1 as (_ & c1 & nested1 & made1 & _ & _ & Ht1 & _);
    [|exact Hp|exact Hc].
  apply share_video_ok in H2 as (_ & c2 & nested2 & made2 & _ & _ & _ & Hf2 & _);
    [|exact Hp|now rewrite Hcwd].
  rewrite Hcwd in Hf2. fold n r in Ht1. fold r in Hf2.
  rewrite (added_app _ _ _ Ht1), writes_share_events.
  split; [now exists c1, nested1|].
  intros q c Hin.
  assert (Hq : q = video_target r n nested1 \/ q = page_target r (clock w1) n
               \/ q = qr_target r n).
  { destruct Hin as [[= <- _]|[[= <- _]|[[= <- _]|[]]]]; auto. }
  destruct (share_targets_differ r (clock w1) (clock w2) n (name (parse video2))
              nested1 nested2 q Hs Hq) as (Hv & Hpg & Hd & Hqr).
  rewrite Hf2. unfold share_fs.
  rewrite lookup_insert_ne by exact Hqr.
  destruct made2; cbn [id]; rewrite ?lookup_insert_ne by assumption; reflexivity.
Qed.

Lemma C8_witness :
  let w := in_repo t0 initialised_fs in
  let res1 := share_video (git_ok None) sharer0 "/home/u/clip.mp4" w in
  let w2 := set_clock t1 (snd res1) in
  let res2 := share_video (git_ok None) sharer0 "/home/u/talk.mkv" w2 in
  let n := name (parse "/home/u/clip.mp4") in
  let r := resolve (cwd w) (to_str (parse "/home/u/myrepo")) in
  (exists (c : content) (nested : bool),
      writes (added w (snd res1))
      = [(video_target r n nested, c);
         (page_target r (clock w) n, Raw (page_html n));
         (qr_target r n, QrPng (page_url (Some "https://alice.github.io/demo")
                                         (clock w) n))])
  /\ forall (q : list string) (c : content),
      In (q, c) (writes (added w (snd res1))) -> fs (snd res2) !! q = fs w2 !! q.
Proof.
  intros w res1 w2 res2.
  apply (C8_files_kept_by_shares_of_other_stems (git_ok None) "/home/u/myrepo"
           (Some "https://alice.github.io/demo")
           "/home/u/clip.mp4" "/home/u/talk.mkv" w (snd res1) w2 (snd res2)
           (info_of (fst res1)) (info_of (fst res2))).
  - repeat (constructor; [now repeat split|]). constructor.
  - vm_compute. reflexivity.
  - vm_compute. reflexivity.
  - vm_compute. reflexivity.
  - vm_compute. discriminate.
Defined.

Lemma quiet_no_failure (evs pre post : list event) (d command : list string)
    (rc : Z) :
  quiet evs -> evs = (pre ++ Spawn d command rc :: post)%list -> rc = 0%Z.
Proof.
  intros Hq ->. unfold quiet in Hq. rewrite List.Forall_forall in Hq.
  apply (Hq (Spawn d command rc)). apply in_or_app. right. apply in_eq.
Qed.

Lemma ends_failed_last (evs pre post : list event) (d command : list string)
    (rc : Z) :
  ends_failed evs -> evs = (pre ++ Spawn d command rc :: post)%list ->
  rc <> 0%Z -> post = [].
Proof.
  intros (evs0 & d0 & c0 & rc0 & -> & Hq & _) Heq Hrc.
  destruct post as [|e post]; [reflexivity|]. exfalso.
  destruct (exists_last (l:=e :: post) ltac:(easy)) as (post' & z & Hp).
  rewrite Hp in Heq.
  change (pre ++ Spawn d command rc :: post' ++ [z])%list
    with (pre ++ (Spawn d command rc :: post') ++ [z])%list in Heq.
  rewrite app_assoc in Heq. apply app_inj_tail in Heq as [Heq _].
  apply Hrc. now apply (quiet_no_failure evs0 pre post' d command).
Qed.

(** C7. The command runner raises exactly when the command it ran exits
    with a status other than zero, and returns the stripped standard
    output otherwise; and in [share_video] a command that fails is the
    last thing that happens: nothing follows it in the trace, and the
    share raises. *)
Theorem C7_failed_command_raises_and_ends_share (E : env) :
  (forall (command : list string) (w : world) (r : completed),
      subprocess_run E command w = inr r ->
      ((exists e, fst (_run_command E command w) = Raise e)
       <-> returncode r <> 0%Z)
      /\ (returncode r = 0%Z ->
          fst (_run_command E command w) = Ok (strip (stdout r))))
  /\ (forall (self : GitLFSVideoShare) (video : string) (w : world)
             (pre post : list event) (d command : list string) (rc : Z),
         added w (snd (share_video E self video w))
         = (pre ++ Spawn d command rc :: post)%list ->
         rc <> 0%Z ->
         post = []
         /\ exists msg, fst (share_video E self video w) = Raise (Exception msg)).
Proof.
  split.
  - intros command w r Hr. rewrite (run_command_started _ _ _ _ Hr). cbn [fst].
    destruct (Z.eqb_spec (returncode r) 0) as [H0|H0]; split.
    + split; [intros [e He]; discriminate He|intros H; now destruct H].
    + reflexivity.
    + split; [intros _; exact H0|intros _; now eexists].
    + intros H; now destruct H0.
  - intros self video w pre post d command rc Hadd Hrc.
    destruct (failfast_share_video E self video w) as (evs & Hev & Hcase).
    rewrite (added_app _ _ _ Hev) in Hadd.
    destruct Hcase as [Hq|[Hf Hm]].
    + exfalso. apply Hrc. now apply (quiet_no_failure evs pre post d command).
    + split; [|exact Hm]. now apply (ends_failed_last evs pre post d command rc).
Qed.

Lemma C7_witness :
  let w := in_repo t0 initialised_fs in
  (exists e, fst (_run_command git_add_fails cmd_git_add w) = Raise e)
  /\ exists msg,
      fst (share_video git_add_fails sharer0 "/home/u/clip.mp4" w)
      = Raise (Exception msg).
Proof.
  intros w.
  destruct (C7_failed_command_raises_and_ends_share git_add_fails) as [Hrun Hshare].
  split.
  - apply (proj1 (Hrun cmd_git_add w
                    (mkCompleted 128 EmptyString "fatal: index locked") eq_refl)).
    discriminate.
  - apply (Hshare sharer0 "/home/u/clip.mp4" w
             [WriteFile ["home"; "u"; "myrepo"; "videos"; "clip.mp4"] (Raw "VIDEO");
              WriteFile ["home"; "u"; "myrepo"; "pages"; "20240102_030405_clip.html"]
                        (Raw (page_html "clip.mp4"));
              Mkdir ["home"; "u"; "myrepo"; "qrcodes"];
              WriteFile ["home"; "u"; "myrepo"; "qrcodes"; "clip_qr.png"]
                (QrPng "https://alice.github.io/demo/pages/20240102_030405_clip.html")]
             [] ["home"; "u"; "myrepo"] cmd_git_add 128%Z).
    + vm_compute. reflexivity.
    + discriminate.
Defined.

Lemma in_mkdir_events (made : bool) (a : list string) (e : event) :
  In e (mkdir_events made a) -> e = Mkdir a.
Proof. destruct made; [now intros [<-|[]]|intros []]. Qed.

Lemma in_setup_events (r : list string) (made_videos made_pages fresh : bool)
    (evs_url : list event) (e : event) :
  Forall (url_event r) evs_url ->
  In e (setup_events r made_videos made_pages fresh evs_url) ->
  e = Mkdir (r ++ ["videos"]) \/ e = Mkdir (r ++ ["pages"]) \/ e = Chdir r
  \/ (fresh = true /\ In e (fresh_events r))
  \/ url_event r e.
Proof.
  intros Hu. unfold setup_events. rewrite !in_app_iff.
  intros [H|[H|[H|[H|H]]]].
  - left. now apply in_mkdir_events in H.
  - right. left. now apply in_mkdir_events in H.
  - right. right. left. now destruct H as [<-|[]].
  - do 3 right. left. now destruct fresh.
  - do 4 right. rewrite List.Forall_forall in Hu. now apply Hu.
Qed.

(** C10. When the constructor returns, the process is in the repository
    directory; every command the constructor ran was run there, and the
    one file it writes, [.gitattributes], is written there; and the rest
    of [main] never leaves that directory: it ends in it and runs each of
    its commands in it. *)
Theorem C10_constructor_changes_directory_for_good (E : env) (repo : string)
    (w w' : world) (self : GitLFSVideoShare) :
  init E repo w = (Ok self, w') ->
  let r := resolve (cwd w) (to_str (parse repo)) in
  cwd w' = r
  /\ (forall d command rc, In (Spawn d command rc) (added w w') -> d = r)
  /\ (forall q c, In (WriteFile q c) (added w w') ->
                 q = (r ++ [".gitattributes"])%list)
  /\ forall w2, cwd w2 = r ->
       cwd (snd (main_share E self w2)) = r
       /\ forall d command rc,
            In (Spawn d command rc) (added w2 (snd (main_share E self w2))) ->
            d = r.
Proof.
  intros H r.
  apply init_ok in H as (url & fresh & evs_url & _ & Hcwd & Ht & Hu & _).
  fold r in Hcwd, Ht, Hu. cbn zeta in Ht. rewrite (added_app _ _ _ Ht).
  split; [exact Hcwd|]. split; [|split].
  - intros d command rc Hin.
    destruct (in_setup_events _ _ _ _ _ _ Hu Hin)
      as [Hin'|[Hin'|[Hin'|[[_ Hin']|Hin']]]];
      try discriminate Hin'; clear Hin; rename Hin' into Hin.
    + unfold fresh_events in Hin.
      destruct Hin as [Hin|[Hin|[Hin|[Hin|[]]]]]; try discriminate Hin;
        now injection Hin.
    + destruct Hin as [Hin|[rc' Hin]]; [discriminate Hin|now injection Hin].
  - intros q c Hin.
    destruct (in_setup_events _ _ _ _ _ _ Hu Hin)
      as [Hin'|[Hin'|[Hin'|[[_ Hin']|Hin']]]];
      try discriminate Hin'; clear Hin; rename Hin' into Hin.
    + unfold fresh_events in Hin.
      destruct Hin as [Hin|[Hin|[Hin|[Hin|[]]]]]; try discriminate Hin;
        now injection Hin.
    + destruct Hin as [Hin|[rc' Hin]]; discriminate Hin.
  - intros w2 Hw2.
    destruct (stays_main_share E self w2) as (Hc2 & evs & Hev & Hloc).
    split; [now rewrite Hc2|].
    intros d command rc Hin. rewrite (added_app _ _ _ Hev) in Hin.
    rewrite List.Forall_forall in Hloc. specialize (Hloc _ Hin).
    cbn [local] in Hloc. now rewrite Hloc.
Qed.

Lemma C10_witness :
  let w := fresh ["https://alice.github.io/demo"] in
  let res := init (git_ok None) "/home/u/myrepo" w in
  let r := resolve (cwd w) (to_str (parse "/home/u/myrepo")) in
  cwd (snd res) = r
  /\ (forall d command rc, In (Spawn d command rc) (added w (snd res)) -> d = r)
  /\ (forall q c, In (WriteFile q c) (added w (snd res)) ->
                 q = (r ++ [".gitattributes"])%list)
  /\ forall w2, cwd w2 = r ->
       cwd (snd (main_share (git_ok None) (sharer_of (fst res)) w2)) = r
       /\ forall d command rc,
            In (Spawn d command rc)
               (added w2 (snd (main_share (git_ok None) (sharer_of (fst res)) w2))) ->
            d = r.
Proof.
  intros w res.
  apply (C10_constructor_changes_directory_for_good (git_ok None)
           "/home/u/myrepo" w (snd res) (sharer_of (fst res))).
  vm_compute. reflexivity.
Defined.

(** C1 as it is stated fails: in an empty directory [/home/u/myrepo],
    with the video path [/home/u/nope.mp4] that does not exist, the
    program has created [videos/] and [.gitattributes] and has run
    [git init] before it prints that the file does not exist. *)
Lemma C1_counterexample :
  let w := fresh ["/home/u/myrepo"; "https://alice.github.io/demo";
                  "/home/u/nope.mp4"] in
  let res := main (git_ok None) w in
  let repo := ["home"; "u"; "myrepo"] in
  present (fs w) ["home"; "u"; "nope.mp4"] = false
  /\ exists pre post,
      added w (snd res) = (pre ++ Print msg_missing :: post)%list
      /\ In (Mkdir (repo ++ ["videos"])) pre
      /\ In (WriteFile (repo ++ [".gitattributes"]) (Raw gitattributes)) pre
      /\ In (Spawn repo cmd_git_init 0) pre
      /\ In (Spawn repo cmd_git_config 1) pre.
Proof.
  intros w res repo. split; [vm_compute; reflexivity|].
  exists [Print ("=== GitHub LFS 视频分享工具 ===" ++ nl); Input prompt_repo;
          Mkdir (repo ++ ["videos"]); Mkdir (repo ++ ["pages"]); Chdir repo;
          Print "初始化Git仓库..."; Spawn repo cmd_git_init 0;
          WriteFile (repo ++ [".gitattributes"]) (Raw gitattributes);
          Spawn repo cmd_git_lfs_install 0; Spawn repo cmd_git_config 1;
          Input prompt_url; Input prompt_video], [].
  split; [vm_compute; reflexivity|]. cbn [In]. tauto.
Qed.

Lemma main_after_prompt (E : env) (w : world) (line0 : string)
    (rest0 : list string) :
  stdin w = line0 :: rest0 ->
  main E w
  = try_except (sharer <- init E (strip line0) ;; main_share E sharer)
               (fun msg => print (nl ++ "错误：" ++ msg))
               (started w rest0).
Proof.
  intros H. unfold main, bind at 1 2, print at 1, emit, input.
  cbn [stdin cwd fs clock trace]. rewrite H. unfold started.
  now rewrite <- app_assoc.
Qed.

Lemma main_share_missing (E : env) (sharer : GitLFSVideoShare) (w : world)
    (line : string) (rest : list string) :
  stdin w = line :: rest ->
  fst (path_exists (strip_char chr_dq (strip line)) w) = Ok false ->
  main_share E sharer w
  = (Ok tt, mkWorld (cwd w) (fs w) (clock w) rest
                    (trace w ++ [Input prompt_video; Print msg_missing])).
Proof.
  intros H Hex. unfold main_share, bind, input. rewrite H.
  unfold path_exists, exists_at, reached in *. cbn [fst cwd fs] in *.
  injection Hex as ->.
  cbn [negb]. unfold print, emit. cbn [cwd fs clock stdin trace].
  now rewrite <- app_assoc.
Qed.

(** C1, amended. If the video path read at the prompt does not exist,
    [main] prints the error and ends.  What it has done by then is the
    banner, the first prompt and the set-up: [videos/] and [pages/]
    created where they were not directories, the change into the
    repository, [git init], [.gitattributes] and [git lfs install] when
    the path tested for [.git] is not found, and the URL looked up by
    [git config], by asking the operator, or by both.  After the set-up
    come the video prompt and the message and nothing else: no file is
    created and no command is run, and the file system is as the set-up
    left it. *)
Theorem C1_missing_video_ends_after_setup (E : env) (w w1 : world)
    (line0 line : string) (rest0 rest : list string) (sharer : GitLFSVideoShare) :
  stdin w = line0 :: rest0 ->
  init E (strip line0) (started w rest0) = (Ok sharer, w1) ->
  stdin w1 = line :: rest ->
  fst (path_exists (strip_char chr_dq (strip line)) w1) = Ok false ->
  let p := parse (strip line0) in
  let r := resolve (cwd w) (to_str p) in
  exists (w' : world) (fresh : bool) (evs_url : list event),
    main E w = (Ok tt, w')
    /\ added w w'
       = ([Print ("=== GitHub LFS 视频分享工具 ===" ++ nl); Input prompt_repo]
          ++ setup_events r (negb (is_dir (fs w) (r ++ ["videos"])))
                          (negb (is_dir (fs w) (r ++ ["pages"]))) fresh evs_url
          ++ [Input prompt_video; Print msg_missing])%list
    /\ url_lookup r evs_url
    /\ (present (fs w) (git_dir_checked r p) = false -> fresh = true)
    /\ (root p <> EmptyString -> fresh = negb (present (fs w) (r ++ [".git"])))
    /\ added w1 w' = [Input prompt_video; Print msg_missing]
    /\ fs w' = fs w1 /\ cwd w' = cwd w1.
Proof.
  intros Hin0 Hinit Hin Hex p r.
  rewrite (main_after_prompt _ _ _ _ Hin0).
  unfold try_except, bind. rewrite Hinit.
  rewrite (main_share_missing _ _ _ _ _ Hin Hex).
  apply init_ok in Hinit
    as (url & fresh & evs_url & _ & _ & Ht & _ & _ & Hnew & Habs & Hlook).
  cbn [cwd fs started] in Ht, Hnew, Habs, Hlook. fold p in Ht, Hnew, Habs, Hlook.
  fold r in Ht, Hnew, Habs, Hlook. cbn zeta in Ht.
  eexists. exists fresh, evs_url.
  split; [reflexivity|].
  split.
  { apply added_app. cbn [trace]. rewrite Ht. unfold started. cbn [trace].
    now rewrite <- !app_assoc. }
  split; [exact Hlook|]. split; [exact Hnew|]. split; [exact Habs|].
  split; [|split; reflexivity].
  unfold added. cbn [trace]. apply drop_app_length.
Qed.

Lemma C1_witness :
  let w := fresh ["/home/u/myrepo"; "https://alice.github.io/demo";
                  "/home/u/nope.mp4"] in
  let res := init (git_ok None) "/home/u/myrepo"
               (started w ["https://alice.github.io/demo"; "/home/u/nope.mp4"]) in
  let p := parse (strip "/home/u/myrepo") in
  let r := resolve (cwd w) (to_str p) in
  exists (w' : world) (fresh : bool) (evs_url : list event),
    main (git_ok None) w = (Ok tt, w')
    /\ added w w'
       = ([Print ("=== GitHub LFS 视频分享工具 ===" ++ nl); Input prompt_repo]
          ++ setup_events r (negb (is_dir (fs w) (r ++ ["videos"])))
                          (negb (is_dir (fs w) (r ++ ["pages"]))) fresh evs_url
          ++ [Input prompt_video; Print msg_missing])%list
    /\ url_lookup r evs_url
    /\ (present (fs w) (git_dir_checked r p) = false -> fresh = true)
    /\ (root p <> EmptyString -> fresh = negb (present (fs w) (r ++ [".git"])))
    /\ added (snd res) w' = [Input prompt_video; Print msg_missing]
    /\ fs w' = fs (snd res) /\ cwd w' = cwd (snd res).
Proof.
  intros w res.
  apply (C1_missing_video_ends_after_setup (git_ok None) w (snd res)
           "/home/u/myrepo" "/home/u/nope.mp4"
           ["https://alice.github.io/demo"; "/home/u/nope.mp4"] []
           (sharer_of (fst res))).
  - reflexivity.
  - vm_compute. reflexivity.
  - vm_compute. reflexivity.
  - vm_compute. reflexivity.
Defined.

(** C5, where the code goes wrong. The operator starts the tool in
    [/home/u] and gives the repository as [myrepo], where an earlier run
    has left [.git]. [setup_repository] has changed into [myrepo] by the
    time it tests [self.repo_path / '.git'], so it looks for
    [myrepo/myrepo/.git], finds nothing, and initialises again: it runs
    [git init] and [git lfs install] and writes [.gitattributes] over
    what the operator had put there. *)
Lemma C5_relative_repo_path_reinitialises :
  let w := initialised ["https://alice.github.io/demo"] in
  let res := init (git_ok None) "myrepo" w in
  let repo := ["home"; "u"; "myrepo"] in
  fs w !! (repo ++ [".git"])%list = Some Dir
  /\ fs w !! (repo ++ [".gitattributes"])%list = Some (File (Raw "*.mp4 -text"))
  /\ git_dir_checked repo (parse "myrepo") = ["home"; "u"; "myrepo"; "myrepo"; ".git"]
  /\ (exists self, fst res = Ok self)
  /\ cwd (snd res) = repo
  /\ In (Spawn repo cmd_git_init 0) (added w (snd res))
  /\ In (Spawn repo cmd_git_lfs_install 0) (added w (snd res))
  /\ In (WriteFile (repo ++ [".gitattributes"]) (Raw gitattributes))
        (added w (snd res))
  /\ fs (snd res) !! (repo ++ [".gitattributes"])%list
     = Some (File (Raw gitattributes)).
Proof.
  intros w res repo.
  split; [vm_compute; reflexivity|]. split; [vm_compute; reflexivity|].
  split; [vm_compute; reflexivity|].
  split; [exists (sharer_of (fst res)); vm_compute; reflexivity|].
  split; [vm_compute; reflexivity|].
  assert (E : added w (snd res)
              = setup_events repo false false true
                  [Spawn repo cmd_git_config 1; Input prompt_url])
    by (vm_compute; reflexivity).
  rewrite E. unfold setup_events, mkdir_events, fresh_events. cbn [app In].
  split; [tauto|]. split; [tauto|]. split; [tauto|].
  vm_compute. reflexivity.
Qed.

(** X1. With an absolute repository path, the test looks where
    [git init] put its directory, and a repository found there is left
    alone: a set-up that succeeds runs no command but
    [git config --get remote.origin.url] and writes no file. *)
Lemma init_absolute_keeps_repository (E : env) (repo : string) (w w' : world)
    (self : GitLFSVideoShare) :
  root (parse repo) <> EmptyString ->
  present (fs w) (resolve (cwd w) (to_str (parse repo)) ++ [".git"]) = true ->
  init E repo w = (Ok self, w') ->
  (forall d command rc,
      In (Spawn d command rc) (added w w') -> command = cmd_git_config)
  /\ forall q c, ~ In (WriteFile q c) (added w w').
Proof.
  intros Hr Hpres H. pose proof (parse_wf repo) as Hp.
  apply init_ok in H
    as (url & fresh & evs_url & _ & _ & Ht & Hu & _ & _ & Hfresh & _).
  cbn zeta in Ht. rewrite (Hfresh Hr), Hpres in Ht.
  cbn [negb] in Ht. rewrite (added_app _ _ _ Ht). split.
  - intros d command rc Hin.
    destruct (in_setup_events _ _ _ _ _ _ Hu Hin)
      as [Hin'|[Hin'|[Hin'|[[Hf _]|Hin']]]]; try discriminate.
    destruct Hin' as [Hin'|[rc' Hin']]; [discriminate|now injection Hin'].
  - intros q c Hin.
    destruct (in_setup_events _ _ _ _ _ _ Hu Hin)
      as [Hin'|[Hin'|[Hin'|[[Hf _]|Hin']]]]; try discriminate.
    destruct Hin' as [Hin'|[rc' Hin']]; discriminate.
Qed.

(** C6, where the code goes wrong. The HTTPS remote of [alice/demo],
    with or without [.git], is rewritten to [https://github.io/alice/demo],
    and the SSH remote to [https://alice/demo]; neither is the pages URL
    [https://alice.github.io/demo] that the prompt of the same function
    gives as the format. *)
Lemma C6_remote_not_rewritten_to_pages_url :
  let w := in_repo t0 initialised_fs in
  pages_url_of_remote ("https://github.com/alice/demo.git" ++ nl)
  = "https://github.io/alice/demo"
  /\ pages_url_of_remote ("https://github.com/alice/demo" ++ nl)
     = "https://github.io/alice/demo"
  /\ pages_url_of_remote ("git@github.com:alice/demo.git" ++ nl)
     = "https://alice/demo"
  /\ pages_url_of_remote ("git@github.com:alice/demo" ++ nl)
     = "https://alice/demo"
  /\ fst (_get_github_url (git_ok (Some "https://github.com/alice/demo.git")) w)
     = Ok "https://github.io/alice/demo"
  /\ "https://github.io/alice/demo" <> "https://alice.github.io/demo"
  /\ "https://alice/demo" <> "https://alice.github.io/demo".
Proof.
  intros w. repeat split; try (vm_compute; reflexivity); discriminate.
Qed.

(** X2. When [git config] cannot be run or fails, the operator is
    asked: the prompt for the pages URL is shown, and the line entered,
    stripped, is the URL. *)
Lemma get_github_url_asks_operator (E : env) (w : world) (line : string)
    (rest : list string) :
  (forall r, subprocess_run E cmd_git_config w = inr r -> returncode r <> 0%Z) ->
  stdin w = line :: rest ->
  fst (_get_github_url E w) = Ok (strip line)
  /\ In (Input prompt_url) (added w (snd (_get_github_url E w))).
Proof.
  intros Hfail Hin. unfold _get_github_url, bind, try_except_all, run, ret, input.
  destruct (subprocess_run E cmd_git_config w) as [e|r] eqn:Hr.
  - rewrite Hin. cbn [fst snd]. split; [reflexivity|].
    unfold added. cbn [trace]. rewrite drop_app_length. apply in_eq.
  - specialize (Hfail r eq_refl). apply Z.eqb_neq in Hfail. rewrite Hfail.
    cbn [stdin log]. rewrite Hin. cbn [fst snd]. split; [reflexivity|].
    rewrite (added_app _ _ [Spawn (cwd w) cmd_git_config (returncode r);
                            Input prompt_url]).
    + apply in_cons, in_eq.
    + cbn [trace log cwd]. now rewrite <- app_assoc.
Qed.

End Claims.

(** * More of the program *)

(** ** Strings, continued *)

Section MoreStrFacts.
Import PyStr Pathlib Shape.

Lemma replace_absent (old new s : string) :
  contains old s = false -> replace old new s = s.
Proof.
  unfold replace. induction s as [|c s IH]; [reflexivity|].
  cbn [contains replace_from]. intros [Hp Hc]%orb_false_elim.
  rewrite Hp. now rewrite IH.
Qed.

Lemma take_app_length (base rest : string) :
  take (String.length base) (base ++ rest) = base.
Proof. induction base as [|a b IH]; [now destruct rest|]. cbn. now rewrite IH. Qed.

Lemma drop_app_length_str (a b : string) : drop (String.length a) (a ++ b) = b.
Proof. induction a as [|c a IH]; [now destruct b|]. cbn. exact IH. Qed.

Lemma endswith_app (s p : string) : endswith p (s ++ p) = true.
Proof.
  unfold endswith. rewrite append_length.
  replace (String.length s + String.length p - String.length p)%nat
    with (String.length s) by lia.
  rewrite drop_app_length_str, String.eqb_refl, andb_true_r.
  apply Nat.leb_le. lia.
Qed.

Lemma drop_last_app (s p : string) : drop_last (String.length p) (s ++ p) = s.
Proof.
  unfold drop_last. rewrite append_length.
  replace (String.length s + String.length p - String.length p)%nat
    with (String.length s) by lia.
  apply take_app_length.
Qed.

Lemma startswith_drop (a b s : string) :
  startswith (a ++ b) s = true -> startswith b (drop (String.length a) s) = true.
Proof.
  revert s. induction a as [|c a IH]; intros s; [now destruct s|].
  destruct s as [|d s]; [discriminate|]. cbn.
  intros [_ H]%andb_prop. now apply IH.
Qed.

Lemma contains_drop (t s : string) (n : nat) :
  contains t (drop n s) = true -> contains t s = true.
Proof.
  revert s. induction n as [|n IH]; intros s; [now destruct s|].
  destruct s as [|c s]; [easy|]. cbn [drop contains]. intros H.
  rewrite (IH _ H). apply orb_true_r.
Qed.

Lemma startswith_contains (t s : string) :
  startswith t s = true -> contains t s = true.
Proof. intros H. destruct s; cbn [contains]; now rewrite H. Qed.

Lemma startswith_app_l (t u s : string) :
  startswith (t ++ u) s = true -> startswith t s = true.
Proof.
  revert s. induction t as [|c t IH]; intros s; [now destruct s|].
  destruct s as [|d s]; [discriminate|]. cbn.
  intros [-> H]%andb_prop. cbn. now apply IH.
Qed.

(** A remote in the SSH form names the host. *)
Lemma ssh_prefix_has_host (s : string) :
  contains "github.com" s = false -> startswith "git@github.com:" s = false.
Proof.
  intros Hc. destruct (startswith "git@github.com:" s) eqn:Hs; [|reflexivity].
  rewrite <- Hc. symmetry. apply (contains_drop _ _ (String.length "git@")).
  apply startswith_contains, (startswith_app_l _ ":").
  now apply (startswith_drop "git@" ("github.com" ++ ":")).
Qed.

Lemma rstrip_by_absent (f : ascii -> bool) (s : string) :
  (forall c, f c = true -> has_char c s = false) -> rstrip_by f s = s.
Proof.
  induction s as [|a s IH]; intros H; [reflexivity|].
  cbn [rstrip_by]. rewrite IH.
  - destruct s; [|reflexivity].
    destruct (f a) eqn:Hf; [|reflexivity].
    specialize (H a Hf). cbn in H. now rewrite Ascii.eqb_refl in H.
  - intros c Hc. specialize (H c Hc). cbn in H.
    now apply orb_false_elim in H as [_ H].
Qed.

Lemma rstrip_by_snoc_keep (f : ascii -> bool) (s : string) (c : ascii) :
  f c = false -> rstrip_by f (s ++ String c EmptyString) = s ++ String c EmptyString.
Proof.
  intros Hc. induction s as [|a s IH]; [cbn; now rewrite Hc|].
  change (String a s ++ String c EmptyString)
    with (String a (s ++ String c EmptyString)).
  cbn [rstrip_by]. rewrite IH. now destruct s.
Qed.

Lemma rstrip_by_snoc_drop (f : ascii -> bool) (s : string) (c : ascii) :
  f c = true -> rstrip_by f (s ++ String c EmptyString) = rstrip_by f s.
Proof.
  intros Hc. induction s as [|a s IH]; [cbn; now rewrite Hc|].
  change (String a s ++ String c EmptyString)
    with (String a (s ++ String c EmptyString)).
  cbn [rstrip_by]. now rewrite IH.
Qed.

Lemma lstrip_by_absent (f : ascii -> bool) (s t : string) :
  (forall c, f c = true -> has_char c s = false) ->
  s <> EmptyString -> lstrip_by f (s ++ t) = s ++ t.
Proof.
  intros H Hs. destruct s as [|a s]; [easy|].
  change (String a s ++ t) with (String a (s ++ t)). cbn [lstrip_by].
  destruct (f a) eqn:Hf; [|reflexivity].
  specialize (H a Hf). cbn in H. now rewrite Ascii.eqb_refl in H.
Qed.

Lemma eqb_dq_has_char (p : string) (c : ascii) :
  has_char chr_dq p = false -> Ascii.eqb chr_dq c = true -> has_char c p = false.
Proof. intros Hp Hc. apply Ascii.eqb_eq in Hc. now subst c. Qed.

Lemma reversed_app (a b : string) :
  reversed (a ++ b) = reversed b ++ reversed a.
Proof.
  induction a as [|c a IH]; cbn [String.append reversed].
  - now rewrite append_nil_r.
  - now rewrite IH, append_assoc.
Qed.

Lemma reversed_involutive (s : string) : reversed (reversed s) = s.
Proof.
  induction s as [|c s IH]; [reflexivity|]. cbn [reversed].
  now rewrite reversed_app, IH.
Qed.

(** A double quote is the first byte of no white-space character, and
    the last byte of none. *)
Lemma lstrip_of_dq (r : string) :
  lstrip_of whitespace (String chr_dq r) = String chr_dq r
  /\ lstrip_of (List.map reversed whitespace) (String chr_dq r) = String chr_dq r.
Proof.
  assert (H1 : space_at whitespace (String chr_dq r) = 0%nat)
    by (vm_compute; reflexivity).
  assert (H2 : space_at (List.map reversed whitespace) (String chr_dq r) = 0%nat)
    by (vm_compute; reflexivity).
  cbn [lstrip_of]. now rewrite H1, H2.
Qed.

(** Stripping white space and then double quotes takes the quotes off
    a quoted path, and nothing else. *)
Lemma strip_quoted (p : string) :
  has_char chr_dq p = false ->
  strip_char chr_dq (strip (dq ++ p ++ dq)) = p.
Proof.
  intros Hp.
  assert (Hs : strip (dq ++ p ++ dq) = dq ++ p ++ dq).
  { unfold strip, lstrip, rstrip.
    change (dq ++ p ++ dq) with (String chr_dq (p ++ dq)).
    rewrite (proj1 (lstrip_of_dq _)).
    change (String chr_dq (p ++ dq)) with (dq ++ p ++ dq).
    rewrite !reversed_app.
    change (reversed dq) with dq. rewrite append_assoc.
    change (dq ++ reversed p ++ dq) with (String chr_dq (reversed p ++ dq)).
    rewrite (proj2 (lstrip_of_dq _)).
    change (String chr_dq (reversed p ++ dq)) with (dq ++ reversed p ++ dq).
    rewrite !reversed_app, reversed_involutive. change (reversed dq) with dq.
    now rewrite append_assoc. }
  rewrite Hs. unfold strip_char.
  change (dq ++ p ++ dq) with (String chr_dq (p ++ dq)).
  cbn [lstrip_by]. rewrite Ascii.eqb_refl.
  destruct (String.eqb_spec p EmptyString) as [->|Hne]; [reflexivity|].
  rewrite lstrip_by_absent by (exact Hne || (intros c; now apply eqb_dq_has_char)).
  unfold dq. rewrite rstrip_by_snoc_drop by apply Ascii.eqb_refl.
  apply rstrip_by_absent. intros c. now apply eqb_dq_has_char.
Qed.

Lemma strip_char_absent (p : string) :
  has_char chr_dq p = false -> strip_char chr_dq p = p.
Proof.
  intros Hp. unfold strip_char.
  destruct (String.eqb_spec p EmptyString) as [->|Hne]; [reflexivity|].
  rewrite <- (append_nil_r p) at 1.
  rewrite lstrip_by_absent by (exact Hne || (intros c; now apply eqb_dq_has_char)).
  rewrite append_nil_r.
  apply rstrip_by_absent. intros c. now apply eqb_dq_has_char.
Qed.




End MoreStrFacts.

(** ** Computations that remove nothing *)

Section KeepsFacts.
Import OS Trace.

Lemma same_kind_refl (x : node) : same_kind x x = true.
Proof. now destruct x. Qed.

Lemma same_kind_trans (x y z : node) :
  same_kind x y = true -> same_kind y z = true -> same_kind x z = true.
Proof. now destruct x, y, z. Qed.

Lemma keeps_nodes_same {A} (c : M A) :
  (forall w, fs (snd (c w)) = fs w) -> keeps_nodes c.
Proof.
  intros H w a x Hx. exists x. rewrite H. split; [exact Hx|apply same_kind_refl].
Qed.

Lemma keeps_nodes_ret {A} (a : A) : keeps_nodes (ret a).
Proof. now apply keeps_nodes_same. Qed.

Lemma keeps_nodes_raise {A} (e : exn) : keeps_nodes (@raise A e).
Proof. now apply keeps_nodes_same. Qed.

Lemma keeps_nodes_bind {A B} (c : M A) (k : A -> M B) :
  keeps_nodes c -> (forall a, keeps_nodes (k a)) -> keeps_nodes (bind c k).
Proof.
  intros Hc Hk w a x Hx. unfold bind.
  destruct (Hc w a x Hx) as (y & Hy & Hxy).
  destruct (c w) as [[v|e] w1]; cbn [snd] in *.
  - destruct (Hk v w1 a y Hy) as (z & Hz & Hyz).
    exists z. split; [exact Hz|]. now apply (same_kind_trans x y z).
  - now exists y.
Qed.

Lemma keeps_nodes_try_except {A} (c : M A) (h : string -> M A) :
  keeps_nodes c -> (forall msg, keeps_nodes (h msg)) ->
  keeps_nodes (try_except c h).
Proof.
  intros Hc Hh w a x Hx. unfold try_except.
  destruct (Hc w a x Hx) as (y & Hy & Hxy).
  destruct (c w) as [[v|[msg|code]] w1]; cbn [snd] in *; try (now exists y).
  destruct (Hh msg w1 a y Hy) as (z & Hz & Hyz).
  exists z. split; [exact Hz|]. now apply (same_kind_trans x y z).
Qed.

Lemma keeps_nodes_try_except_all {A} (c : M A) (h : M A) :
  keeps_nodes c -> keeps_nodes h -> keeps_nodes (try_except_all c h).
Proof.
  intros Hc Hh w a x Hx. unfold try_except_all.
  destruct (Hc w a x Hx) as (y & Hy & Hxy).
  destruct (c w) as [[v|e] w1]; cbn [snd] in *; try (now exists y).
  destruct (Hh w1 a y Hy) as (z & Hz & Hyz).
  exists z. split; [exact Hz|]. now apply (same_kind_trans x y z).
Qed.

Lemma keeps_nodes_print (msg : string) : keeps_nodes (print msg).
Proof. now apply keeps_nodes_same. Qed.

Lemma keeps_nodes_input (prompt : string) : keeps_nodes (input prompt).
Proof. apply keeps_nodes_same. intros w. unfold input. now destruct (stdin w). Qed.

Lemma keeps_nodes_now : keeps_nodes now.
Proof. now apply keeps_nodes_same. Qed.

Lemma keeps_nodes_getcwd : keeps_nodes (fun w => (Ok (getcwd w), w)).
Proof. now apply keeps_nodes_same. Qed.

Lemma keeps_nodes_path_exists (p : string) : keeps_nodes (path_exists p).
Proof. now apply keeps_nodes_same. Qed.

Lemma keeps_nodes_along {A} (p : string) (c : M A) :
  keeps_nodes c -> keeps_nodes (along p c).
Proof.
  intros Hc w a x Hx. unfold along.
  destruct (blocked w p); [|now apply Hc].
  exists x. split; [exact Hx|apply same_kind_refl].
Qed.

Lemma keeps_nodes_chdir (p : string) : keeps_nodes (chdir p).
Proof.
  apply keeps_nodes_along, keeps_nodes_same. intros w. cbv beta zeta.
  destruct (is_dir (fs w) _); [reflexivity|]. now destruct (fs w !! _).
Qed.

Lemma keeps_nodes_run (E : env) (command : list string) :
  keeps_nodes (run E command).
Proof.
  apply keeps_nodes_same. intros w. unfold run.
  now destruct (subprocess_run E command w).
Qed.

(** [mkdir] only makes a directory where nothing is. *)
Lemma keeps_nodes_mkdir_exist_ok (p : string) : keeps_nodes (mkdir_exist_ok p).
Proof.
  apply keeps_nodes_along. intros w a x Hx. cbv beta zeta.
  destruct (is_dir (fs w) (resolve _ _));
    [exists x; split; [exact Hx|apply same_kind_refl]|].
  destruct (fs w !! resolve (cwd w) p) eqn:Hp;
    [exists x; split; [exact Hx|apply same_kind_refl]|].
  destruct (is_dir (fs w) (removelast _));
    [|exists x; split; [exact Hx|apply same_kind_refl]].
  exists x. cbn [snd fs log set_fs]. split; [|apply same_kind_refl].
  rewrite lookup_insert_ne; [exact Hx|]. intros <-. congruence.
Qed.

(** A write only replaces a file by a file. *)
Lemma keeps_nodes_write_file (p : string) (c : content) :
  keeps_nodes (write_file p c).
Proof.
  apply keeps_nodes_along. intros w a x Hx. cbv beta zeta.
  destruct (String.eqb _ _); [exists x; split; [exact Hx|apply same_kind_refl]|].
  destruct (dir_syntax p); cbn [orb];
    [exists x; split; [exact Hx|apply same_kind_refl]|].
  destruct (is_dir (fs w) (resolve (cwd w) p)) eqn:Hd;
    [exists x; split; [exact Hx|apply same_kind_refl]|].
  destruct (is_dir (fs w) (removelast _));
    [|exists x; split; [exact Hx|apply same_kind_refl]].
  cbn [snd fs log set_fs].
  destruct (decide (resolve (cwd w) p = a)) as [Heq|Hne].
  - exists (File c). rewrite Heq, lookup_insert_eq. split; [reflexivity|].
    unfold is_dir in Hd. rewrite Heq, Hx in Hd.
    destruct x; [|reflexivity]. now rewrite orb_true_r in Hd.
  - exists x. rewrite lookup_insert_ne by exact Hne.
    split; [exact Hx|apply same_kind_refl].
Qed.

Lemma keeps_nodes_copy2 (src dst : string) : keeps_nodes (copy2 src dst).
Proof.
  intros w a x Hx. unfold copy2, along.
  destruct (blocked w src); [exists x; split; [exact Hx|apply same_kind_refl]|].
  destruct (fs w !! resolve (cwd w) src) as [[|c]|].
  - exists x; split; [exact Hx|apply same_kind_refl].
  - destruct (dir_syntax src); [exists x; split; [exact Hx|apply same_kind_refl]|].
    destruct (_ && _); [exists x; split; [exact Hx|apply same_kind_refl]|].
    now apply keeps_nodes_write_file.
  - destruct (bool_decide _); exists x; (split; [exact Hx|apply same_kind_refl]).
Qed.

Lemma is_dir_kept {A} (c : M A) (w : world) (a : list string) :
  keeps_nodes c -> is_dir (fs w) a = true -> is_dir (fs (snd (c w))) a = true.
Proof.
  intros Hc. unfold is_dir. destruct (bool_decide (a = [])); [easy|]. cbn [orb].
  destruct (fs w !! a) as [[|c0]|] eqn:Ha; try discriminate. intros _.
  destruct (Hc w a Dir Ha) as (y & -> & Hk). now destruct y.
Qed.

End KeepsFacts.

Ltac keeps_step :=
  lazymatch goal with
  | |- Trace.keeps_nodes (OS.ret _) => apply keeps_nodes_ret
  | |- Trace.keeps_nodes (OS.raise _) => apply keeps_nodes_raise
  | |- Trace.keeps_nodes (OS.print _) => apply keeps_nodes_print
  | |- Trace.keeps_nodes (OS.input _) => apply keeps_nodes_input
  | |- Trace.keeps_nodes OS.now => apply keeps_nodes_now
  | |- Trace.keeps_nodes (fun w => (OS.Ok (OS.getcwd w), w)) =>
      apply keeps_nodes_getcwd
  | |- Trace.keeps_nodes (OS.path_exists _) => apply keeps_nodes_path_exists
  | |- Trace.keeps_nodes (OS.mkdir_exist_ok _) => apply keeps_nodes_mkdir_exist_ok
  | |- Trace.keeps_nodes (OS.chdir _) => apply keeps_nodes_chdir
  | |- Trace.keeps_nodes (OS.write_file _ _) => apply keeps_nodes_write_file
  | |- Trace.keeps_nodes (OS.copy2 _ _) => apply keeps_nodes_copy2
  | |- Trace.keeps_nodes (OS.run _ _) => apply keeps_nodes_run
  | |- Trace.keeps_nodes (OS.bind _ _) => apply keeps_nodes_bind; [|intros ?]
  | |- Trace.keeps_nodes (OS.try_except _ _) =>
      apply keeps_nodes_try_except; [|intros ?]
  | |- Trace.keeps_nodes (OS.try_except_all _ _) =>
      apply keeps_nodes_try_except_all
  | |- Trace.keeps_nodes (if ?b then _ else _) => destruct b
  | |- Trace.keeps_nodes (match ?x with _ => _ end) => destruct x
  | |- Trace.keeps_nodes (VideoShare._run_command _ _) =>
      unfold VideoShare._run_command
  | |- Trace.keeps_nodes (VideoShare._get_github_url _) =>
      unfold VideoShare._get_github_url
  | |- Trace.keeps_nodes (VideoShare.create_player_page _ _ _) =>
      unfold VideoShare.create_player_page
  | |- Trace.keeps_nodes (VideoShare.share_video _ _ _) =>
      unfold VideoShare.share_video, VideoShare.share_video_body
  | |- Trace.keeps_nodes (VideoShare.main_share _ _) =>
      unfold VideoShare.main_share
  | |- Trace.keeps_nodes (VideoShare.init _ _) =>
      unfold VideoShare.init, VideoShare.setup_repository
  end.

(** ** Computations that run the program's commands only *)

Section OwnedFacts.
Import OS Trace.

Lemma owned_intro {A} (c : M A) :
  (forall w, exists evs,
      trace (snd (c w)) = (trace w ++ evs)%list /\ Forall own_event evs) ->
  owned c.
Proof. intros H w. apply H. Qed.

Lemma owned_silent {A} (c : M A) :
  (forall w, trace (snd (c w)) = trace w) -> owned c.
Proof.
  intros H w. exists []. split; [|constructor].
  unfold events_of. now rewrite H, app_nil_r.
Qed.

Lemma owned_ret {A} (a : A) : owned (ret a).
Proof. now apply owned_silent. Qed.

Lemma owned_raise {A} (e : exn) : owned (@raise A e).
Proof. now apply owned_silent. Qed.

Lemma owned_bind {A B} (c : M A) (k : A -> M B) :
  owned c -> (forall a, owned (k a)) -> owned (bind c k).
Proof.
  intros Hc Hk w. unfold bind, events_of.
  destruct (Hc w) as (evs & Hev & Hf). unfold events_of in Hev.
  destruct (c w) as [[a|e] w1]; cbn [fst snd] in *.
  - destruct (Hk a w1) as (evs2 & Hev2 & Hf2). unfold events_of in Hev2.
    exists (evs ++ evs2)%list. split; [now rewrite Hev2, Hev, app_assoc|].
    apply Forall_app. now split.
  - now exists evs.
Qed.

Lemma owned_try_except {A} (c : M A) (h : string -> M A) :
  owned c -> (forall msg, owned (h msg)) -> owned (try_except c h).
Proof.
  intros Hc Hh w. unfold try_except, events_of.
  destruct (Hc w) as (evs & Hev & Hf). unfold events_of in Hev.
  destruct (c w) as [[a|[msg|code]] w1]; cbn [fst snd] in *;
    try (now exists evs).
  destruct (Hh msg w1) as (evs2 & Hev2 & Hf2). unfold events_of in Hev2.
  exists (evs ++ evs2)%list. split; [now rewrite Hev2, Hev, app_assoc|].
  apply Forall_app. now split.
Qed.

Lemma owned_try_except_all {A} (c : M A) (h : M A) :
  owned c -> owned h -> owned (try_except_all c h).
Proof.
  intros Hc Hh w. unfold try_except_all, events_of.
  destruct (Hc w) as (evs & Hev & Hf). unfold events_of in Hev.
  destruct (c w) as [[a|e] w1]; cbn [fst snd] in *; try (now exists evs).
  destruct (Hh w1) as (evs2 & Hev2 & Hf2). unfold events_of in Hev2.
  exists (evs ++ evs2)%list. split; [now rewrite Hev2, Hev, app_assoc|].
  apply Forall_app. now split.
Qed.

Lemma owned_one {A} (c : M A) :
  (forall w, trace (snd (c w)) = trace w
             \/ exists e, trace (snd (c w)) = (trace w ++ [e])%list /\ own_event e) ->
  owned c.
Proof.
  intros H w. destruct (H w) as [Hs|(e & He & Ho)].
  - exists []. split; [|constructor]. unfold events_of. now rewrite Hs, app_nil_r.
  - exists [e]. split; [exact He|]. constructor; [exact Ho|constructor].
Qed.

Lemma owned_print (msg : string) : owned (print msg).
Proof. apply owned_one. intros w. right. now exists (Print msg). Qed.

Lemma owned_input (prompt : string) : owned (input prompt).
Proof.
  apply owned_one. intros w. right. exists (Input prompt). unfold input.
  now destruct (stdin w).
Qed.

Lemma owned_now : owned now.
Proof. now apply owned_silent. Qed.

Lemma owned_getcwd : owned (fun w => (Ok (getcwd w), w)).
Proof. now apply owned_silent. Qed.

Lemma owned_path_exists (p : string) : owned (path_exists p).
Proof. now apply owned_silent. Qed.

Lemma owned_along {A} (p : string) (c : M A) : owned c -> owned (along p c).
Proof.
  intros Hc w. unfold along, events_of.
  destruct (blocked w p); [|apply Hc].
  exists []. split; [symmetry; apply app_nil_r|constructor].
Qed.

Lemma owned_mkdir_exist_ok (p : string) : owned (mkdir_exist_ok p).
Proof.
  apply owned_along, owned_one. intros w. cbv beta zeta.
  destruct (is_dir (fs w) (resolve _ _)); [now left|].
  destruct (fs w !! _); [now left|].
  destruct (is_dir (fs w) (removelast _)); [|now left].
  right. now eexists.
Qed.

Lemma owned_chdir (p : string) : owned (chdir p).
Proof.
  apply owned_along, owned_one. intros w. cbv beta zeta.
  destruct (is_dir (fs w) _); [right; now eexists|].
  destruct (fs w !! _); now left.
Qed.

Lemma owned_write_file (p : string) (c : content) : owned (write_file p c).
Proof.
  apply owned_along, owned_one. intros w. cbv beta zeta.
  destruct (String.eqb _ _); [now left|].
  destruct (_ || _); [now left|].
  destruct (is_dir (fs w) (removelast _)); [|now left].
  right. now eexists.
Qed.

Lemma owned_copy2 (src dst : string) : owned (copy2 src dst).
Proof.
  intros w. unfold copy2, along, events_of.
  destruct (blocked w src);
    [exists []; split; [symmetry; apply app_nil_r|constructor]|].
  destruct (fs w !! resolve (cwd w) src) as [[|c]|].
  - exists []. split; [symmetry; apply app_nil_r|constructor].
  - destruct (dir_syntax src);
      [exists []; split; [symmetry; apply app_nil_r|constructor]|].
    destruct (_ && _);
      [exists []; split; [symmetry; apply app_nil_r|constructor]|].
    apply owned_write_file.
  - destruct (bool_decide _); exists [];
      (split; [symmetry; apply app_nil_r|constructor]).
Qed.

Lemma owned_run (E : env) (command : list string) :
  own_command command -> owned (run E command).
Proof.
  intros Hc. apply owned_one. intros w. unfold run.
  destruct (subprocess_run E command w) as [e|r]; [now left|].
  right. now eexists.
Qed.

End OwnedFacts.

Ltac own_cmd :=
  unfold Trace.own_command;
  solve [ repeat (first [left; reflexivity | right]);
          first [reflexivity | eexists; reflexivity] ].

Ltac owned_step :=
  lazymatch goal with
  | |- Trace.owned (OS.ret _) => apply owned_ret
  | |- Trace.owned (OS.raise _) => apply owned_raise
  | |- Trace.owned (OS.print _) => apply owned_print
  | |- Trace.owned (OS.input _) => apply owned_input
  | |- Trace.owned OS.now => apply owned_now
  | |- Trace.owned (fun w => (OS.Ok (OS.getcwd w), w)) => apply owned_getcwd
  | |- Trace.owned (OS.path_exists _) => apply owned_path_exists
  | |- Trace.owned (OS.mkdir_exist_ok _) => apply owned_mkdir_exist_ok
  | |- Trace.owned (OS.chdir _) => apply owned_chdir
  | |- Trace.owned (OS.write_file _ _) => apply owned_write_file
  | |- Trace.owned (OS.copy2 _ _) => apply owned_copy2
  | |- Trace.owned (OS.run _ _) => apply owned_run; own_cmd
  | |- Trace.owned (OS.bind _ _) => apply owned_bind; [|intros ?]
  | |- Trace.owned (OS.try_except _ _) => apply owned_try_except; [|intros ?]
  | |- Trace.owned (OS.try_except_all _ _) => apply owned_try_except_all
  | |- Trace.owned (if ?b then _ else _) => destruct b
  | |- Trace.owned (match ?x with _ => _ end) => destruct x
  | |- Trace.owned (VideoShare._run_command _ _) =>
      unfold VideoShare._run_command
  | |- Trace.owned (VideoShare._get_github_url _) =>
      unfold VideoShare._get_github_url
  | |- Trace.owned (VideoShare.create_player_page _ _ _) =>
      unfold VideoShare.create_player_page
  | |- Trace.owned (VideoShare.share_video _ _ _) =>
      unfold VideoShare.share_video, VideoShare.share_video_body
  | |- Trace.owned (VideoShare.main_share _ _) => unfold VideoShare.main_share
  | |- Trace.owned (VideoShare.init _ _) =>
      unfold VideoShare.init, VideoShare.setup_repository
  end.

(** ** Computations that leave what they write *)

Section LeavesFacts.
Import OS Trace.

Lemma file_kept {A} (c : M A) (w : world) (q : list string) (c1 : content) :
  keeps_nodes c -> fs w !! q = Some (File c1) ->
  exists c2, fs (snd (c w)) !! q = Some (File c2).
Proof.
  intros Hk Hq. destruct (Hk w q _ Hq) as ([|c2] & Hy & Hs); [discriminate|].
  now exists c2.
Qed.

Lemma leaves_files_quiet {A} (c : M A) :
  (forall w, exists evs,
      trace (snd (c w)) = (trace w ++ evs)%list
      /\ forall q c0, ~ In (WriteFile q c0) evs) ->
  leaves_files c.
Proof.
  intros H w. destruct (H w) as (evs & Hev & Hno).
  exists evs. split; [exact Hev|]. intros q c0 Hin. now destruct (Hno q c0).
Qed.

Lemma leaves_files_silent {A} (c : M A) :
  (forall w, trace (snd (c w)) = trace w) -> leaves_files c.
Proof.
  intros H. apply leaves_files_quiet. intros w. exists [].
  split; [now rewrite H, app_nil_r|]. intros q c0 [].
Qed.

Lemma leaves_files_one {A} (c : M A) (e : world -> event) :
  (forall w q c0, e w <> WriteFile q c0) ->
  (forall w, trace (snd (c w)) = trace w
             \/ trace (snd (c w)) = (trace w ++ [e w])%list) ->
  leaves_files c.
Proof.
  intros He H. apply leaves_files_quiet. intros w. destruct (H w) as [Hs|Hs].
  - exists []. split; [now rewrite Hs, app_nil_r|]. intros q c0 [].
  - exists [e w]. split; [exact Hs|]. intros q c0 [Hin|[]]. now apply (He w q c0).
Qed.

Lemma leaves_files_ret {A} (a : A) : leaves_files (ret a).
Proof. now apply leaves_files_silent. Qed.

Lemma leaves_files_raise {A} (e : exn) : leaves_files (@raise A e).
Proof. now apply leaves_files_silent. Qed.

Lemma leaves_files_bind {A B} (c : M A) (k : A -> M B) :
  leaves_files c -> (forall a, keeps_nodes (k a)) ->
  (forall a, leaves_files (k a)) -> leaves_files (bind c k).
Proof.
  intros Hc Hkeep Hk w. unfold bind, events_of.
  destruct (Hc w) as (evs & Hev & Hf). unfold events_of in Hev.
  destruct (c w) as [[a|e] w1] eqn:Hcw; cbn [fst snd] in *.
  - destruct (Hk a w1) as (evs2 & Hev2 & Hf2). unfold events_of in Hev2.
    exists (evs ++ evs2)%list. split; [now rewrite Hev2, Hev, app_assoc|].
    intros q c0 [Hin|Hin]%in_app_or.
    + destruct (Hf q c0 Hin) as [c1 Hq]. exact (file_kept _ _ _ _ (Hkeep a) Hq).
    + exact (Hf2 q c0 Hin).
  - now exists evs.
Qed.

Lemma leaves_files_try_except {A} (c : M A) (h : string -> M A) :
  leaves_files c -> (forall msg, keeps_nodes (h msg)) ->
  (forall msg, leaves_files (h msg)) -> leaves_files (try_except c h).
Proof.
  intros Hc Hkeep Hh w. unfold try_except, events_of.
  destruct (Hc w) as (evs & Hev & Hf). unfold events_of in Hev.
  destruct (c w) as [[a|[msg|code]] w1]; cbn [fst snd] in *;
    try (now exists evs).
  destruct (Hh msg w1) as (evs2 & Hev2 & Hf2). unfold events_of in Hev2.
  exists (evs ++ evs2)%list. split; [now rewrite Hev2, Hev, app_assoc|].
  intros q c0 [Hin|Hin]%in_app_or.
  - destruct (Hf q c0 Hin) as [c1 Hq]. exact (file_kept _ _ _ _ (Hkeep msg) Hq).
  - exact (Hf2 q c0 Hin).
Qed.

Lemma leaves_files_try_except_all {A} (c : M A) (h : M A) :
  leaves_files c -> keeps_nodes h -> leaves_files h ->
  leaves_files (try_except_all c h).
Proof.
  intros Hc Hkeep Hh w. unfold try_except_all, events_of.
  destruct (Hc w) as (evs & Hev & Hf). unfold events_of in Hev.
  destruct (c w) as [[a|e] w1]; cbn [fst snd] in *; try (now exists evs).
  destruct (Hh w1) as (evs2 & Hev2 & Hf2). unfold events_of in Hev2.
  exists (evs ++ evs2)%list. split; [now rewrite Hev2, Hev, app_assoc|].
  intros q c0 [Hin|Hin]%in_app_or.
  - destruct (Hf q c0 Hin) as [c1 Hq]. exact (file_kept _ _ _ _ Hkeep Hq).
  - exact (Hf2 q c0 Hin).
Qed.

Lemma leaves_files_print (msg : string) : leaves_files (print msg).
Proof.
  apply (leaves_files_one _ (fun _ => Print msg)); [discriminate|].
  intros w. now right.
Qed.

Lemma leaves_files_input (prompt : string) : leaves_files (input prompt).
Proof.
  apply (leaves_files_one _ (fun _ => Input prompt)); [discriminate|].
  intros w. right. unfold input. now destruct (stdin w).
Qed.

Lemma leaves_files_now : leaves_files now.
Proof. now apply leaves_files_silent. Qed.

Lemma leaves_files_getcwd : leaves_files (fun w => (Ok (getcwd w), w)).
Proof. now apply leaves_files_silent. Qed.

Lemma leaves_files_path_exists (p : string) : leaves_files (path_exists p).
Proof. now apply leaves_files_silent. Qed.

Lemma leaves_files_along {A} (p : string) (c : M A) :
  leaves_files c -> leaves_files (along p c).
Proof.
  intros Hc w. unfold along, events_of.
  destruct (blocked w p); [|apply Hc].
  exists []. split; [symmetry; apply app_nil_r|intros q c0 []].
Qed.

Lemma leaves_files_mkdir_exist_ok (p : string) : leaves_files (mkdir_exist_ok p).
Proof.
  apply leaves_files_along.
  apply (leaves_files_one _ (fun w => Mkdir (resolve (cwd w) p))); [discriminate|].
  intros w. cbv beta zeta.
  destruct (is_dir (fs w) (resolve _ _)); [now left|].
  destruct (fs w !! _); [now left|].
  destruct (is_dir (fs w) (removelast _)); [now right|now left].
Qed.

Lemma leaves_files_chdir (p : string) : leaves_files (chdir p).
Proof.
  apply leaves_files_along.
  apply (leaves_files_one _ (fun w => Chdir (resolve (cwd w) p))); [discriminate|].
  intros w. cbv beta zeta.
  destruct (is_dir (fs w) _); [now right|].
  destruct (fs w !! _); now left.
Qed.

Lemma leaves_files_run (E : env) (command : list string) :
  leaves_files (run E command).
Proof.
  intros w. unfold run, events_of.
  destruct (subprocess_run E command w) as [e|r].
  - exists []. split; [symmetry; apply app_nil_r|]. intros q c0 [].
  - eexists [_]. split; [reflexivity|]. intros q c0 [Hin|[]]. discriminate Hin.
Qed.

Lemma leaves_files_write_file (p : string) (c : content) :
  leaves_files (write_file p c).
Proof.
  apply leaves_files_along. intros w. unfold events_of. cbv beta zeta.
  destruct (String.eqb _ _);
    [exists []; split; [symmetry; apply app_nil_r|intros q c0 []]|].
  destruct (_ || _);
    [exists []; split; [symmetry; apply app_nil_r|intros q c0 []]|].
  destruct (is_dir (fs w) (removelast _));
    [|exists []; split; [symmetry; apply app_nil_r|intros q c0 []]].
  eexists [_]. split; [reflexivity|]. intros q c0 [Hin|[]].
  injection Hin as <- <-. exists c. cbn [snd fs log set_fs].
  apply lookup_insert_eq.
Qed.

Lemma leaves_files_copy2 (src dst : string) : leaves_files (copy2 src dst).
Proof.
  intros w. unfold copy2, along, events_of.
  destruct (blocked w src);
    [exists []; split; [symmetry; apply app_nil_r|intros q c0 []]|].
  destruct (fs w !! resolve (cwd w) src) as [[|c]|].
  - exists []. split; [symmetry; apply app_nil_r|intros q c0 []].
  - destruct (dir_syntax src);
      [exists []; split; [symmetry; apply app_nil_r|intros q c0 []]|].
    destruct (_ && _);
      [exists []; split; [symmetry; apply app_nil_r|intros q c0 []]|].
    apply leaves_files_write_file.
  - destruct (bool_decide _); exists [];
      (split; [symmetry; apply app_nil_r|intros q c0 []]).
Qed.

End LeavesFacts.

Ltac leaves_step :=
  lazymatch goal with
  | |- Trace.keeps_nodes _ => keeps_step
  | |- Trace.leaves_files (OS.ret _) => apply leaves_files_ret
  | |- Trace.leaves_files (OS.raise _) => apply leaves_files_raise
  | |- Trace.leaves_files (OS.print _) => apply leaves_files_print
  | |- Trace.leaves_files (OS.input _) => apply leaves_files_input
  | |- Trace.leaves_files OS.now => apply leaves_files_now
  | |- Trace.leaves_files (fun w => (OS.Ok (OS.getcwd w), w)) =>
      apply leaves_files_getcwd
  | |- Trace.leaves_files (OS.path_exists _) => apply leaves_files_path_exists
  | |- Trace.leaves_files (OS.mkdir_exist_ok _) =>
      apply leaves_files_mkdir_exist_ok
  | |- Trace.leaves_files (OS.chdir _) => apply leaves_files_chdir
  | |- Trace.leaves_files (OS.write_file _ _) => apply leaves_files_write_file
  | |- Trace.leaves_files (OS.copy2 _ _) => apply leaves_files_copy2
  | |- Trace.leaves_files (OS.run _ _) => apply leaves_files_run
  | |- Trace.leaves_files (OS.bind _ _) =>
      apply leaves_files_bind; [|intros ?|intros ?]
  | |- Trace.leaves_files (OS.try_except _ _) =>
      apply leaves_files_try_except; [|intros ?|intros ?]
  | |- Trace.leaves_files (OS.try_except_all _ _) =>
      apply leaves_files_try_except_all
  | |- Trace.leaves_files (if ?b then _ else _) => destruct b
  | |- Trace.leaves_files (match ?x with _ => _ end) => destruct x
  | |- Trace.leaves_files (VideoShare._run_command _ _) =>
      unfold VideoShare._run_command
  | |- Trace.leaves_files (VideoShare._get_github_url _) =>
      unfold VideoShare._get_github_url
  | |- Trace.leaves_files (VideoShare.create_player_page _ _ _) =>
      unfold VideoShare.create_player_page
  | |- Trace.leaves_files (VideoShare.share_video _ _ _) =>
      unfold VideoShare.share_video, VideoShare.share_video_body
  | |- Trace.leaves_files (VideoShare.main_share _ _) =>
      unfold VideoShare.main_share
  | |- Trace.leaves_files (VideoShare.init _ _) =>
      unfold VideoShare.init, VideoShare.setup_repository
  end.

(** The search for an event in a list written out. *)
Ltac pick_event := solve [reflexivity | left; pick_event | right; pick_event].

(** ** Set-up, sharing and [main], further *)

Section Further.
Import PyStr Pathlib Shape Datetime OS Trace VideoShare Expected Scenario.

Lemma keeps_nodes_main (E : env) : keeps_nodes (main E).
Proof. unfold main. repeat keeps_step. Qed.

Lemma init_absolute_keeps_repository_witness :
  let w := initialised ["https://alice.github.io/demo"] in
  let res := init (git_ok None) "/home/u/myrepo" w in
  (forall d command rc,
      In (Spawn d command rc) (added w (snd res)) -> command = cmd_git_config)
  /\ forall q c, ~ In (WriteFile q c) (added w (snd res)).
Proof.
  intros w res.
  apply (init_absolute_keeps_repository (git_ok None) "/home/u/myrepo" w
           (snd res) (sharer_of (fst res))).
  - vm_compute. discriminate.
  - vm_compute. reflexivity.
  - vm_compute. reflexivity.
Defined.

Lemma get_github_url_asks_operator_witness :
  let w := initialised ["https://alice.github.io/demo "] in
  fst (_get_github_url (git_ok None) w) = Ok "https://alice.github.io/demo"
  /\ In (Input prompt_url) (added w (snd (_get_github_url (git_ok None) w))).
Proof.
  intros w.
  apply (get_github_url_asks_operator (git_ok None) w
           "https://alice.github.io/demo " []).
  - intros r Hr. vm_compute in Hr. injection Hr as <-. vm_compute. discriminate.
  - reflexivity.
Defined.

(** X3. When [git config --get remote.origin.url] succeeds, the
    operator is not asked, whatever the remote is: the URL returned is
    made from what the command printed, the one event is the command,
    and standard input is not read.  A remote that does not mention
    [github.com] and does not end in [.git] is returned as it is,
    stripped. *)
Lemma get_github_url_takes_remote (E : env) (w : world) (r : completed) :
  subprocess_run E cmd_git_config w = inr r ->
  returncode r = 0%Z ->
  _get_github_url E w
  = (Ok (pages_url_of_remote (stdout r)), log (Spawn (cwd w) cmd_git_config 0) w)
  /\ stdin (snd (_get_github_url E w)) = stdin w
  /\ (endswith ".git" (strip (stdout r)) = false ->
      contains "github.com" (strip (stdout r)) = false ->
      pages_url_of_remote (stdout r) = strip (stdout r)).
Proof.
  intros Hr H0.
  assert (Hrun : _get_github_url E w
                 = (Ok (pages_url_of_remote (stdout r)),
                    log (Spawn (cwd w) cmd_git_config 0) w)).
  { unfold _get_github_url, bind, try_except_all, run, ret.
    rewrite Hr, H0. reflexivity. }
  split; [exact Hrun|]. split; [now rewrite Hrun|].
  intros H1 H3. unfold pages_url_of_remote.
  rewrite H1, (ssh_prefix_has_host _ H3). now rewrite (replace_absent _ _ _ H3).
Qed.

Lemma get_github_url_takes_remote_witness :
  let w := in_repo t0 initialised_fs in
  let out := "https://gitlab.com/alice/demo" ++ nl in
  _get_github_url (git_ok (Some "https://gitlab.com/alice/demo")) w
  = (Ok (pages_url_of_remote out), log (Spawn (cwd w) cmd_git_config 0) w)
  /\ stdin (snd (_get_github_url (git_ok (Some "https://gitlab.com/alice/demo")) w))
     = stdin w
  /\ (endswith ".git" (strip out) = false ->
      contains "github.com" (strip out) = false ->
      pages_url_of_remote out = strip out).
Proof.
  intros w out.
  apply (get_github_url_takes_remote
           (git_ok (Some "https://gitlab.com/alice/demo")) w
           (mkCompleted 0 out EmptyString)).
  - reflexivity.
  - reflexivity.
Defined.

(** X4. What [_get_github_url] makes of a remote on GitHub, for every
    path [rest] after the host that does not itself hold [github.com]:
    the HTTPS remote [https://github.com/rest], with or without [.git],
    becomes [https://github.io/rest], and the SSH remote
    [git@github.com:rest] becomes [https://rest].  The one suffix
    [.git] is cut, the host name alone is rewritten, and the user name
    stays in the path. *)
Lemma pages_url_of_github_remote (out rest : string) (dotgit : bool) :
  let suffix := if dotgit then ".git" else EmptyString in
  contains "github.com" rest = false ->
  (dotgit = false -> endswith ".git" (strip out) = false) ->
  (strip out = "https://github.com/" ++ rest ++ suffix ->
   pages_url_of_remote out = "https://github.io/" ++ rest)
  /\ (strip out = "git@github.com:" ++ rest ++ suffix ->
      pages_url_of_remote out = "https://" ++ rest).
Proof.
  intros suffix Hc Hs.
  assert (Hcut : forall pre,
             strip out = pre ++ rest ++ suffix ->
             (if endswith ".git" (strip out) then drop_last 4 (strip out)
              else strip out) = pre ++ rest).
  { intros pre Ho. subst suffix. destruct dotgit.
    - rewrite Ho, <- !append_assoc, endswith_app.
      apply (drop_last_app _ ".git").
    - rewrite (Hs eq_refl), Ho. now rewrite append_nil_r. }
  assert (Hrest : replace_from "github.com" "github.io" 0 rest = rest)
    by now apply replace_absent.
  split; intros Ho; unfold pages_url_of_remote; cbn zeta;
    rewrite (Hcut _ Ho).
  - cbn [String.append startswith Ascii.eqb Bool.eqb andb].
    unfold replace.
    cbn [String.append replace_from startswith Ascii.eqb Bool.eqb andb
         String.length Nat.sub].
    destruct rest as [|c rest']; [reflexivity|].
    now rewrite Hrest.
  - change (startswith "git@github.com:" ("git@github.com:" ++ rest))
      with (startswith EmptyString rest).
    assert (startswith EmptyString rest = true) as -> by now destruct rest.
    change (drop 15 ("git@github.com:" ++ rest)) with rest.
    unfold replace.
    cbn [String.append replace_from startswith Ascii.eqb Bool.eqb andb].
    destruct rest as [|c rest']; [reflexivity|].
    now rewrite Hrest.
Qed.

Lemma pages_url_of_github_remote_witness :
  pages_url_of_remote ("https://github.com/alice/demo.git" ++ nl)
  = "https://github.io/alice/demo"
  /\ pages_url_of_remote ("git@github.com:alice/demo" ++ nl)
     = "https://alice/demo".
Proof.
  split.
  - refine (proj1 (pages_url_of_github_remote
                     ("https://github.com/alice/demo.git" ++ nl)
                     "alice/demo" true _ _) _).
    + vm_compute. reflexivity.
    + discriminate.
    + vm_compute. reflexivity.
  - refine (proj2 (pages_url_of_github_remote
                     ("git@github.com:alice/demo" ++ nl)
                     "alice/demo" false _ _) _).
    + vm_compute. reflexivity.
    + intros _. vm_compute. reflexivity.
    + vm_compute. reflexivity.
Defined.

(** X5. A set-up that succeeds where the path tested for [.git] is
    absent runs [git init], then writes [.gitattributes] with the three
    LFS lines for [*.mp4], [*.mkv] and [*.mov], then runs
    [git lfs install], in this order and in the repository directory;
    before them it runs no command and writes no file, and after them
    come only the events of looking up the URL. *)
Lemma init_in_fresh_directory (E : env) (repo : string) (w w' : world)
    (self : GitLFSVideoShare) :
  init E repo w = (Ok self, w') ->
  let r := resolve (cwd w) (to_str (parse repo)) in
  present (fs w) (git_dir_checked r (parse repo)) = false ->
  exists pre post,
    added w w'
    = (pre
       ++ [Spawn r ["git"; "init"] 0;
           WriteFile (r ++ [".gitattributes"])
             (Raw ("*.mp4 filter=lfs diff=lfs merge=lfs -text" ++ nl
                   ++ "*.mkv filter=lfs diff=lfs merge=lfs -text" ++ nl
                   ++ "*.mov filter=lfs diff=lfs merge=lfs -text" ++ nl));
           Spawn r ["git"; "lfs"; "install"] 0]
       ++ post)%list
    /\ spawns pre = [] /\ writes pre = []
    /\ Forall (url_event r) post.
Proof.
  intros H r Hfresh.
  apply init_ok in H
    as (url & fresh & evs_url & _ & _ & Ht & Hu & _ & Hnew & _).
  fold r in Ht, Hu, Hnew. cbn zeta in Ht. rewrite (Hnew Hfresh) in Ht.
  rewrite (added_app _ _ _ Ht).
  set (mv := negb (is_dir (fs w) (r ++ ["videos"]))).
  set (mp := negb (is_dir (fs w) (r ++ ["pages"]))).
  exists (mkdir_events mv (r ++ ["videos"]) ++ mkdir_events mp (r ++ ["pages"])
          ++ [Chdir r; Print "初始化Git仓库..."])%list, evs_url.
  split; [|split; [|split]].
  - unfold setup_events, fresh_events. rewrite <- !app_assoc. reflexivity.
  - now destruct mv, mp.
  - now destruct mv, mp.
  - exact Hu.
Qed.

Lemma init_in_fresh_directory_witness :
  let w := fresh ["https://alice.github.io/demo"] in
  let res := init (git_ok None) "/home/u/myrepo" w in
  let r := resolve (cwd w) (to_str (parse "/home/u/myrepo")) in
  exists pre post,
    added w (snd res)
    = (pre
       ++ [Spawn r ["git"; "init"] 0;
           WriteFile (r ++ [".gitattributes"])
             (Raw ("*.mp4 filter=lfs diff=lfs merge=lfs -text" ++ nl
                   ++ "*.mkv filter=lfs diff=lfs merge=lfs -text" ++ nl
                   ++ "*.mov filter=lfs diff=lfs merge=lfs -text" ++ nl));
           Spawn r ["git"; "lfs"; "install"] 0]
       ++ post)%list
    /\ spawns pre = [] /\ writes pre = []
    /\ Forall (url_event r) post.
Proof.
  intros w res.
  apply (init_in_fresh_directory (git_ok None) "/home/u/myrepo" w (snd res)
           (sharer_of (fst res))).
  - vm_compute. reflexivity.
  - vm_compute. reflexivity.
Defined.

(** X6. When the constructor returns, the repository path names a
    directory and so do [videos] and [pages] below it: they were there
    or have been created, and nothing the set-up does afterwards takes
    them away. *)
Lemma init_leaves_directories (E : env) (repo : string) (w w' : world)
    (self : GitLFSVideoShare) :
  init E repo w = (Ok self, w') ->
  let r := resolve (cwd w) (to_str (parse repo)) in
  is_dir (fs w') r = true
  /\ is_dir (fs w') (r ++ ["videos"]) = true
  /\ is_dir (fs w') (r ++ ["pages"]) = true.
Proof.
  intros H r. pose proof (parse_wf repo) as Hp.
  set (p := parse repo) in *.
  unfold init, setup_repository, try_except in H. fold p in H.
  match type of H with
  | match ?body w with _ => _ end = _ =>
      destruct (body w) as [[a|[msg|code]] w0] eqn:Hb
  end; try discriminate H.
  injection H as -> ->.
  cbn [videos_dir pages_dir repo_path sharer_at] in Hb.
  rewrite !truediv_component in Hb
    by (apply regular_component;
        first [apply component_videos|apply component_pages|apply regular_git]).
  assert (Hone : forall x, regular x -> Forall regular [x])
    by (intros x Hx; constructor; [exact Hx|constructor]).
  apply bind_ok in Hb as ([] & w1 & Hm1 & Hb).
  assert (Hv1 : is_dir (fs w1) (r ++ ["videos"]) = true /\ cwd w1 = cwd w).
  { apply mkdir_exist_ok_ok in Hm1 as (made & Hmade & Hw1).
    rewrite resolve_extend in Hmade, Hw1 by auto using component_videos.
    fold r in Hmade, Hw1. rewrite Hw1.
    destruct made; (split; [|reflexivity]).
    - unfold is_dir. cbn [fs log set_fs].
      rewrite lookup_insert_eq. apply orb_true_r.
    - now destruct (is_dir (fs w) (r ++ ["videos"])). }
  destruct Hv1 as [Hv1 Hc1].
  apply bind_ok in Hb as ([] & w2 & Hm2 & Hb).
  assert (Hv2 : is_dir (fs w2) (r ++ ["pages"]) = true /\ cwd w2 = cwd w).
  { apply mkdir_exist_ok_ok in Hm2 as (made & Hmade & Hw2).
    rewrite Hc1, resolve_extend in Hmade, Hw2 by auto using component_pages.
    fold r in Hmade, Hw2. rewrite Hw2.
    destruct made; (split; [|exact Hc1]).
    - unfold is_dir. cbn [fs log set_fs].
      rewrite lookup_insert_eq. apply orb_true_r.
    - now destruct (is_dir (fs w1) (r ++ ["pages"])). }
  destruct Hv2 as [Hv2 Hc2].
  pose proof (is_dir_kept
                (mkdir_exist_ok (to_str (mkPath (root p) (tail p ++ ["pages"]))))
                w1 _ (keeps_nodes_mkdir_exist_ok _) Hv1) as Hv12.
  rewrite Hm2 in Hv12. cbn [snd] in Hv12.
  apply bind_ok in Hb as ([] & w3 & Hcd & Hb).
  assert (Hr3 : is_dir (fs w3) r = true /\ fs w3 = fs w2).
  { pose proof (chdir_reached _ _ _ _ Hcd) as [_ Hd].
    apply chdir_ok in Hcd. rewrite Hc2 in Hd. fold r in Hd.
    rewrite Hcd. now split. }
  destruct Hr3 as [Hr3 Hf3].
  rewrite <- Hf3 in Hv12, Hv2.
  match type of Hb with
  | ?rest w3 = _ =>
      assert (Hk : keeps_nodes rest) by repeat keeps_step;
      pose proof (fun a => is_dir_kept rest w3 a Hk) as Hkeep
  end.
  rewrite Hb in Hkeep. cbn [snd] in Hkeep. auto.
Qed.

Lemma init_leaves_directories_witness :
  let w := fresh ["https://alice.github.io/demo"] in
  let res := init (git_ok None) "/home/u/myrepo" w in
  let r := resolve (cwd w) (to_str (parse "/home/u/myrepo")) in
  is_dir (fs (snd res)) r = true
  /\ is_dir (fs (snd res)) (r ++ ["videos"]) = true
  /\ is_dir (fs (snd res)) (r ++ ["pages"]) = true.
Proof.
  intros w res.
  apply (init_leaves_directories (git_ok None) "/home/u/myrepo" w (snd res)
           (sharer_of (fst res))).
  vm_compute. reflexivity.
Defined.

Lemma init_missing_repository_exits (E : env) (repo : string) (w : world) :
  isdir_at w (to_str (parse repo)) = false ->
  exists msg,
    init E repo w
    = (Raise (SystemExit 1), log (Print ("仓库设置失败: " ++ msg)) w).
Proof.
  intros Hr. pose proof (parse_wf repo) as Hp.
  unfold init, setup_repository, try_except, bind at 1.
  cbn [videos_dir sharer_at].
  rewrite (truediv_component _ "videos") by apply component_videos.
  assert (Hb : exists e, blocked w (to_str (mkPath (root (parse repo))
                                              (tail (parse repo) ++ ["videos"])))
                         = Some (Exception e)).
  { unfold blocked.
    rewrite namei_extend by (exact Hp || apply component_videos).
    unfold isdir_at, reached in Hr.
    destruct (namei (fs w) (cwd w) (to_str (parse repo))) as [a|b] eqn:Hn.
    - rewrite <- (namei_at _ _ _ _ Hn) in Hr. cbn [andb] in Hr.
      cbn [namei_step]. rewrite Hr.
      destruct (bool_decide _); now eexists.
    - cbn [namei_step]. destruct b; now eexists. }
  destruct Hb as [e Hb].
  unfold mkdir_exist_ok, along. rewrite Hb.
  unfold bind, print, emit, raise, log. now eexists.
Qed.

(** X7. When the repository path entered does not lead to a directory
    (a component of it is missing or is a file, or what it names is),
    [main] ends with exit status 1: [mkdir] fails, the set-up prints its
    failure message and calls [sys.exit(1)], which [main]'s own handler
    does not catch.  All that has happened is the banner, the prompt and
    that message: nothing is created, no command is run, the directory
    is not changed and the video is never asked for. *)
Lemma main_missing_repository_exits (E : env) (w : world) (line0 : string)
    (rest0 : list string) :
  stdin w = line0 :: rest0 ->
  isdir_at w (to_str (parse (strip line0))) = false ->
  exists msg w',
    main E w = (Raise (SystemExit 1), w')
    /\ added w w' = [Print ("=== GitHub LFS 视频分享工具 ===" ++ nl);
                     Input prompt_repo;
                     Print ("仓库设置失败: " ++ msg)]
    /\ fs w' = fs w /\ cwd w' = cwd w.
Proof.
  intros Hin Hr.
  destruct (init_missing_repository_exits E (strip line0) (started w rest0))
    as [msg Hi]; [exact Hr|].
  rewrite (main_after_prompt _ _ _ _ Hin). unfold try_except, bind. rewrite Hi.
  exists msg. eexists. split; [reflexivity|]. split; [|split; reflexivity].
  unfold added, started, log. cbn [trace]. rewrite <- app_assoc.
  apply drop_app_length.
Qed.

Lemma main_missing_repository_exits_witness :
  let w := fresh ["nosuch/../home/u/myrepo"; "/home/u/clip.mp4"] in
  exists msg w',
    main (git_ok None) w = (Raise (SystemExit 1), w')
    /\ added w w' = [Print ("=== GitHub LFS 视频分享工具 ===" ++ nl);
                     Input prompt_repo;
                     Print ("仓库设置失败: " ++ msg)]
    /\ fs w' = fs w /\ cwd w' = cwd w.
Proof.
  intros w.
  apply (main_missing_repository_exits (git_ok None) w "nosuch/../home/u/myrepo"
           ["/home/u/clip.mp4"]).
  - reflexivity.
  - vm_compute. reflexivity.
Defined.

(** X8. The one exception [main] lets out is the end of input at its
    first prompt, which is read outside the [try]: with nothing to read,
    [main] raises [EOFError].  Once the repository path has been read,
    [main] raises no [Exception], whatever the commands and the file
    system do: it returns, or exits through [sys.exit]. *)
Lemma main_never_raises_exception_after_first_prompt (E : env) (w : world) :
  (stdin w = [] ->
   fst (main E w) = Raise (Exception "EOF when reading a line"))
  /\ (stdin w <> [] -> forall msg, fst (main E w) <> Raise (Exception msg)).
Proof.
  split.
  - intros H. unfold main, bind at 1 2, print at 1, emit, input.
    cbn [stdin cwd fs clock trace]. now rewrite H.
  - intros H msg. destruct (stdin w) as [|line0 rest0] eqn:Hs; [easy|].
    rewrite (main_after_prompt _ _ _ _ Hs). unfold try_except.
    match goal with
    | |- context [match ?c with _ => _ end] =>
        destruct c as [[x|[m|code]] w1]
    end; cbn [fst]; discriminate.
Qed.

Lemma main_never_raises_exception_after_first_prompt_witness :
  fst (main git_add_fails (fresh []))
  = Raise (Exception "EOF when reading a line")
  /\ forall msg,
       fst (main git_add_fails (fresh ["/home/u/myrepo"; "u"; "/home/u/clip.mp4"]))
       <> Raise (Exception msg).
Proof.
  split.
  - apply (proj1 (main_never_raises_exception_after_first_prompt
                    git_add_fails (fresh []))).
    reflexivity.
  - apply (proj2 (main_never_raises_exception_after_first_prompt
                    git_add_fails
                    (fresh ["/home/u/myrepo"; "u"; "/home/u/clip.mp4"]))).
    discriminate.
Defined.



Lemma spawns_share_events (r here : list string) (u : option string)
    (d : datetime) (n : string) (c : content) (nested made : bool) :
  spawns (share_events r here u d n c nested made)
  = [(here, cmd_git_add, 0%Z); (here, cmd_git_commit n, 0%Z)].
Proof. unfold share_events, spawns. now destruct made. Qed.

(** X10. A share that succeeds runs exactly two commands, in the
    directory the process is in: [git add .] and then
    [git commit -m "Add video: NAME"] with the file name of the video.
    It never pushes. *)
Lemma share_runs_add_then_commit (E : env) (repo : string) (u : option string)
    (video : string) (w w' : world) (info : share_info) :
  Forall regular (cwd w) ->
  share_video E (sharer_at (parse repo) u) video w = (Ok info, w') ->
  spawns (added w w')
  = [(cwd w, ["git"; "add"; "."], 0%Z);
     (cwd w, ["git"; "commit"; "-m"; "Add video: " ++ name (parse video)], 0%Z)].
Proof.
  intros Hc H.
  apply share_video_ok in H as (_ & c & nested & made & _ & _ & Ht & _);
    [|apply parse_wf|exact Hc].
  rewrite (added_app _ _ _ Ht). apply spawns_share_events.
Qed.

Lemma share_runs_add_then_commit_witness :
  let w := in_repo t0 initialised_fs in
  let res := share_video (git_ok None) sharer0 "/home/u/talk.mkv" w in
  spawns (added w (snd res))
  = [(cwd w, ["git"; "add"; "."], 0%Z);
     (cwd w, ["git"; "commit"; "-m";
              "Add video: " ++ name (parse "/home/u/talk.mkv")], 0%Z)].
Proof.
  intros w res.
  apply (share_runs_add_then_commit (git_ok None) "/home/u/myrepo"
           (Some "https://alice.github.io/demo") "/home/u/talk.mkv" w (snd res)
           (info_of (fst res))).
  - repeat (constructor; [now repeat split|]). constructor.
  - vm_compute. reflexivity.
Defined.

(** X11. The paths in the dictionary a share returns name what the
    share has made: at [page_path] is the page, whose title is the file
    name of the video and whose source is [videos/NAME]; at [qr_path] is
    the QR image of [page_url]; and at [video_path] is a file with the
    content of the video shared, unless a directory of that name was
    already in [videos/]. *)
Lemma share_result_names_files (E : env) (repo : string) (u : option string)
    (video : string) (w w' : world) (info : share_info) :
  Forall regular (cwd w) ->
  share_video E (sharer_at (parse repo) u) video w = (Ok info, w') ->
  exists c,
    fs w !! resolve (cwd w) video = Some (File c)
    /\ fs w' !! resolve (cwd w') (info_page_path info)
       = Some (File (Raw (html_content (name (parse video))
                                       ("videos" ++ "/" ++ name (parse video)))))
    /\ fs w' !! resolve (cwd w') (info_qr_path info)
       = Some (File (QrPng (info_page_url info)))
    /\ (is_dir (fs w) (resolve (cwd w) (info_video_path info)) = false ->
        fs w' !! resolve (cwd w') (info_video_path info) = Some (File c)).
Proof.
  intros Hc H. pose proof (parse_wf repo) as Hp.
  apply share_video_ok in H
    as (Hn & c & nested & made & Hsrc & Hnest & _ & Hf & Hcwd & ->);
    [|exact Hp|exact Hc].
  set (n := name (parse video)) in *.
  set (r := resolve (cwd w) (to_str (parse repo))) in *.
  set (d := clock w) in *.
  pose proof (page_name_regular d n Hn) as Hpg.
  pose proof (qr_name_regular n Hn) as Hq.
  destruct (share_targets_distinct r d n nested) as (H1 & H2 & H3 & H4 & H5 & H6).
  exists c. split; [exact Hsrc|]. rewrite Hcwd. unfold share_result.
  cbn [info_page_path info_qr_path info_video_path info_page_url].
  rewrite !resolve_extend
    by (exact Hp || (apply regular_two;
                     first [exact Hn|exact Hpg|exact Hq|apply component_videos
                           |apply component_pages|apply component_qrcodes])).
  fold r. rewrite Hf. unfold share_fs.
  fold (page_target r d n) (qr_target r n).
  split; [|split].
  - rewrite lookup_insert_ne
      by (intros Heq; first [now apply H5|symmetry in Heq; now apply H5]).
    destruct made; cbn [id].
    + rewrite lookup_insert_ne
        by (intros Heq; first [now apply H4|symmetry in Heq; now apply H4]).
      apply lookup_insert_eq.
    + apply lookup_insert_eq.
  - apply lookup_insert_eq.
  - intros Hd. assert (Hnf : nested = false).
    { rewrite Hnest. unfold video_target. rewrite app_nil_r. exact Hd. }
    clear Hnest. subst nested.
    change (r ++ ["videos"; n])%list with (r ++ ["videos"; n] ++ [])%list.
    fold (video_target r n false).
    rewrite lookup_insert_ne
      by (intros Heq; first [now apply H3|symmetry in Heq; now apply H3]).
    destruct made; cbn [id].
    + rewrite lookup_insert_ne
        by (intros Heq; first [now apply H2|symmetry in Heq; now apply H2]).
      rewrite lookup_insert_ne
        by (intros Heq; first [now apply H1|symmetry in Heq; now apply H1]).
      apply lookup_insert_eq.
    + rewrite lookup_insert_ne
        by (intros Heq; first [now apply H1|symmetry in Heq; now apply H1]).
      apply lookup_insert_eq.
Qed.

Lemma share_result_names_files_witness :
  let w := in_repo t0 initialised_fs in
  let res := share_video (git_ok None) sharer0 "/home/u/clip.mp4" w in
  let info := info_of (fst res) in
  let w' := snd res in
  exists c,
    fs w !! resolve (cwd w) "/home/u/clip.mp4" = Some (File c)
    /\ fs w' !! resolve (cwd w') (info_page_path info)
       = Some (File (Raw (html_content (name (parse "/home/u/clip.mp4"))
                            ("videos" ++ "/" ++ name (parse "/home/u/clip.mp4")))))
    /\ fs w' !! resolve (cwd w') (info_qr_path info)
       = Some (File (QrPng (info_page_url info)))
    /\ (is_dir (fs w) (resolve (cwd w) (info_video_path info)) = false ->
        fs w' !! resolve (cwd w') (info_video_path info) = Some (File c)).
Proof.
  intros w res info w'.
  apply (share_result_names_files (git_ok None) "/home/u/myrepo"
           (Some "https://alice.github.io/demo") "/home/u/clip.mp4" w w' info).
  - repeat (constructor; [now repeat split|]). constructor.
  - vm_compute. reflexivity.
Defined.

(** X12. Sharing a video that already is the file [videos/NAME] of the
    repository fails: [shutil.copy2] refuses to copy a file onto itself,
    and [share_video] raises with its [分享失败] prefix having done
    nothing: no file is written, no command is run. *)
Lemma share_of_file_in_place_fails (E : env) (repo : string) (u : option string)
    (video : string) (w : world) (c : content) :
  fs w !! resolve (cwd w) video = Some (File c) ->
  dir_syntax video = false ->
  resolve (cwd w) video
  = (resolve (cwd w) (to_str (parse repo)) ++ ["videos"; name (parse video)])%list ->
  exists msg,
    share_video E (sharer_at (parse repo) u) video w
    = (Raise (Exception ("分享失败: " ++ msg)), w).
Proof.
  intros Hsrc Hds Hsame. pose proof (parse_wf repo) as Hp.
  destruct (name_regular _ Hds) as [Hn _].
  unfold share_video, try_except, share_video_body, bind at 1.
  rewrite (target_path_shape repo u _ Hn).
  set (dst := to_str _).
  assert (Hd : resolve (cwd w) dst = resolve (cwd w) video).
  { subst dst. rewrite Hsame. apply resolve_extend; [exact Hp|].
    apply regular_two; [apply component_videos|exact Hn]. }
  assert (Hnd : is_dir (fs w) (resolve (cwd w) video) = false).
  { unfold is_dir. rewrite Hsrc, Hsame.
    rewrite bool_decide_eq_false_2; [reflexivity|].
    intros Heq. apply List.app_eq_nil in Heq as [_ Heq]. discriminate Heq. }
  assert (Hid : isdir_at w dst = false)
    by (unfold isdir_at; rewrite Hd, Hnd; apply andb_false_r).
  unfold copy2. rewrite Hid. cbv zeta. unfold along at 1.
  destruct (blocked w video) as [e|] eqn:Hb.
  { apply blocked_exception in Hb as [m ->]. unfold raise. now eexists. }
  rewrite Hsrc, Hds, Hd.
  rewrite (bool_decide_eq_true_2 _ eq_refl), andb_true_r.
  destruct (reached w dst) eqn:Hre; [unfold raise; now eexists|].
  unfold write_file, along.
  destruct (blocked_reached _ _ Hre) as [e He]. rewrite He.
  apply blocked_exception in He as [m ->]. unfold raise. now eexists.
Qed.

Lemma share_of_file_in_place_fails_witness :
  let w := in_repo t0 shared_fs in
  exists msg,
    share_video (git_ok None) sharer0 "videos/clip.mp4" w
    = (Raise (Exception ("分享失败: " ++ msg)), w).
Proof.
  intros w.
  apply (share_of_file_in_place_fails (git_ok None) "/home/u/myrepo"
           (Some "https://alice.github.io/demo") "videos/clip.mp4" w (Raw "VIDEO")).
  - vm_compute. reflexivity.
  - vm_compute. reflexivity.
  - vm_compute. reflexivity.
Defined.

(** X13. When the [videos] directory of the sharer, looked up from the
    directory the process is in, is not there, a share fails at the
    copy and raises with the [分享失败] prefix having done nothing.  This
    is what happens after a set-up with a relative repository path: the
    set-up has changed into the repository, and [myrepo/videos] is then
    looked for inside it. *)
Lemma share_without_videos_directory_fails (E : env) (repo : string)
    (u : option string) (video : string) (w : world) (c : content) :
  let r := resolve (cwd w) (to_str (parse repo)) in
  fs w !! resolve (cwd w) video = Some (File c) ->
  dir_syntax video = false ->
  is_dir (fs w) (r ++ ["videos"]) = false ->
  fs w !! (r ++ ["videos"; name (parse video)])%list = None ->
  exists msg,
    share_video E (sharer_at (parse repo) u) video w
    = (Raise (Exception ("分享失败: " ++ msg)), w).
Proof.
  intros r Hsrc Hds Hv Ht. pose proof (parse_wf repo) as Hp.
  destruct (name_regular _ Hds) as [Hn _].
  unfold share_video, try_except, share_video_body, bind at 1.
  rewrite (target_path_shape repo u _ Hn).
  set (dst := to_str _).
  assert (Hd : resolve (cwd w) dst = (r ++ ["videos"; name (parse video)])%list).
  { subst dst. apply resolve_extend; [exact Hp|].
    apply regular_two; [apply component_videos|exact Hn]. }
  assert (Hnd : is_dir (fs w) (r ++ ["videos"; name (parse video)]) = false).
  { unfold is_dir. rewrite Ht, bool_decide_eq_false_2; [reflexivity|].
    intros Heq. apply List.app_eq_nil in Heq as [_ Heq]. discriminate Heq. }
  assert (Hid : isdir_at w dst = false)
    by (unfold isdir_at; rewrite Hd, Hnd; apply andb_false_r).
  unfold copy2. rewrite Hid. cbv zeta. unfold along at 1.
  destruct (blocked w video) as [e|] eqn:Hb.
  { apply blocked_exception in Hb as [m ->]. unfold raise. now eexists. }
  rewrite Hsrc, Hds, Hd.
  destruct (_ && _); [unfold raise; now eexists|].
  unfold write_file, along.
  destruct (blocked w dst) as [e|] eqn:Hb2.
  { apply blocked_exception in Hb2 as [m ->]. unfold raise. now eexists. }
  rewrite Hd, Hnd.
  change (r ++ ["videos"; name (parse video)])%list
    with (r ++ ["videos"] ++ [name (parse video)])%list.
  rewrite app_assoc, removelast_last, Hv.
  destruct (String.eqb dst EmptyString); [unfold raise, enoent; now eexists|].
  destruct (dir_syntax dst); cbn [orb]; unfold raise, eisdir, enoent; now eexists.
Qed.

Lemma share_without_videos_directory_fails_witness :
  let w := in_repo t0 initialised_fs in
  exists msg,
    share_video (git_ok None)
      (sharer_at (parse "myrepo") (Some "https://alice.github.io/demo"))
      "/home/u/clip.mp4" w
    = (Raise (Exception ("分享失败: " ++ msg)), w).
Proof.
  intros w.
  apply (share_without_videos_directory_fails (git_ok None) "myrepo"
           (Some "https://alice.github.io/demo") "/home/u/clip.mp4" w
           (Raw "VIDEO")).
  - vm_compute. reflexivity.
  - vm_compute. reflexivity.
  - vm_compute. reflexivity.
  - vm_compute. reflexivity.
Defined.

(** X14. A video path entered between double quotes, as a terminal
    gives it when a file is dragged in, is taken exactly as the same
    path entered bare: [main] goes on in the same way with both. *)
Lemma main_share_takes_quoted_path (E : env) (sharer : GitLFSVideoShare)
    (w : world) (p : string) (rest : list string) :
  has_char chr_dq p = false ->
  strip p = p ->
  main_share E sharer (typed ((dq ++ p ++ dq) :: rest) w)
  = main_share E sharer (typed (p :: rest) w).
Proof.
  intros Hq Hs. unfold main_share, typed.
  set (k := fun line : string => _).
  unfold bind, input. cbn [stdin cwd fs clock trace]. subst k. cbn beta.
  now rewrite (strip_quoted _ Hq), Hs, (strip_char_absent _ Hq).
Qed.

Lemma main_share_takes_quoted_path_witness :
  let w := in_repo t0 initialised_fs in
  main_share (git_ok None) sharer0
    (typed [dq ++ "/home/u/clip.mp4" ++ dq] w)
  = main_share (git_ok None) sharer0 (typed ["/home/u/clip.mp4"] w).
Proof.
  intros w.
  apply (main_share_takes_quoted_path (git_ok None) sharer0 w
           "/home/u/clip.mp4" []).
  - vm_compute. reflexivity.
  - vm_compute. reflexivity.
Defined.

(** X15. When [main] reports success, the address it prints after
    [访问地址] is the very string in the QR image the share has written,
    and that image is in the file system when [main] ends. *)
Lemma main_share_prints_qr_address (E : env) (repo : string) (u : option string)
    (w w' : world) :
  Forall regular (cwd w) ->
  main_share E (sharer_at (parse repo) u) w = (Ok tt, w') ->
  In (Print (nl ++ "=== 分享成功！===")) (added w w') ->
  exists url q,
    In (Print ("访问地址: " ++ url)) (added w w')
    /\ In (WriteFile q (QrPng url)) (added w w')
    /\ fs w' !! q = Some (File (QrPng url)).
Proof.
  intros Hc H Hin. pose proof (parse_wf repo) as Hp.
  unfold main_share in H.
  apply bind_ok in H as (line & w1 & Hi & H).
  assert (Hw1 : cwd w1 = cwd w /\ fs w1 = fs w /\ clock w1 = clock w
                /\ trace w1 = (trace w ++ [Input prompt_video])%list).
  { unfold input in Hi. destruct (stdin w); [discriminate|].
    now injection Hi as _ <-. }
  destruct Hw1 as (Hc1 & Hf1 & Hk1 & Ht1).
  apply bind_ok in H as (found & w2 & Hex & H).
  injection Hex as _ <-.
  destruct (negb found).
  - exfalso. injection H as <-. unfold added in Hin. cbn [trace] in Hin.
    rewrite Ht1, <- app_assoc, drop_app_length in Hin.
    destruct Hin as [Hin|[Hin|[]]]; discriminate Hin.
  - apply bind_ok in H as ([] & w3 & Hp1 & H). injection Hp1 as <-.
    apply bind_ok in H as (info & w4 & Hs & H).
    apply share_video_ok in Hs
      as (Hn & c & nested & made & _ & _ & Ht4 & Hf4 & _ & ->);
      [|exact Hp|cbn [cwd log]; now rewrite Hc1].
    cbn [cwd fs clock trace log] in Ht4, Hf4. rewrite Hc1, Hk1 in Ht4, Hf4.
    set (n := name (parse (strip_char chr_dq (strip line)))) in *.
    set (r := resolve (cwd w) (to_str (parse repo))) in *.
    set (url := page_url u (clock w) n) in *.
    unfold print, emit, bind in H. cbn [fst snd] in H. injection H as <-.
    exists url, (qr_target r n). unfold added. cbn [trace fs].
    rewrite Ht4, Ht1, <- !app_assoc, drop_app_length.
    cbn [info_page_url share_result]. rewrite Hk1. fold url.
    split; [|split].
    + rewrite !in_app_iff. cbn [In]. pick_event.
    + unfold share_events. rewrite !in_app_iff. cbn [In]. pick_event.
    + rewrite Hf4. unfold share_fs. apply lookup_insert_eq.
Qed.

Lemma main_share_prints_qr_address_witness :
  let w := typed ["/home/u/clip.mp4"] (in_repo t0 initialised_fs) in
  let w' := snd (main_share (git_ok None) sharer0 w) in
  exists url q,
    In (Print ("访问地址: " ++ url)) (added w w')
    /\ In (WriteFile q (QrPng url)) (added w w')
    /\ fs w' !! q = Some (File (QrPng url)).
Proof.
  intros w w'.
  apply (main_share_prints_qr_address (git_ok None) "/home/u/myrepo"
           (Some "https://alice.github.io/demo") w w').
  - repeat (constructor; [now repeat split|]). constructor.
  - vm_compute. reflexivity.
  - vm_compute. pick_event.
Defined.

(** X16. By its own file operations the program removes nothing and
    turns no file into a directory or directory into a file: whatever
    is at a path when [main] starts is still there when it ends or
    exits, a directory as a directory and a file as a file, possibly
    with new content.  (What the [git] subprocesses do to the
    repository is not part of the program.) *)
Lemma main_removes_nothing (E : env) (w : world) (a : list string) (x : node) :
  fs w !! a = Some x ->
  exists y, fs (snd (main E w)) !! a = Some y /\ same_kind x y = true.
Proof. apply keeps_nodes_main. Qed.

Lemma main_removes_nothing_witness :
  let w := fresh ["/home/u/myrepo"; "https://alice.github.io/demo";
                  "/home/u/clip.mp4"] in
  exists y,
    fs (snd (main (git_ok None) w)) !! ["home"; "u"; "clip.mp4"] = Some y
    /\ same_kind (File (Raw "VIDEO")) y = true.
Proof.
  intros w.
  apply (main_removes_nothing (git_ok None) w ["home"; "u"; "clip.mp4"]
           (File (Raw "VIDEO"))).
  vm_compute. reflexivity.
Defined.

Lemma owned_main (E : env) : owned (main E).
Proof. unfold main. repeat owned_step. Qed.

(** X17. The commands [main] runs are its own five and no other:
    [git init], [git lfs install],
    [git config --get remote.origin.url], [git add .] and
    [git commit -m "Add video: NAME"].  It never pushes: what it prints
    at the end about [git push] is left to the operator. *)
Lemma main_runs_only_its_commands (E : env) (w : world) (d argv : list string)
    (rc : Z) :
  In (Spawn d argv rc) (added w (snd (main E w))) ->
  argv = ["git"; "init"]
  \/ argv = ["git"; "lfs"; "install"]
  \/ argv = ["git"; "config"; "--get"; "remote.origin.url"]
  \/ argv = ["git"; "add"; "."]
  \/ exists video_name, argv = ["git"; "commit"; "-m"; "Add video: " ++ video_name].
Proof.
  intros Hin. destruct (owned_main E w) as (evs & Hev & Hf).
  rewrite (added_app _ _ _ Hev) in Hin.
  rewrite List.Forall_forall in Hf. exact (Hf _ Hin).
Qed.

Lemma main_runs_only_its_commands_witness :
  let w := fresh ["/home/u/myrepo"; "https://alice.github.io/demo";
                  "/home/u/clip.mp4"] in
  let argv := ["git"; "commit"; "-m"; "Add video: clip.mp4"] in
  In (Spawn ["home"; "u"; "myrepo"] argv 0) (added w (snd (main (git_ok None) w)))
  /\ (argv = ["git"; "init"]
  \/ argv = ["git"; "lfs"; "install"]
  \/ argv = ["git"; "config"; "--get"; "remote.origin.url"]
  \/ argv = ["git"; "add"; "."]
  \/ exists video_name,
       argv = ["git"; "commit"; "-m"; "Add video: " ++ video_name]).
Proof.
  intros w argv.
  assert (Hin : In (Spawn ["home"; "u"; "myrepo"] argv 0)
                   (added w (snd (main (git_ok None) w))))
    by (vm_compute; pick_event).
  split; [exact Hin|].
  exact (main_runs_only_its_commands (git_ok None) w ["home"; "u"; "myrepo"]
           argv 0%Z Hin).
Defined.





Lemma leaves_files_main (E : env) : leaves_files (main E).
Proof. unfold main. repeat leaves_step. Qed.

(** X19. Whatever [main] has written is still a file when it ends,
    however it ends: nothing is cleaned up after a failure.  When
    [git add] fails, say, the share raises and [main] reports it, and
    the copy of the video, the page and the QR image stay where they
    were written. *)
Lemma main_keeps_what_it_wrote (E : env) (w : world) (q : list string)
    (c : content) :
  In (WriteFile q c) (added w (snd (main E w))) ->
  exists c', fs (snd (main E w)) !! q = Some (File c').
Proof.
  intros Hin. destruct (leaves_files_main E w) as (evs & Hev & Hf).
  rewrite (added_app _ _ _ Hev) in Hin. exact (Hf q c Hin).
Qed.

Lemma main_keeps_what_it_wrote_witness :
  let w := fresh ["/home/u/myrepo"; "/home/u/clip.mp4"] in
  let res := main git_add_fails w in
  let q := ["home"; "u"; "myrepo"; "videos"; "clip.mp4"] in
  fst res = Ok tt
  /\ In (Spawn ["home"; "u"; "myrepo"] cmd_git_add 128) (added w (snd res))
  /\ exists c', fs (snd res) !! q = Some (File c').
Proof.
  intros w res q.
  split; [vm_compute; reflexivity|].
  split; [vm_compute; pick_event|].
  apply (main_keeps_what_it_wrote git_add_fails w q (Raw "VIDEO")).
  vm_compute. pick_event.
Defined.

End Further.
